(** * MongoDB Database Cloner: a shallow embedding of [index.js]

    The development follows the server file of the repository: the schema
    inferencer [generateSchema], the in-memory job registry [cloningJobs],
    the clone engine [cloneDatabase], the document routes
    ([/api/collection/documents], [/api/document/create|update|delete|get])
    and the listing routes ([/api/test-connection],
    [/api/database/collections]).

    Everything that is not code of the repository -- the JavaScript runtime
    ([JSON.parse], [Math.round] of a quotient) and the MongoDB driver -- is
    either an operation of an interface ([JSRuntime], [Driver]) or a scripted
    outcome ([Oracle]), so that the theorems hold for whatever these
    collaborators answer. *)

From stdpp Require Import gmap strings list fin_maps pretty sorting.
From Equations Require Import Equations.
From Stdlib Require Import Ascii.

Open Scope string_scope.
Open Scope nat_scope.
Open Scope list_scope.

(* ===================================================================== *)
(** ** JavaScript values                                                  *)
(* ===================================================================== *)

(** Values that travel in request bodies and in database documents.
    Numbers are the integral ones: the code below only asks a number for its
    [typeof] and for its truthiness.  An object is the list of its own
    enumerable properties in [Object.keys] order. *)
#[local] Set Warnings "-register-all".
Inductive JSValue : Type :=
| JUndefined
| JNull
| JBool (b : bool)
| JNum (n : Z)
| JStr (s : string)
| JArr (xs : list JSValue)
| JObj (fields : list (string * JSValue))
| JDate (ms : Z)
| JObjectId (hex : string).

#[local] Set Warnings "register-all".

Abbreviation Document := (list (string * JSValue)).

(** [!v] is [negb (truthy v)]. *)
Definition truthy (v : JSValue) : bool :=
  match v with
  | JUndefined | JNull => false
  | JBool b => b
  | JNum n => negb (n =? 0)%Z
  | JStr s => negb (String.eqb s "")
  | JArr _ | JObj _ | JDate _ | JObjectId _ => true
  end.

(** [doc[field]] on own properties. *)
Fixpoint get_field (field : string) (doc : Document) : option JSValue :=
  match doc with
  | [] => None
  | (k, v) :: rest => if String.eqb k field then Some v else get_field field rest
  end.

(** [delete obj.field]. *)
Definition delete_field (field : string) (doc : Document) : Document :=
  filter (λ kv, kv.1 ≠ field) doc.

(** [obj[field] = v]: overwrite in place, or append a new property. *)
Fixpoint set_field (field : string) (v : JSValue) (doc : Document) : Document :=
  match doc with
  | [] => [(field, v)]
  | (k, w) :: rest =>
      if String.eqb k field then (k, v) :: rest
      else (k, w) :: set_field field v rest
  end.

(** Structural equality of values, used where the database compares them. *)
Fixpoint JSValue_eqb (a b : JSValue) {struct a} : bool :=
  match a, b with
  | JUndefined, JUndefined => true
  | JNull, JNull => true
  | JBool x, JBool y => Bool.eqb x y
  | JNum x, JNum y => (x =? y)%Z
  | JStr x, JStr y => String.eqb x y
  | JArr xs, JArr ys =>
      (fix go (l1 l2 : list JSValue) {struct l1} : bool :=
         match l1, l2 with
         | [], [] => true
         | x :: l1', y :: l2' => JSValue_eqb x y && go l1' l2'
         | _, _ => false
         end) xs ys
  | JObj fs, JObj gs =>
      (fix go (l1 l2 : list (string * JSValue)) {struct l1} : bool :=
         match l1, l2 with
         | [], [] => true
         | (k, x) :: l1', (k', y) :: l2' =>
             String.eqb k k' && JSValue_eqb x y && go l1' l2'
         | _, _ => false
         end) fs gs
  | JDate x, JDate y => (x =? y)%Z
  | JObjectId x, JObjectId y => String.eqb x y
  | _, _ => false
  end.

(** JavaScript white space that occurs in one-byte strings. *)
Definition is_space (c : Ascii.ascii) : bool :=
  match Ascii.nat_of_ascii c with
  | 9 | 10 | 11 | 12 | 13 | 32 => true
  | _ => false
  end.

Fixpoint trim_start (s : string) : string :=
  match s with
  | EmptyString => EmptyString
  | String c rest => if is_space c then trim_start rest else s
  end.

Fixpoint trim_end (s : string) : string :=
  match s with
  | EmptyString => EmptyString
  | String c rest =>
      match trim_end rest with
      | EmptyString => if is_space c then EmptyString else String c EmptyString
      | t => String c t
      end
  end.

(** [s.trim()]. *)
Definition String_trim (s : string) : string := trim_end (trim_start s).

(** The part of the JavaScript runtime the server relies on.
    [Math_round_pct a b] stands for the expression
    [Math.round((a / b) * 100)] on two counters, and [JSON_parse s] for
    [JSON.parse(s)], [None] when it throws a [SyntaxError]. *)
Class JSRuntime := {
  Math_round_pct : nat → nat → Z;
  JSON_parse : string → option JSValue;
}.

(** What the models need to know about [Math.round((a / b) * 100)]: when
    [a <= b] and the percentage is a whole number, that number is the
    result. *)
Definition pct_exact `{JSRuntime} : Prop :=
  ∀ a b q : nat, 0 < b → a ≤ b → 100 * a = q * b → Math_round_pct a b = Z.of_nat q.

(** A reference runtime: the quotient is rounded half up over the
    rationals, and [JSON.parse] is scripted by a finite table of the texts
    that parse (a blank text never does). *)
Definition round_half_up_pct (a b : nat) : Z :=
  ((200 * Z.of_nat a + Z.of_nat b) / (2 * Z.of_nat b))%Z.

Definition scripted_parse (table : list (string * JSValue)) (s : string) : option JSValue :=
  if String.eqb (String_trim s) "" then None else get_field s table.

Definition reference_runtime (table : list (string * JSValue)) : JSRuntime :=
  {| Math_round_pct := round_half_up_pct; JSON_parse := scripted_parse table |}.

(* ===================================================================== *)
(** ** Schema inferencer: [generateSchema]                                *)
(* ===================================================================== *)

Module Schema.

(** One entry of the [schema] object while documents are visited. *)
Record FieldAcc := {
  acc_types : list string;       (* a [Set]: insertion order, no duplicates *)
  acc_required : nat;
  acc_examples : list JSValue;
}.

(** One entry of the returned object. *)
Record FieldInfo := {
  types : list string;
  required : nat;
  examples : list JSValue;
  requiredPercentage : Z;
}.

(** Property names every object literal inherits from [Object.prototype];
    [schema[field]] is truthy for them although [schema] has no such own
    property. *)
Definition Object_prototype_keys : list string :=
  [ "constructor"; "__defineGetter__"; "__defineSetter__"; "hasOwnProperty";
    "__lookupGetter__"; "__lookupSetter__"; "isPrototypeOf";
    "propertyIsEnumerable"; "toString"; "valueOf"; "__proto__";
    "toLocaleString" ].

Definition inherited (field : string) : bool :=
  bool_decide (field ∈ Object_prototype_keys).

(** [value.constructor.name === 'ObjectId'] for a plain object: the
    constructor is the inherited [Object] unless the object has an own
    property of that name.  [None] is the [TypeError] of reading [name] of
    [null] or [undefined]. *)
Definition plain_object_is_ObjectId (fields : Document) : option bool :=
  match get_field "constructor" fields with
  | None => Some false
  | Some JUndefined | Some JNull => None
  | Some (JObj c) =>
      match get_field "name" c with
      | Some (JStr n) => Some (String.eqb n "ObjectId")
      | _ => Some false
      end
  | Some _ => Some false
  end.

(** The [type] computed for a field value (lines 32-37). *)
Definition kind_of (value : JSValue) : option string :=
  match value with
  | JArr _ => Some "array"
  | JNull => Some "null"
  | JObjectId _ => Some "ObjectId"
  | JDate _ => Some "date"
  | JObj fields =>
      (λ is_oid : bool, if is_oid then "ObjectId" else "object")
        <$> plain_object_is_ObjectId fields
  | JUndefined => Some "undefined"
  | JBool _ => Some "boolean"
  | JNum _ => Some "number"
  | JStr _ => Some "string"
  end.

(** [Set.prototype.add]. *)
Definition Set_add (x : string) (s : list string) : list string :=
  if bool_decide (x ∈ s) then s else s ++ [x].

Definition fresh_entry : FieldAcc :=
  {| acc_types := []; acc_required := 0; acc_examples := [] |}.

(** Lines 39-45: what the visit of one value does to an entry. *)
Definition bump (type : string) (value : JSValue) (e : FieldAcc) : FieldAcc :=
  {| acc_types := Set_add type (acc_types e);
     acc_required := S (acc_required e);
     acc_examples := if length (acc_examples e) <? 3
                     then acc_examples e ++ [value] else acc_examples e |}.

(** The body of the inner [forEach] for one field of one document.  [None]
    is a thrown [TypeError]. *)
Definition visit_field (schema : gmap string FieldAcc) (kv : string * JSValue)
  : option (gmap string FieldAcc) :=
  let '(field, value) := kv in
  let schema1 :=
    if bool_decide (is_Some (schema !! field)) || inherited field
    then schema else <[field := fresh_entry]> schema in
  match kind_of value, schema1 !! field with
  | Some type, Some entry => Some (<[field := bump type value entry]> schema1)
  | _, _ => None
  end.

(** [xs.forEach(x => ...)] with a body that may throw. *)
Fixpoint forEach {A S : Type} (body : S → A → option S) (s : S) (xs : list A) : option S :=
  match xs with
  | [] => Some s
  | x :: rest =>
      match body s x with
      | Some s' => forEach body s' rest
      | None => None
      end
  end.

Definition visit_document (schema : gmap string FieldAcc) (doc : Document)
  : option (gmap string FieldAcc) :=
  forEach visit_field schema doc.

Definition finish `{JSRuntime} (n : nat) (e : FieldAcc) : FieldInfo :=
  {| types := acc_types e;
     required := acc_required e;
     examples := acc_examples e;
     requiredPercentage := Math_round_pct (acc_required e) n |}.

Definition generateSchema `{JSRuntime} (documents : list Document)
  : option (gmap string FieldInfo) :=
  match documents with
  | [] => Some ∅
  | _ =>
      match forEach visit_document (∅ : gmap string FieldAcc) documents with
      | Some schema => Some (finish (length documents) <$> schema)
      | None => None
      end
  end.

(** The values a field takes over a sample, in document order. *)
Definition occurrences (field : string) (doc : Document) : list JSValue :=
  omap (λ kv, if String.eqb kv.1 field then Some kv.2 else None) doc.

Definition field_values (field : string) (documents : list Document) : list JSValue :=
  documents ≫= occurrences field.

(** The examples kept for a field after more of its values are seen. *)
Fixpoint grow (ex : list JSValue) (vs : list JSValue) : list JSValue :=
  match vs with
  | [] => ex
  | v :: rest => grow (if length ex <? 3 then ex ++ [v] else ex) rest
  end.

Definition examples_in (schema : gmap string FieldAcc) (f : string) : list JSValue :=
  from_option acc_examples [] (schema !! f).

Definition required_in (schema : gmap string FieldAcc) (f : string) : nat :=
  from_option acc_required 0 (schema !! f).

(** Every field name of the sample can be stored, and every value has a
    kind. *)
Definition inferable (documents : list Document) : Prop :=
  Forall (Forall (λ kv, inherited kv.1 = false ∧ is_Some (kind_of kv.2))) documents.

(** The sample of the specification. *)
Definition sample_ab : list Document :=
  [ [("a", JNum 1)]; [("a", JStr "x"); ("b", JBool true)] ].

(** The kinds recorded for a field. *)
Definition types_in (schema : gmap string FieldAcc) (f : string) : list string :=
  from_option acc_types [] (schema !! f).

(** A sample with a field named like an inherited property. *)
Definition sample_inherited : list Document :=
  [ [("a", JNum 1)]; [("toString", JStr "x")] ].

End Schema.

(* ===================================================================== *)
(** ** Clone jobs                                                         *)
(* ===================================================================== *)

Inductive Status : Set :=
| Starting | Connecting | Analyzing | Cloning | Completed | Failed.

Global Instance Status_eq_dec : EqDecision Status.
Proof. solve_decision. Defined.

(** The object stored in [cloningJobs] (lines 114-127); [endTime] is absent
    until the run ends. *)
Record Job := {
  job_id : string;                 (* the property [id] *)
  status : Status;
  progress : Z;
  details : string;
  startTime : Z;
  collections : list string;
  currentCollection : option string;
  totalCollections : nat;
  processedCollections : nat;
  totalDocuments : nat;
  processedDocuments : nat;
  errors : list string;
  endTime : option Z;
}.

(** Field assignments [job.f = x]. *)

Definition set_status (x : Status) (j : Job) : Job :=
  {| job_id := job_id j;
     status := x;
     progress := progress j;
     details := details j;
     startTime := startTime j;
     collections := collections j;
     currentCollection := currentCollection j;
     totalCollections := totalCollections j;
     processedCollections := processedCollections j;
     totalDocuments := totalDocuments j;
     processedDocuments := processedDocuments j;
     errors := errors j;
     endTime := endTime j |}.

Definition set_progress (x : Z) (j : Job) : Job :=
  {| job_id := job_id j;
     status := status j;
     progress := x;
     details := details j;
     startTime := startTime j;
     collections := collections j;
     currentCollection := currentCollection j;
     totalCollections := totalCollections j;
     processedCollections := processedCollections j;
     totalDocuments := totalDocuments j;
     processedDocuments := processedDocuments j;
     errors := errors j;
     endTime := endTime j |}.

Definition set_details (x : string) (j : Job) : Job :=
  {| job_id := job_id j;
     status := status j;
     progress := progress j;
     details := x;
     startTime := startTime j;
     collections := collections j;
     currentCollection := currentCollection j;
     totalCollections := totalCollections j;
     processedCollections := processedCollections j;
     totalDocuments := totalDocuments j;
     processedDocuments := processedDocuments j;
     errors := errors j;
     endTime := endTime j |}.

Definition set_collections (x : list string) (j : Job) : Job :=
  {| job_id := job_id j;
     status := status j;
     progress := progress j;
     details := details j;
     startTime := startTime j;
     collections := x;
     currentCollection := currentCollection j;
     totalCollections := totalCollections j;
     processedCollections := processedCollections j;
     totalDocuments := totalDocuments j;
     processedDocuments := processedDocuments j;
     errors := errors j;
     endTime := endTime j |}.

Definition set_currentCollection (x : option string) (j : Job) : Job :=
  {| job_id := job_id j;
     status := status j;
     progress := progress j;
     details := details j;
     startTime := startTime j;
     collections := collections j;
     currentCollection := x;
     totalCollections := totalCollections j;
     processedCollections := processedCollections j;
     totalDocuments := totalDocuments j;
     processedDocuments := processedDocuments j;
     errors := errors j;
     endTime := endTime j |}.

Definition set_totalCollections (x : nat) (j : Job) : Job :=
  {| job_id := job_id j;
     status := status j;
     progress := progress j;
     details := details j;
     startTime := startTime j;
     collections := collections j;
     currentCollection := currentCollection j;
     totalCollections := x;
     processedCollections := processedCollections j;
     totalDocuments := totalDocuments j;
     processedDocuments := processedDocuments j;
     errors := errors j;
     endTime := endTime j |}.

Definition set_processedCollections (x : nat) (j : Job) : Job :=
  {| job_id := job_id j;
     status := status j;
     progress := progress j;
     details := details j;
     startTime := startTime j;
     collections := collections j;
     currentCollection := currentCollection j;
     totalCollections := totalCollections j;
     processedCollections := x;
     totalDocuments := totalDocuments j;
     processedDocuments := processedDocuments j;
     errors := errors j;
     endTime := endTime j |}.

Definition set_totalDocuments (x : nat) (j : Job) : Job :=
  {| job_id := job_id j;
     status := status j;
     progress := progress j;
     details := details j;
     startTime := startTime j;
     collections := collections j;
     currentCollection := currentCollection j;
     totalCollections := totalCollections j;
     processedCollections := processedCollections j;
     totalDocuments := x;
     processedDocuments := processedDocuments j;
     errors := errors j;
     endTime := endTime j |}.

Definition set_processedDocuments (x : nat) (j : Job) : Job :=
  {| job_id := job_id j;
     status := status j;
     progress := progress j;
     details := details j;
     startTime := startTime j;
     collections := collections j;
     currentCollection := currentCollection j;
     totalCollections := totalCollections j;
     processedCollections := processedCollections j;
     totalDocuments := totalDocuments j;
     processedDocuments := x;
     errors := errors j;
     endTime := endTime j |}.

Definition set_errors (x : list string) (j : Job) : Job :=
  {| job_id := job_id j;
     status := status j;
     progress := progress j;
     details := details j;
     startTime := startTime j;
     collections := collections j;
     currentCollection := currentCollection j;
     totalCollections := totalCollections j;
     processedCollections := processedCollections j;
     totalDocuments := totalDocuments j;
     processedDocuments := processedDocuments j;
     errors := x;
     endTime := endTime j |}.

Definition set_endTime (x : option Z) (j : Job) : Job :=
  {| job_id := job_id j;
     status := status j;
     progress := progress j;
     details := details j;
     startTime := startTime j;
     collections := collections j;
     currentCollection := currentCollection j;
     totalCollections := totalCollections j;
     processedCollections := processedCollections j;
     totalDocuments := totalDocuments j;
     processedDocuments := processedDocuments j;
     errors := errors j;
     endTime := x |}.

(** The entry the route [POST /api/clone-database] stores for a new job. *)
Definition new_job (jobId : string) (now : Z) : Job :=
  {| job_id := jobId;
     status := Starting;
     progress := 0;
     details := "Initializing clone operation...";
     startTime := now;
     collections := [];
     currentCollection := None;
     totalCollections := 0;
     processedCollections := 0;
     totalDocuments := 0;
     processedDocuments := 0;
     errors := [];
     endTime := None |}.

(* ===================================================================== *)
(** ** Clone engine: [cloneDatabase]                                      *)
(* ===================================================================== *)

Module Engine.

(** An index description as [listIndexes] returns it: the three properties
    the engine deletes, the key, and the remaining options. *)
Record Index := {
  ix_v : Z;
  ix_key : Document;
  ix_name : string;
  ix_ns : option string;
  ix_options : Document;
}.

(** The source database as the driver reports it during one run. *)
Record SourceCollection := {
  col_name : string;
  col_docs : list Document;
  col_indexes : list Index;
}.

Inductive Side : Set := Source | Target.

Global Instance Side_eq_dec : EqDecision Side.
Proof. solve_decision. Defined.

(** The awaited driver calls of [cloneDatabase]. *)
Inductive Op : Type :=
| OpConnect (side : Side) (connectionString : string)
| OpListCollections
| OpCountDocuments (collectionName : string)
| OpDrop (collectionName : string)
| OpFind (collectionName : string)
| OpInsertMany (collectionName : string) (batch : list Document)
| OpListIndexes (collectionName : string)
| OpCreateIndex (collectionName : string) (key : Document) (indexSpec : Document)
| OpClose (side : Side).

(** The outcome of the n-th step of a run: [None] when the call succeeds,
    [Some message] when the promise rejects with [Error(message)]. *)
Definition Oracle := nat → Op → option string.

(** What a run leaves behind: the driver calls with their outcomes, and each
    evaluation of the progress quotient with its two operands. *)
Inductive Event : Type :=
| Called (op : Op) (outcome : option string)
| Divided (processed total : nat).

(** The state of one run: the job object, the two local variables, the
    connections that are open on the servers, the job as a poller sees it
    at each suspension of the engine, and the events so far. *)
Record Run := {
  job : Job;
  sourceClient : bool;             (* [sourceClient] is not [null] *)
  targetClient : bool;
  open_connections : list Side;
  history : list Job;
  log : list Event;
}.

Definition initial_run (j : Job) : Run :=
  {| job := j; sourceClient := false; targetClient := false;
     open_connections := []; history := []; log := [] |}.

Definition with_job (f : Job → Job) (r : Run) : Run :=
  {| job := f (job r); sourceClient := sourceClient r;
     targetClient := targetClient r; open_connections := open_connections r;
     history := history r; log := log r |}.

(** [sourceClient = client] or [targetClient = client]. *)
Definition with_client (side : Side) (r : Run) : Run :=
  {| job := job r;
     sourceClient := if side is Source then true else sourceClient r;
     targetClient := if side is Target then true else targetClient r;
     open_connections := open_connections r;
     history := history r; log := log r |}.

Definition with_event (e : Event) (r : Run) : Run :=
  {| job := job r; sourceClient := sourceClient r;
     targetClient := targetClient r; open_connections := open_connections r;
     history := history r; log := log r ++ [e] |}.

(** What a settled call does to the connections: a successful [connect]
    opens one, [close] releases it. *)
Definition settle (op : Op) (outcome : option string) (conns : list Side) : list Side :=
  match op, outcome with
  | OpConnect side _, None => conns ++ [side]
  | OpClose side, _ => filter (λ s, s ≠ side) conns
  | _, _ => conns
  end.

(** An awaited call: the engine is suspended with the job observable as it
    stands, then the call settles. *)
Definition performed (op : Op) (outcome : option string) (r : Run) : Run :=
  {| job := job r; sourceClient := sourceClient r;
     targetClient := targetClient r;
     open_connections := settle op outcome (open_connections r);
     history := history r ++ [job r];
     log := log r ++ [Called op outcome] |}.

(** Computations of the engine: a state transformer whose result is a value
    or a thrown error message. *)
Definition M (A : Type) : Type := Run → Run * (string + A).

Definition ret {A} (a : A) : M A := λ r, (r, inr a).

Definition bind {A B} (m : M A) (k : A → M B) : M B :=
  λ r, match m r with
       | (r', inr a) => k a r'
       | (r', inl e) => (r', inl e)
       end.

Definition throw {A} (message : string) : M A := λ r, (r, inl message).

Definition try_catch {A} (body : M A) (handler : string → M A) : M A :=
  λ r, match body r with
       | (r', inl e) => handler e r'
       | res => res
       end.

Definition try_finally {A} (body : M A) (finalizer : M unit) : M A :=
  λ r, match body r with
       | (r', res) =>
           match finalizer r' with
           | (r'', inr _) => (r'', res)
           | (r'', inl e) => (r'', inl e)
           end
       end.

Definition get_job : M Job := λ r, (r, inr (job r)).

Definition update (f : Job → Job) : M unit := λ r, (with_job f r, inr tt).

Definition emit (e : Event) : M unit := λ r, (with_event e r, inr tt).

Declare Scope engine_scope.
Delimit Scope engine_scope with engine.
Notation "x <- m ;; k" := (bind m (λ x, k))
  (at level 100, m at next level, right associativity) : engine_scope.
Notation "m ;; k" := (bind m (λ _, k))
  (at level 100, right associativity) : engine_scope.
Local Open Scope engine_scope.

(** [for (const x of xs) { body }]. *)
Fixpoint for_of {A} (xs : list A) (body : A → M unit) : M unit :=
  match xs with
  | [] => ret tt
  | x :: rest => body x;; for_of rest body
  end.

Definition batchSize : nat := 1000.

(** The values [j] takes in [for (let j = 0; j < n; j += batchSize)]. *)
Equations? offsets_from (j n : nat) : list nat by wf (n - j) lt :=
  offsets_from j n with decide (j < n) := {
    | left _ => j :: offsets_from (j + batchSize) n
    | right _ => [] }.
Proof. unfold batchSize. lia. Qed.

(** [documents.slice(j, k)]. *)
Definition slice {A} (j k : nat) (xs : list A) : list A := take (k - j) (drop j xs).

Section WithWorld.
Context `{JSRuntime}.
Variable oracle : Oracle.
Variable clock : nat → Z.                  (* [new Date()] at a step of the run *)
Variable source : list SourceCollection.   (* what the source database holds *)

(** [await call]: the call settles as the oracle says. *)
Definition await (op : Op) : M unit :=
  λ r, let outcome := oracle (length (log r)) op in
       match outcome with
       | Some e => (performed op outcome r, inl e)
       | None => (performed op outcome r, inr tt)
       end.

(** [await client.close()]; closing is taken to succeed. *)
Definition close (side : Side) : M unit :=
  λ r, (performed (OpClose side) None r, inr tt).

Definition Date_now : M Z := λ r, (r, inr (clock (length (log r)))).

(** [sourceDb.collection(name)]: the listed collection of that name. *)
Definition source_collection (name : string) : option SourceCollection :=
  list_find (λ c, col_name c = name) source ≫= λ p, Some p.2.

Definition documents_of (name : string) : list Document :=
  from_option col_docs [] (source_collection name).

Definition indexes_of (name : string) : list Index :=
  from_option col_indexes [] (source_collection name).

(** Lines 59-67. *)
Definition connectToMongoDB (side : Side) (connectionString : string) : M unit :=
  try_catch
    (await (OpConnect side connectionString);;
     λ r, (with_client side r, inr tt))
    (λ message, throw ("Connection failed: " +:+ message)).

(** Lines 464-469: the running sum [totalDocs]. *)
Fixpoint count_documents (cols : list SourceCollection) (totalDocs : nat) : M nat :=
  match cols with
  | [] => ret totalDocs
  | collection :: rest =>
      await (OpCountDocuments (col_name collection));;
      let count := length (documents_of (col_name collection)) in
      count_documents rest (totalDocs + count)
  end.

(** Lines 498-503: one batch. *)
Definition insert_batch (collectionName : string) (documents : list Document) (j : nat) : M unit :=
  let batch := slice j (j + batchSize) documents in
  await (OpInsertMany collectionName batch);;
  update (λ job, set_processedDocuments (processedDocuments job + length batch) job);;
  job <- get_job;;
  emit (Divided (processedDocuments job) (totalDocuments job));;
  update (set_progress (Math_round_pct (processedDocuments job) (totalDocuments job))).

(** Lines 510-520: one index. *)
Definition copy_index (collectionName : string) (index : Index) : M unit :=
  if bool_decide (ix_name index ≠ "_id_") then
    try_catch
      (let indexSpec := ("key", JObj (ix_key index)) :: ix_options index in
       await (OpCreateIndex collectionName (ix_key index) indexSpec))
      (λ message,
         update (λ job, set_errors (errors job ++
           ["Failed to create index " +:+ ix_name index +:+ " on "
            +:+ collectionName +:+ ": " +:+ message]) job))
  else ret tt.

(** Lines 477-523: one collection. *)
Definition clone_collection (collection : SourceCollection) : M unit :=
  let collectionName := col_name collection in
  update (set_currentCollection (Some collectionName));;
  update (set_details ("Cloning collection: " +:+ collectionName));;
  try_catch (await (OpDrop collectionName)) (λ _, ret tt);;
  await (OpFind collectionName);;
  let documents := documents_of collectionName in
  (if bool_decide (0 < length documents)
   then for_of (offsets_from 0 (length documents)) (insert_batch collectionName documents)
   else ret tt);;
  await (OpListIndexes collectionName);;
  let indexes := indexes_of collectionName in
  for_of indexes (copy_index collectionName);;
  update (λ job, set_processedCollections (S (processedCollections job)) job).

(** Lines 445-529: the [try] block. *)
Definition clone_body (sourceConnection targetConnection databaseName : string) : M unit :=
  update (set_status Connecting);;
  update (set_details "Connecting to source and target databases...");;
  connectToMongoDB Source sourceConnection;;
  connectToMongoDB Target targetConnection;;
  update (set_status Analyzing);;
  update (set_details "Analyzing source database structure...");;
  await OpListCollections;;
  let collections := source in
  update (set_totalCollections (length collections));;
  update (set_collections (map col_name collections));;
  totalDocs <- count_documents collections 0;;
  update (set_totalDocuments totalDocs);;
  update (set_status Cloning);;
  update (set_details ("Starting to clone " +:+ pretty (length collections)
                       +:+ " collections..."));;
  for_of collections clone_collection;;
  update (set_status Completed);;
  update (set_progress 100);;
  update (λ job, set_details ("Successfully cloned database '" +:+ databaseName
            +:+ "' with " +:+ pretty (totalCollections job) +:+ " collections and "
            +:+ pretty (totalDocuments job) +:+ " documents") job);;
  now <- Date_now;;
  update (set_endTime (Some now)).

(** Lines 531-535: the [catch] block. *)
Definition clone_failed (message : string) : M unit :=
  update (set_status Failed);;
  update (set_details ("Error: " +:+ message));;
  update (λ job, set_errors (errors job ++ [message]) job);;
  now <- Date_now;;
  update (set_endTime (Some now)).

(** Lines 536-539: the [finally] block. *)
Definition clone_finally : M unit :=
  (λ r, (if sourceClient r then close Source else ret tt) r);;
  (λ r, (if targetClient r then close Target else ret tt) r).

(** Lines 439-540. *)
Definition cloneDatabase (sourceConnection targetConnection databaseName : string) : M unit :=
  try_finally
    (try_catch (clone_body sourceConnection targetConnection databaseName)
               clone_failed)
    clone_finally.

(** The run the route [POST /api/clone-database] starts for a new job. *)
Definition run_clone (jobId : string) (now : Z)
    (sourceConnection targetConnection databaseName : string) : Run :=
  (cloneDatabase sourceConnection targetConnection databaseName
     (initial_run (new_job jobId now))).1.

End WithWorld.

(** The job as pollers can see it over a run: at each suspension and at the
    end. *)
Definition observations (r : Run) : list Job := history r ++ [job r].

(** The source holds [D] documents in total. *)
Definition source_documents (source : list SourceCollection) : nat :=
  sum_list (map (λ c, length (documents_of source (col_name c))) source).

(** A failure of any of these calls aborts the run; [drop] and
    [createIndex] failures are handled where they occur. *)
Definition fatal (op : Op) : bool :=
  match op with
  | OpDrop _ | OpCreateIndex _ _ _ | OpClose _ => false
  | _ => true
  end.

Definition no_fatal_failure (oracle : Oracle) : Prop :=
  ∀ n op, fatal op = true → oracle n op = None.

(** The order of the states of a job. *)
Definition status_rank (s : Status) : nat :=
  match s with
  | Starting => 0 | Connecting => 1 | Analyzing => 2 | Cloning => 3
  | Completed => 4 | Failed => 4
  end.

Definition terminal (s : Status) : bool :=
  match s with Completed | Failed => true | _ => false end.

(** [s] stays, or moves forward to [s']. *)
Definition status_leb (s s' : Status) : bool :=
  bool_decide (s = s') || (status_rank s <? status_rank s').

(** *** Sample worlds *)

Definition sample_index (name field : string) : Index :=
  {| ix_v := 2; ix_key := [(field, JNum 1)]; ix_name := name;
     ix_ns := None; ix_options := [] |}.

(** Two collections, 2503 documents, one secondary index. *)
Definition sample_source : list SourceCollection :=
  [ {| col_name := "users";
       col_docs := map (λ n, [("_id", JNum (Z.of_nat n))]) (seq 0 2500);
       col_indexes := [sample_index "_id_" "_id"; sample_index "email_1" "email"] |};
    {| col_name := "logs";
       col_docs := map (λ n, [("_id", JNum (Z.of_nat n))]) (seq 0 3);
       col_indexes := [sample_index "_id_" "_id"] |} ].

(** One collection without documents. *)
Definition empty_source : list SourceCollection :=
  [ {| col_name := "empty"; col_docs := []; col_indexes := [sample_index "_id_" "_id"] |} ].

Definition all_succeed : Oracle := λ _ _, None.

Definition index_creation_fails : Oracle :=
  λ _ op, match op with OpCreateIndex _ _ _ => Some "duplicate key" | _ => None end.


Definition sample_clock : nat → Z := λ n, (1700000000000 + Z.of_nat n)%Z.

Definition sample_run `{JSRuntime} (oracle : Oracle) (source : list SourceCollection) : Run :=
  run_clone oracle sample_clock source "1700000000000" 1700000000000
    "mongodb://source/" "mongodb://target/" "shop".

(** *** Assertions about runs *)

(** [wp m Q E r]: run from [r], the computation [m] ends in a state
    satisfying [Q] with its value, or throws in a state satisfying [E]. *)
Definition wp {A} (m : M A) (Q : A → Run → Prop) (E : string → Run → Prop) (r : Run) : Prop :=
  match m r with
  | (r', inr a) => Q a r'
  | (r', inl e) => E e r'
  end.

(** The progress of a job agrees with its counters, as far as the rounding
    of the runtime is exact on whole percentages. *)
Definition snap_ok `{JSRuntime} (j : Job) : Prop :=
  pct_exact →
  0 < totalDocuments j →
  progress j = Math_round_pct (processedDocuments j) (totalDocuments j).

Definition is_divided (ev : Event) : bool :=
  match ev with Divided _ _ => true | _ => false end.

Definition is_index_failure (ev : Event) : bool :=
  match ev with Called (OpCreateIndex _ _ _) (Some _) => true | _ => false end.

(** The number of [createIndex] calls that failed. *)
Definition index_failures (l : list Event) : nat :=
  length (filter (λ ev, is_index_failure ev = true) l).

(** Calls that neither open nor release a connection. *)
Definition keeps_connections (op : Op) : bool :=
  match op with OpConnect _ _ | OpClose _ => false | _ => true end.

Definition status_le (s s' : Status) : Prop := status_leb s s' = true.

(** The connections that the calls of a log leave open. *)
Definition replay_event (conns : list Side) (ev : Event) : list Side :=
  match ev with
  | Called op outcome => settle op outcome conns
  | Divided _ _ => conns
  end.

Definition replay (l : list Event) : list Side := foldl replay_event [] l.


(** What holds of the observable past of a run at every point. *)
Record Hist `{JSRuntime} (r : Run) : Prop := {
  hist_conns : open_connections r = replay (log r);
  hist_sorted : StronglySorted status_le (map status (history r));
  hist_below : Forall (λ j, status_le (status j) (status (job r))) (history r);
  hist_snaps : Forall snap_ok (history r);
  hist_divided :
    totalDocuments (job r) = 0 → Forall (λ ev, is_divided ev = false) (log r);
}.

(** The connections that are open are those of the clients the engine
    holds. *)
Definition conn_ok (r : Run) : Prop :=
  open_connections r
  = (if sourceClient r then [Source] else []) ++ (if targetClient r then [Target] else []).

(** The documents of some of the listed collections. *)
Definition documents_in (source cols : list SourceCollection) : nat :=
  sum_list (map (λ c, length (documents_of source (col_name c))) cols).

(** The documents inserted by the batches at the given offsets. *)
Definition batch_total (documents : list Document) (offsets : list nat) : nat :=
  sum_list (map (λ j, length (slice j (j + batchSize) documents)) offsets).

(** Assignments that leave the status, the counters, the progress and the
    errors of a job alone. *)
Definition cosmetic (f : Job → Job) : Prop :=
  ∀ j, status (f j) = status j ∧ progress (f j) = progress j
       ∧ totalDocuments (f j) = totalDocuments j
       ∧ processedDocuments (f j) = processedDocuments j
       ∧ processedCollections (f j) = processedCollections j
       ∧ errors (f j) = errors j.

(** Calls after which the engine's books are as before: no connection
    changes hands and no index failure is pending. *)
Definition quiet (op : Op) (outcome : option string) : bool :=
  keeps_connections op && negb (is_index_failure (Called op outcome)).

(** What holds whenever the engine is about to suspend: the past is in
    order, the connections are accounted for, the progress agrees with the
    counters, and there is one message per failed index. *)
Record Stable `{JSRuntime} (r : Run) : Prop := {
  st_hist : Hist r;
  st_conn : conn_ok r;
  st_snap : snap_ok (job r);
  st_errs : length (errors (job r)) = index_failures (log r);
}.

(** The job while collections are copied, [done] being copied in full and
    [extra] documents of the next one. *)
Record CloningAt `{JSRuntime} (source done : list SourceCollection) (extra : nat)
    (r : Run) : Prop := {
  cl_stable : Stable r;
  cl_status : status (job r) = Cloning;
  cl_total : totalDocuments (job r) = source_documents source;
  cl_collections : processedCollections (job r) = length done;
  cl_documents : processedDocuments (job r) = documents_in source done + extra;
}.

(** The job before any collection is copied. *)
Record Preparing `{JSRuntime} (st : Status) (r : Run) : Prop := {
  pr_stable : Stable r;
  pr_status : status (job r) = st;
  pr_rank : status_rank st < 4;
  pr_total : totalDocuments (job r) = 0;
  pr_documents : processedDocuments (job r) = 0;
  pr_collections : processedCollections (job r) = 0;
  pr_progress : progress (job r) = 0%Z;
}.

(** The [try] block ended normally. *)
Record Finished `{JSRuntime} (source : list SourceCollection) (r : Run) : Prop := {
  fin_stable : Stable r;
  fin_status : status (job r) = Completed;
  fin_total : totalDocuments (job r) = source_documents source;
  fin_collections : processedCollections (job r) = length source;
  fin_documents : processedDocuments (job r) = source_documents source;
  fin_progress : progress (job r) = 100%Z;
}.

(** The [try] block threw. *)
Record Aborted `{JSRuntime} (oracle : Oracle) (r : Run) : Prop := {
  ab_stable : Stable r;
  ab_status : status_rank (status (job r)) < 4;
  ab_cause : ¬ no_fatal_failure oracle;
}.

(** The [catch] block ran. *)
Record Caught `{JSRuntime} (oracle : Oracle) (r : Run) : Prop := {
  ct_hist : Hist r;
  ct_conn : conn_ok r;
  ct_snap : snap_ok (job r);
  ct_status : status (job r) = Failed;
  ct_errs : length (errors (job r)) = S (index_failures (log r));
  ct_cause : ¬ no_fatal_failure oracle;
}.

(** How a run ends. *)
Record Ended `{JSRuntime} (oracle : Oracle) (source : list SourceCollection)
    (r : Run) : Prop := {
  end_hist : Hist r;
  end_snap : snap_ok (job r);
  end_conns : open_connections r = [];
  end_outcome :
    (status (job r) = Completed
     ∧ processedCollections (job r) = length source
     ∧ processedDocuments (job r) = source_documents source
     ∧ totalDocuments (job r) = source_documents source
     ∧ progress (job r) = 100%Z
     ∧ length (errors (job r)) = index_failures (log r))
    ∨ (status (job r) = Failed
       ∧ length (errors (job r)) = S (index_failures (log r))
       ∧ ¬ no_fatal_failure oracle);
}.

(** *** What a run writes *)

(** Lines 497-498: the batches of a collection, in the order of the loop. *)
Definition batches (documents : list Document) : list (list Document) :=
  map (λ j, slice j (j + batchSize) documents) (offsets_from 0 (length documents)).

Definition source_unreachable : Oracle :=
  λ _ op, match op with OpConnect Source _ => Some "ECONNREFUSED" | _ => None end.

Definition target_unreachable : Oracle :=
  λ _ op, match op with OpConnect Target _ => Some "ECONNREFUSED" | _ => None end.

(** *** Invariants kept by every step *)

(** [j'] is a later state of the job [j]: the identifier and the start time
    are the same, the counters have not decreased, and errors have only
    been appended. *)
Definition grows (j j' : Job) : Prop :=
  job_id j' = job_id j
  ∧ startTime j' = startTime j
  ∧ processedDocuments j ≤ processedDocuments j'
  ∧ processedCollections j ≤ processedCollections j'
  ∧ errors j `prefix_of` errors j'.

(** The job as it was created, followed by the observations so far, are in
    that order, up to the job as it stands. *)
Record Steady (created : Job) (r : Run) : Prop := {
  steady_sorted : StronglySorted grows (created :: history r);
  steady_below : Forall (λ j, grows j (job r)) (created :: history r);
}.

(** The computation keeps the invariant, whether it ends normally or
    throws. *)
Definition preserves {A} (I : Run → Prop) (m : M A) : Prop :=
  ∀ r, I r → I (m r).1.


(** *** The writes of a run *)

(** The calls that change the target database. *)
Definition is_write (op : Op) : bool :=
  match op with
  | OpDrop _ | OpInsertMany _ _ | OpCreateIndex _ _ _ => true
  | _ => false
  end.

Definition write_of (ev : Event) : option Op :=
  match ev with
  | Called op _ => if is_write op then Some op else None
  | Divided _ _ => None
  end.

(** The writes a run has attempted, in order. *)
Definition writes (l : list Event) : list Op := omap write_of l.

(** An [insertMany] that was rejected. *)
Definition is_failed_insert (ev : Event) : bool :=
  match ev with Called (OpInsertMany _ _) (Some _) => true | _ => false end.

Definition no_failed_insert (l : list Event) : Prop :=
  Forall (λ ev, is_failed_insert ev = false) l.

Definition batch_into (name : string) (op : Op) : option (list Document) :=
  match op with
  | OpInsertMany n batch => if decide (n = name) then Some batch else None
  | _ => None
  end.

Definition accepted_batch (name : string) (ev : Event) : option (list Document) :=
  match ev with
  | Called op None => batch_into name op
  | _ => None
  end.

(** The documents the target has accepted into the collection [name], in
    the order of their arrival. *)
Definition inserted_into (name : string) (l : list Event) : list Document :=
  concat (omap (accepted_batch name) l).

(** Lines 510-520: the indexes the engine creates for a collection. *)
Definition index_plan (name : string) (indexes : list Index) : list Op :=
  map (λ ix, OpCreateIndex name (ix_key ix) (("key", JObj (ix_key ix)) :: ix_options ix))
      (filter (λ ix, ix_name ix ≠ "_id_") indexes).

(** Lines 483-520: the writes for one collection. *)
Definition collection_plan (source : list SourceCollection) (c : SourceCollection)
  : list Op :=
  OpDrop (col_name c)
  :: map (OpInsertMany (col_name c)) (batches (documents_of source (col_name c)))
  ++ index_plan (col_name c) (indexes_of source (col_name c)).

Definition clone_plan (source : list SourceCollection) : list Op :=
  concat (map (collection_plan source) source).

(** [m] attempts the writes [ops] when it returns, none of its
    [insertMany] being rejected, and some of them, in order, when it
    throws. *)
Definition writes_exactly {A} (m : M A) (ops : list Op) : Prop :=
  ∀ r, wp m
    (λ _ r', writes (log r') = writes (log r) ++ ops
             ∧ (no_failed_insert (log r) → no_failed_insert (log r')))
    (λ _ r', ∃ ops', ops' `prefix_of` ops
                     ∧ writes (log r') = writes (log r) ++ ops') r.

(** *** The end of a run *)

(** No end time has been recorded, now or at any suspension so far. *)
Definition Unfinished (r : Run) : Prop :=
  endTime (job r) = None ∧ Forall (λ j, endTime j = None) (history r).

(** The end time has just been recorded: no suspension so far has shown
    one. *)
Definition Closing (r : Run) : Prop :=
  is_Some (endTime (job r)) ∧ Forall (λ j, endTime j = None) (history r).

End Engine.

(* ===================================================================== *)
(** ** Job tracker: the routes over [cloningJobs]                         *)
(* ===================================================================== *)

Module Tracker.

(** The job objects allocated so far, and the map [cloningJobs] from a job
    identifier to a reference to its object.  The engine started for a job
    keeps the reference it was given, whatever the map holds later. *)
Record Registry := {
  objects : list Job;
  cloningJobs : gmap string nat;
}.

Definition empty_registry : Registry := {| objects := []; cloningJobs := ∅ |}.

Inductive Reply : Type :=
| Rejected (code : nat) (error : string)
| Started (jobId : string) (reference : nat)
| JobStatus (j : Job)
| JobList (js : list Job)
| JobDeleted.

(** [cloningJobs.get(jobId)]. *)
Definition get (jobId : string) (t : Registry) : option Job :=
  cloningJobs t !! jobId ≫= λ ref, objects t !! ref.

(** Lines 102-137; [now] is [Date.now()] and [started] is [new Date()].
    The reply carries the reference handed to [cloneDatabase]. *)
Definition post_clone_database (now started : Z)
    (sourceConnection targetConnection databaseName : JSValue)
    (t : Registry) : Reply * Registry :=
  if negb (truthy sourceConnection) || negb (truthy targetConnection)
     || negb (truthy databaseName)
  then (Rejected 400 "Source connection, target connection, and database name are required", t)
  else
    let jobId := pretty now in
    let ref := length (objects t) in
    (Started jobId ref,
     {| objects := objects t ++ [new_job jobId started];
        cloningJobs := <[jobId := ref]> (cloningJobs t) |}).

(** Lines 140-149. *)
Definition get_clone_status (jobId : string) (t : Registry) : Reply :=
  match get jobId t with
  | Some j => JobStatus j
  | None => Rejected 404 "Job not found"
  end.

(** Lines 152-155. *)
Definition get_jobs (t : Registry) : Reply :=
  JobList (omap (λ kv, objects t !! kv.2) (map_to_list (cloningJobs t))).

(** Lines 158-167. *)
Definition delete_job (jobId : string) (t : Registry) : Reply * Registry :=
  match cloningJobs t !! jobId with
  | Some _ =>
      (JobDeleted, {| objects := objects t; cloningJobs := delete jobId (cloningJobs t) |})
  | None => (Rejected 404 "Job not found", t)
  end.

(** Every reference in the map points to an allocated object; this holds of
    the empty registry and is kept by the routes. *)
Definition well_formed (t : Registry) : Prop :=
  ∀ jobId ref, cloningJobs t !! jobId = Some ref → ref < length (objects t).

(** The jobs the tracker holds, each with the identifier it is filed under. *)
Definition held (t : Registry) : list (string * Job) :=
  omap (λ kv, (λ j, (kv.1, j)) <$> objects t !! kv.2) (map_to_list (cloningJobs t)).

(** A registry holding one job, created at the reading 1700000000000. *)
Definition one_job_registry : Registry :=
  (post_clone_database 1700000000000 1700000000000 (JStr "mongodb://a/")
     (JStr "mongodb://b/") (JStr "shop") empty_registry).2.

End Tracker.

(* ===================================================================== *)
(** ** Document routes                                                    *)
(* ===================================================================== *)

Module Crud.

(** The part of the MongoDB driver whose answers the routes pass on.  A sum
    is [inl message] when the call throws or rejects. *)
Class Driver := {
  (** [connectToMongoDB(connectionString)]: the failure message, if any. *)
  connect_error : JSValue → option string;
  (** [client.db(databaseName).collection(collectionName)]. *)
  namespace : JSValue → JSValue → string + (string * string);
  (** [new ObjectId(documentId)]: the identifier in hexadecimal. *)
  ObjectId_new : JSValue → string + string;
  (** [collection.find(filter).skip(skip).limit(limit).toArray()]. *)
  find_page : list Document → JSValue → JSValue → JSValue → string + list Document;
  (** [collection.countDocuments(filter)]. *)
  countDocuments : list Document → JSValue → string + nat;
  (** [collection.insertOne(document)]: the inserted identifier and the
      collection afterwards. *)
  insertOne : list Document → JSValue → string + (JSValue * list Document);
  (** [(page - 1) * limit] and [Math.ceil(totalCount / limit)]. *)
  js_skip : JSValue → JSValue → JSValue;
  js_total_pages : nat → JSValue → JSValue;
}.

(** The server behind a connection string: documents by database and
    collection name. *)
Abbreviation Store := (gmap (string * string) (list Document)).

Definition collection_of (ns : string * string) (store : Store) : list Document :=
  default [] (store !! ns).

Inductive Body : Type :=
| Error (message : string)                 (* [{ error }] *)
| Failure (message : string)               (* [{ success: false, error }] *)
| Listing (documents : list Document)
          (currentPage totalPages : JSValue) (totalDocuments : nat)
          (documentsPerPage : JSValue)
          (schema : gmap string Schema.FieldInfo)
| Created (insertedId : JSValue)
| Updated (modifiedCount : nat)
| Deleted (deletedCount : nat)
| Found (document : Document).

(** What a request leaves behind: the response, the server, and whether a
    client that was opened has been closed again. *)
Record Outcome := {
  code : nat;
  body : Body;
  store_after : Store;
  client_closed : bool;
}.

Definition respond (c : nat) (b : Body) (st : Store) (closed : bool) : Outcome :=
  {| code := c; body := b; store_after := st; client_closed := closed |}.

(** *** The server's side of [_id] queries and of [$set] *)

Definition has_id (oid : string) (doc : Document) : bool :=
  match get_field "_id" doc with
  | Some (JObjectId h) => String.eqb h oid
  | _ => false
  end.

(** [collection.findOne({ _id })]. *)
Definition findOne (oid : string) (c : list Document) : option Document :=
  snd <$> list_find (λ d, has_id oid d = true) c.

(** [collection.deleteOne({ _id })]: the deleted count and the rest. *)
Fixpoint deleteOne (oid : string) (c : list Document) : nat * list Document :=
  match c with
  | [] => (0, [])
  | d :: rest =>
      if has_id oid d then (1, rest)
      else let '(n, rest') := deleteOne oid rest in (n, d :: rest')
  end.

(** A field path [a.b.c] as its segments. *)
Fixpoint split_path (s : string) : list string :=
  match s with
  | EmptyString => [EmptyString]
  | String c rest =>
      if Ascii.eqb c "."%char then EmptyString :: split_path rest
      else match split_path rest with
           | seg :: segs => String c seg :: segs
           | [] => [String c EmptyString]
           end
  end.

Definition digit_of (c : Ascii.ascii) : option nat :=
  let n := Ascii.nat_of_ascii c in
  if (48 <=? n) && (n <=? 57) then Some (n - 48) else None.

(** An array index written in decimal. *)
Fixpoint parse_index_from (acc : nat) (s : string) : option nat :=
  match s with
  | EmptyString => Some acc
  | String c rest =>
      match digit_of c with
      | Some d => parse_index_from (10 * acc + d) rest
      | None => None
      end
  end.

Definition parse_index (s : string) : option nat :=
  match s with
  | EmptyString => None
  | _ => parse_index_from 0 s
  end.

(** [xs[i] = v] on an array, padding with [null]. *)
Definition array_set (i : nat) (v : JSValue) (xs : list JSValue) : list JSValue :=
  if i <? length xs then <[i := v]> xs
  else xs ++ replicate (i - length xs) JNull ++ [v].

(** Writing [v] at a path below [target] ([None]: the field is absent, and
    embedded documents are created on the way).  The result is [None] when
    the path runs through a value that has no fields. *)
Fixpoint set_path (path : list string) (v : JSValue) (target : option JSValue)
  : option JSValue :=
  match path with
  | [] => Some v
  | k :: rest =>
      match target with
      | None =>
          match set_path rest v None with
          | Some child => Some (JObj [(k, child)])
          | None => None
          end
      | Some (JObj fields) =>
          match set_path rest v (get_field k fields) with
          | Some child => Some (JObj (set_field k child fields))
          | None => None
          end
      | Some (JArr xs) =>
          match parse_index k with
          | Some i =>
              match set_path rest v (xs !! i) with
              | Some child => Some (JArr (array_set i child xs))
              | None => None
              end
          | None => None
          end
      | Some _ => None
      end
  end.

Definition valid_segment (seg : string) : bool :=
  match seg with
  | EmptyString => false
  | String c _ => negb (Ascii.eqb c "$"%char)
  end.

Definition valid_path (path : list string) : bool := forallb valid_segment path.

Definition conflict (p q : list string) : bool :=
  bool_decide (p `prefix_of` q) || bool_decide (q `prefix_of` p).

Fixpoint no_conflicts (paths : list (list string)) : bool :=
  match paths with
  | [] => true
  | p :: rest => forallb (λ q, negb (conflict p q)) rest && no_conflicts rest
  end.

(** [{ $set: updates }] applied to one document, one path after the other. *)
Fixpoint apply_set (updates : Document) (doc : Document) : option Document :=
  match updates with
  | [] => Some doc
  | (key, v) :: rest =>
      match split_path key with
      | [] => None
      | k :: path =>
          match set_path path v (get_field k doc) with
          | Some child => apply_set rest (set_field k child doc)
          | None => None
          end
      end
  end.

Definition same_id (d d' : Document) : bool :=
  match get_field "_id" d, get_field "_id" d' with
  | Some a, Some b => JSValue_eqb a b
  | None, None => true
  | _, _ => false
  end.

Fixpoint Document_eqb (d d' : Document) : bool :=
  match d, d' with
  | [], [] => true
  | (k, x) :: r, (k', y) :: r' => String.eqb k k' && JSValue_eqb x y && Document_eqb r r'
  | _, _ => false
  end.

(** The update of the first document with the given [_id]: matched and
    modified counts and the collection afterwards. *)
Fixpoint update_first (oid : string) (updates : Document) (c : list Document)
  : string + (nat * nat * list Document) :=
  match c with
  | [] => inr (0, 0, [])
  | d :: rest =>
      if has_id oid d then
        match apply_set updates d with
        | None => inl "Cannot create field in element"
        | Some d' =>
            if same_id d d'
            then inr (1, if Document_eqb d d' then 0 else 1, d' :: rest)
            else inl "Performing an update on the path '_id' would modify the immutable field '_id'"
        end
      else
        match update_first oid updates rest with
        | inl e => inl e
        | inr (m, n, rest') => inr (m, n, d :: rest')
        end
  end.

(** [collection.updateOne({ _id }, { $set: updates })]. *)
Definition updateOne (oid : string) (updates : JSValue) (c : list Document)
  : string + (nat * nat * list Document) :=
  match updates with
  | JObj fields =>
      let paths := map (λ kv, split_path kv.1) fields in
      if negb (forallb valid_path paths) then inl "The update path is not valid"
      else if negb (no_conflicts paths) then inl "Updating the path would create a conflict"
      else update_first oid fields c
  | _ => inl "Modifiers operate on fields but we found another type instead"
  end.

(** [collection.find({}).limit(n).toArray()]; a limit of 0 is no limit. *)
Definition sample (n : nat) (c : list Document) : list Document :=
  if n =? 0 then c else take n c.

(** *** The routes *)

Section Routes.
Context `{JSRuntime} `{Driver}.

(** A payload that may arrive as text (lines 294-302, 334-342): the parsed
    value, or [None] when [JSON.parse] throws. *)
Definition parse_payload (payload : JSValue) : option JSValue :=
  match payload with
  | JStr text => JSON_parse text
  | _ => Some payload
  end.

(** Lines 242-249. *)
Definition parse_filter (filter : JSValue) : JSValue :=
  match filter with
  | JStr text =>
      if negb (String.eqb (String_trim text) "") then
        match JSON_parse text with
        | Some parsed => parsed
        | None => JObj []
        end
      else filter
  | _ => filter
  end.

(** A destructuring default. *)
Definition or_default (d v : JSValue) : JSValue :=
  match v with JUndefined => d | _ => v end.

(** Lines 227-278, [POST /api/collection/documents]. *)
Definition list_documents
    (connectionString databaseName collectionName page limit filter : JSValue)
    (store : Store) : Outcome :=
  let page := or_default (JNum 1) page in
  let limit := or_default (JNum 20) limit in
  let filter := or_default (JObj []) filter in
  if negb (truthy connectionString) || negb (truthy databaseName)
     || negb (truthy collectionName)
  then respond 400 (Error "Connection string, database name, and collection name are required") store true
  else
    match connect_error connectionString with
    | Some e => respond 400 (Failure ("Connection failed: " +:+ e)) store true
    | None =>
    match namespace databaseName collectionName with
    | inl e => respond 400 (Failure e) store false
    | inr ns =>
    let collection := collection_of ns store in
    let skip := js_skip page limit in
    let parsedFilter := parse_filter filter in
    match find_page collection parsedFilter skip limit with
    | inl e => respond 400 (Failure e) store false
    | inr documents =>
    match countDocuments collection parsedFilter with
    | inl e => respond 400 (Failure e) store false
    | inr totalCount =>
    let sampleSize := totalCount `min` 100 in
    let sampleDocs := sample sampleSize collection in
    match Schema.generateSchema sampleDocs with
    | None => respond 400 (Failure "TypeError") store false
    | Some schema =>
        respond 200
          (Listing documents page (js_total_pages totalCount limit) totalCount limit schema)
          store true
    end end end end end.

(** Lines 281-318, [POST /api/document/create]. *)
Definition create_document
    (connectionString databaseName collectionName document : JSValue)
    (store : Store) : Outcome :=
  if negb (truthy connectionString) || negb (truthy databaseName)
     || negb (truthy collectionName) || negb (truthy document)
  then respond 400 (Error "All fields are required") store true
  else
    match connect_error connectionString with
    | Some e => respond 400 (Failure ("Connection failed: " +:+ e)) store true
    | None =>
    match namespace databaseName collectionName with
    | inl e => respond 400 (Failure e) store false
    | inr ns =>
    match parse_payload document with
    | None => respond 400 (Error "Invalid JSON document") store true
    | Some parsedDocument =>
    match insertOne (collection_of ns store) parsedDocument with
    | inl e => respond 400 (Failure e) store false
    | inr (insertedId, collection') =>
        respond 200 (Created insertedId) (<[ns := collection']> store) true
    end end end end.

(** Lines 321-367, [PUT /api/document/update]. *)
Definition update_document
    (connectionString databaseName collectionName documentId updates : JSValue)
    (store : Store) : Outcome :=
  if negb (truthy connectionString) || negb (truthy databaseName)
     || negb (truthy collectionName) || negb (truthy documentId)
     || negb (truthy updates)
  then respond 400 (Error "All fields are required") store true
  else
    match connect_error connectionString with
    | Some e => respond 400 (Failure ("Connection failed: " +:+ e)) store true
    | None =>
    match namespace databaseName collectionName with
    | inl e => respond 400 (Failure e) store false
    | inr ns =>
    match parse_payload updates with
    | None => respond 400 (Error "Invalid JSON updates") store true
    | Some parsedUpdates =>
    match ObjectId_new documentId with
    | inl e => respond 400 (Failure e) store false
    | inr oid =>
    match updateOne oid parsedUpdates (collection_of ns store) with
    | inl e => respond 400 (Failure e) store false
    | inr (matchedCount, modifiedCount, collection') =>
        if matchedCount =? 0
        then respond 404 (Error "Document not found") store true
        else respond 200 (Updated modifiedCount) (<[ns := collection']> store) true
    end end end end end.

(** Lines 370-402, [DELETE /api/document/delete]. *)
Definition delete_document
    (connectionString databaseName collectionName documentId : JSValue)
    (store : Store) : Outcome :=
  if negb (truthy connectionString) || negb (truthy databaseName)
     || negb (truthy collectionName) || negb (truthy documentId)
  then respond 400 (Error "All fields are required") store true
  else
    match connect_error connectionString with
    | Some e => respond 400 (Failure ("Connection failed: " +:+ e)) store true
    | None =>
    match namespace databaseName collectionName with
    | inl e => respond 400 (Failure e) store false
    | inr ns =>
    match ObjectId_new documentId with
    | inl e => respond 400 (Failure e) store false
    | inr oid =>
        let '(deletedCount, collection') := deleteOne oid (collection_of ns store) in
        if deletedCount =? 0
        then respond 404 (Error "Document not found") store true
        else respond 200 (Deleted deletedCount) (<[ns := collection']> store) true
    end end end.

(** Lines 405-436, [POST /api/document/get]. *)
Definition get_document
    (connectionString databaseName collectionName documentId : JSValue)
    (store : Store) : Outcome :=
  if negb (truthy connectionString) || negb (truthy databaseName)
     || negb (truthy collectionName) || negb (truthy documentId)
  then respond 400 (Error "All fields are required") store true
  else
    match connect_error connectionString with
    | Some e => respond 400 (Failure ("Connection failed: " +:+ e)) store true
    | None =>
    match namespace databaseName collectionName with
    | inl e => respond 400 (Failure e) store false
    | inr ns =>
    match ObjectId_new documentId with
    | inl e => respond 400 (Failure e) store false
    | inr oid =>
        match findOne oid (collection_of ns store) with
        | None => respond 404 (Error "Document not found") store true
        | Some document => respond 200 (Found document) store true
        end
    end end end.

End Routes.

(** The top-level field a [$set] key writes to. *)
Definition path_head (key : string) : string :=
  match split_path key with
  | k :: _ => k
  | [] => key
  end.


(** At most one document of a collection has the identifier. *)
Definition unique_id (oid : string) (c : list Document) : Prop :=
  ∀ i j d1 d2, c !! i = Some d1 → c !! j = Some d2 →
               has_id oid d1 = true → has_id oid d2 = true → i = j.

(** *** A reference driver and a sample server *)

Definition sample_store : Store :=
  {[ ("shop", "users") :=
       [ [("_id", JObjectId "0123456789abcdef01234567"); ("name", JStr "Ada");
          ("age", JNum 36)];
         [("_id", JObjectId "0123456789abcdef01234568"); ("name", JStr "Bob")] ] ]}.


Definition is_hex_digit (c : Ascii.ascii) : bool :=
  let n := Ascii.nat_of_ascii c in
  ((48 <=? n) && (n <=? 57)) || ((65 <=? n) && (n <=? 70)) || ((97 <=? n) && (n <=? 102)).

Definition lower (c : Ascii.ascii) : Ascii.ascii :=
  let n := Ascii.nat_of_ascii c in
  if (65 <=? n) && (n <=? 90) then Ascii.ascii_of_nat (n + 32) else c.

Fixpoint string_forallb (p : Ascii.ascii → bool) (s : string) : bool :=
  match s with
  | EmptyString => true
  | String c rest => p c && string_forallb p rest
  end.

Fixpoint string_map (f : Ascii.ascii → Ascii.ascii) (s : string) : string :=
  match s with
  | EmptyString => EmptyString
  | String c rest => String (f c) (string_map f rest)
  end.

(** A string of 24 hexadecimal digits. *)
Definition is_hex24 (s : string) : bool :=
  (String.length s =? 24) && string_forallb is_hex_digit s.

Definition matches (filter : Document) (doc : Document) : bool :=
  forallb (λ kv, match get_field kv.1 doc with
                 | Some v => JSValue_eqb v kv.2
                 | None => false
                 end) filter.

(** A driver to run the routes with: every connection string that is a
    string connects, identifiers are the strings of 24 hexadecimal digits,
    and a filter is an object of field values to match. *)
Definition reference_driver : Driver :=
  {| connect_error cs :=
       match cs with JStr _ => None | _ => Some "Invalid connection string" end;
     namespace db coll :=
       match db, coll with
       | JStr d, JStr c => inr (d, c)
       | _, _ => inl "Database and collection names must be strings"
       end;
     ObjectId_new v :=
       match v with
       | JStr s =>
           if is_hex24 s then inr (string_map lower s)
           else inl "input must be a 24 character hex string, 12 byte Uint8Array, or an integer"
       | _ => inl "input must be a 24 character hex string, 12 byte Uint8Array, or an integer"
       end;
     find_page c query skip limit :=
       match query, skip, limit with
       | JObj f, JNum s, JNum l =>
           if (s <? 0)%Z then inl "Skip value must be non-negative"
           else inr (sample (Z.to_nat (Z.abs l)) (drop (Z.to_nat s) (filter (λ d, matches f d = true) c)))
       | _, _, _ => inl "The filter, skip and limit have the wrong type"
       end;
     countDocuments c query :=
       match query with
       | JObj f => inr (length (filter (λ d, matches f d = true) c))
       | _ => inl "The filter must be an object"
       end;
     insertOne c doc :=
       match doc with
       | JObj d =>
           match get_field "_id" d with
           | Some i => inr (i, c ++ [d])
           | None =>
               let i := JNum (Z.of_nat (length c)) in
               inr (i, c ++ [("_id", i) :: d])
           end
       | _ => inl "The document must be an object"
       end;
     js_skip page limit :=
       match page, limit with
       | JNum p, JNum l => JNum ((p - 1) * l)
       | _, _ => JNull
       end;
     js_total_pages totalCount limit :=
       match limit with
       | JNum l => if (0 <? l)%Z then JNum ((Z.of_nat totalCount + l - 1) / l) else JNull
       | _ => JNull
       end |}.

End Crud.

(* ===================================================================== *)
(** ** Listing routes                                                     *)
(* ===================================================================== *)

Module Browse.

(** An entry of [db.listCollections().toArray()]. *)
Record Listed := {
  listed_name : string;
  listed_type : JSValue;                 (* [undefined] when the server gives none *)
}.

(** What the server answers during one request.  A sum is [inl message]
    when the call throws or rejects. *)
Record World := {
  (** the n-th [connectToMongoDB] of the request: the failure message, if
      any *)
  connect_error : nat → option string;
  (** [client.db(databaseName)] *)
  db_error : JSValue → option string;
  (** [adminDb.listDatabases()]: the [databases] of the answer *)
  listDatabases : string + list Document;
  (** [db.listCollections().toArray()] *)
  listCollections : string + list Listed;
  (** [collection(name).countDocuments()] and [collection(name).findOne({})] *)
  countDocuments : string → string + nat;
  findOne : string → string + option Document;
}.

Record DatabaseEntry := {
  db_name : JSValue;
  sizeOnDisk : JSValue;
  empty : JSValue;
}.

Record CollectionStats := {
  cs_name : string;
  cs_type : JSValue;
  documentCount : nat;
  sampleSchema : list string;
  cs_error : option string;
}.

Inductive Body : Type :=
| Error (message : string)                 (* [{ error }] *)
| Failure (message : string)               (* [{ success: false, error }] *)
| Databases (databases : list DatabaseEntry)
| Collections (collections : list CollectionStats).

(** What a request leaves behind: the response, and the clients that were
    connected and not closed. *)
Record Outcome := {
  code : nat;
  body : Body;
  open_clients : nat;
}.

Definition respond (c : nat) (b : Body) (clients : nat) : Outcome :=
  {| code := c; body := b; open_clients := clients |}.

(** [a || b]. *)
Definition js_or (a b : JSValue) : JSValue := if truthy a then a else b.

(** [doc.field], [undefined] when there is none. *)
Definition property (field : string) (doc : Document) : JSValue :=
  default JUndefined (get_field field doc).

(** Lines 86-90: the entry of one database. *)
Definition database_entry (db : Document) : DatabaseEntry :=
  {| db_name := property "name" db;
     sizeOnDisk := js_or (property "sizeOnDisk" db) (JNum 0);
     empty := js_or (property "empty" db) (JBool false) |}.

(** Lines 72-99: [POST /api/test-connection]. *)
Definition post_test_connection (w : World) (connectionString : JSValue) : Outcome :=
  if negb (truthy connectionString) then
    respond 400 (Error "Connection string is required") 0
  else
    match connect_error w 0 with
    | Some message => respond 400 (Failure ("Connection failed: " +:+ message)) 0
    | None =>
        match listDatabases w with
        | inl message => respond 400 (Failure message) 1
        | inr databases =>
            (* [await client.close()] *)
            respond 200 (Databases (map database_entry databases)) 0
        end
    end.

(** Lines 191-209: the body of the loop, with its [try] and [catch]. *)
Definition stats_of (w : World) (collection : Listed) : CollectionStats :=
  let attempt :=
    match countDocuments w (listed_name collection) with
    | inl message => inl message
    | inr count =>
        match findOne w (listed_name collection) with
        | inl message => inl message
        | inr sampleDoc => inr (count, sampleDoc)
        end
    end in
  match attempt with
  | inr (count, sampleDoc) =>
      {| cs_name := listed_name collection;
         cs_type := js_or (listed_type collection) (JStr "collection");
         documentCount := count;
         sampleSchema := match sampleDoc with Some doc => map fst doc | None => [] end;
         cs_error := None |}
  | inl message =>
      {| cs_name := listed_name collection;
         cs_type := js_or (listed_type collection) (JStr "collection");
         documentCount := 0;
         sampleSchema := [];
         cs_error := Some message |}
  end.

(** Lines 186-210: [collectionStats] after the loop. *)
Definition collect_stats (w : World) (collections : list Listed) : list CollectionStats :=
  foldl (λ collectionStats collection, collectionStats ++ [stats_of w collection])
        [] collections.

(** Lines 172-224: [POST /api/database/collections]. *)
Definition post_database_collections (w : World)
    (connectionString databaseName : JSValue) : Outcome :=
  if negb (truthy connectionString) || negb (truthy databaseName) then
    respond 400 (Error "Connection string and database name are required") 0
  else
    match connect_error w 0 with
    | Some message => respond 400 (Failure ("Connection failed: " +:+ message)) 0
    | None =>
        match db_error w databaseName with
        | Some message => respond 400 (Failure message) 1
        | None =>
            match listCollections w with
            | inl message => respond 400 (Failure message) 1
            | inr collections =>
                (* [await client.close()] *)
                match connect_error w 1 with
                | Some message =>
                    respond 400 (Failure ("Connection failed: " +:+ message)) 0
                | None =>
                    let collectionStats := collect_stats w collections in
                    (* [await clientStats.close()] *)
                    respond 200 (Collections collectionStats) 0
                end
            end
        end
    end.

(** *** A sample server *)

(** Two collections; counting the second one fails. *)
Definition sample_world : World :=
  {| connect_error := λ _, None;
     db_error := λ _, None;
     listDatabases := inr [[("name", JStr "shop"); ("sizeOnDisk", JNum 8192);
                            ("empty", JBool false)];
                           [("name", JStr "scratch")]];
     listCollections := inr [ {| listed_name := "users"; listed_type := JStr "collection" |};
                              {| listed_name := "audit"; listed_type := JUndefined |} ];
     countDocuments := λ name, if String.eqb name "users" then inr 3
                               else inl "not authorized";
     findOne := λ name, inr (Some [("_id", JNum 1); ("email", JStr "a@b.c")]) |}.

(** The same server when listing its collections is refused. *)
Definition listing_refused : World :=
  {| connect_error := connect_error sample_world;
     db_error := db_error sample_world;
     listDatabases := inl "not authorized";
     listCollections := inl "not authorized";
     countDocuments := countDocuments sample_world;
     findOne := findOne sample_world |}.

End Browse.

(* ===================================================================== *)
(** * Properties                                                          *)
(* ===================================================================== *)

(** ** The reference runtime *)

Lemma round_half_up_pct_exact (table : list (string * JSValue)) :
  @pct_exact (reference_runtime table).
Proof.
  intros a b q Hb Hab Hq. cbn. unfold round_half_up_pct.
  assert (E : (200 * Z.of_nat a + Z.of_nat b = Z.of_nat b + Z.of_nat q * (2 * Z.of_nat b))%Z) by lia.
  rewrite E, Z.div_add by lia.
  rewrite Z.div_small by lia. lia.
Qed.

(** ** Schema inferencer *)

Section SchemaFacts.
Import Schema.
Context `{JSRuntime}.

Lemma visit_field_Some schema k v schema' :
  visit_field schema (k, v) = Some schema' →
  ∃ type, kind_of v = Some type
    ∧ (schema !! k = None → inherited k = false)
    ∧ schema' = <[k := bump type v (default fresh_entry (schema !! k))]> schema.
Proof.
  unfold visit_field. intros Hv.
  destruct (kind_of v) as [type|] eqn:Hk; [|done].
  exists type. split; [done|].
  destruct (schema !! k) as [e|] eqn:He.
  - rewrite bool_decide_true in Hv by eauto. cbn in Hv. rewrite He in Hv.
    split; [done|]. by injection Hv as <-.
  - rewrite bool_decide_false in Hv by (intros [? ?]; done). cbn in Hv.
    destruct (inherited k) eqn:Hi.
    + by rewrite He in Hv.
    + rewrite lookup_insert_eq in Hv. split; [done|].
      injection Hv as <-. by rewrite insert_insert_eq.
Qed.

Lemma visit_field_total schema k v :
  inherited k = false → is_Some (kind_of v) → is_Some (visit_field schema (k, v)).
Proof.
  intros Hi [type Hk]. unfold visit_field. rewrite Hk, Hi, orb_false_r.
  case_bool_decide as Hs.
  - destruct Hs as [e He]. rewrite He. eauto.
  - rewrite lookup_insert_eq. eauto.
Qed.

Lemma grow_take ex vs :
  length ex ≤ 3 → grow ex vs = ex ++ take (3 - length ex) vs.
Proof.
  revert ex. induction vs as [|v vs IH]; intros ex Hex; cbn [grow].
  - by rewrite take_nil, app_nil_r.
  - destruct (Nat.ltb_spec (length ex) 3) as [Hlt|Hge].
    + rewrite IH by (rewrite length_app; cbn; lia).
      rewrite length_app. cbn [length].
      replace (3 - length ex) with (S (3 - (length ex + 1))) by lia.
      cbn [take]. by rewrite <- app_assoc.
    + rewrite IH by done. replace (3 - length ex) with 0 by lia.
      by rewrite !take_0.
Qed.

Lemma occurrences_cons k v rest f :
  occurrences f ((k, v) :: rest)
  = (if String.eqb k f then [v] else []) ++ occurrences f rest.
Proof. unfold occurrences. cbn. by destruct (String.eqb k f). Qed.

Lemma forEach_visit_field pairs : ∀ schema schema',
  forEach visit_field schema pairs = Some schema' →
  ∀ f, examples_in schema' f = grow (examples_in schema f) (occurrences f pairs)
     ∧ required_in schema' f = required_in schema f + length (occurrences f pairs)
     ∧ (is_Some (schema' !! f) ↔ is_Some (schema !! f) ∨ occurrences f pairs ≠ []).
Proof.
  induction pairs as [|[k v] rest IH]; intros schema schema' Hrun f;
    cbn [forEach] in Hrun.
  - injection Hrun as <-. unfold occurrences. cbn. split_and!; [done|lia|naive_solver].
  - destruct (visit_field schema (k, v)) as [s1|] eqn:Hv; [|done].
    destruct (visit_field_Some _ _ _ _ Hv) as (type & _ & _ & ->).
    destruct (IH _ _ Hrun f) as (IHe & IHr & IHd).
    rewrite IHe, IHr, IHd, occurrences_cons. clear IH IHe IHr IHd Hrun Hv.
    unfold examples_in, required_in.
    destruct (String.eqb_spec k f) as [->|Hne].
    + rewrite lookup_insert_eq. cbn.
      destruct (schema !! f) as [e|]; cbn; split_and!; try done; try lia;
        naive_solver.
    + rewrite lookup_insert_ne by done. cbn. split_and!; [done|lia|done].
Qed.

Lemma forEach_visit_field_total pairs : ∀ schema,
  Forall (λ kv, inherited kv.1 = false ∧ is_Some (kind_of kv.2)) pairs →
  is_Some (forEach visit_field schema pairs).
Proof.
  induction pairs as [|[k v] rest IH]; intros schema Hall; cbn [forEach]; [eauto|].
  apply Forall_cons in Hall as [[Hi Hk] Hall].
  destruct (visit_field_total schema k v Hi Hk) as [s1 ->]. by apply IH.
Qed.

Lemma forEach_visit_document docs : ∀ schema,
  forEach visit_document schema docs = forEach visit_field schema (concat docs).
Proof.
  induction docs as [|d docs IH]; intros schema; cbn [forEach concat]; [done|].
  unfold visit_document at 1.
  revert schema. induction d as [|kv d IHd]; intros schema;
    cbn [forEach app]; [apply IH|].
  destruct (visit_field schema kv); [apply IHd|done].
Qed.

Lemma occurrences_concat f docs :
  occurrences f (concat docs) = field_values f docs.
Proof.
  unfold field_values. induction docs as [|d docs IH]; cbn; [done|].
  unfold occurrences at 1. rewrite omap_app. fold (occurrences f d).
  fold (occurrences f (concat docs)). by rewrite IH.
Qed.

Lemma generateSchema_lookup docs schema f info :
  generateSchema docs = Some schema → schema !! f = Some info →
  examples info = take 3 (field_values f docs)
  ∧ required info = length (field_values f docs)
  ∧ requiredPercentage info = Math_round_pct (required info) (length docs).
Proof.
  unfold generateSchema. destruct docs as [|d docs].
  { intros [= <-]. by rewrite lookup_empty. }
  destruct (forEach _ _ _) as [acc|] eqn:Hacc; [|done].
  intros [= <-]. rewrite lookup_fmap.
  destruct (acc !! f) as [e|] eqn:He; [|done].
  intros [= <-]. unfold finish. cbn [examples required requiredPercentage].
  rewrite forEach_visit_document in Hacc.
  destruct (forEach_visit_field _ _ _ Hacc f) as (Hex & Hreq & _).
  rewrite occurrences_concat in Hex, Hreq.
  unfold examples_in, required_in in Hex, Hreq.
  rewrite He, lookup_empty in Hex, Hreq. cbn [from_option] in Hex, Hreq.
  rewrite Hex, Hreq, grow_take by (cbn; lia). done.
Qed.

Lemma generateSchema_total docs :
  inferable docs → is_Some (generateSchema docs).
Proof.
  intros Hall. unfold generateSchema. destruct docs as [|d docs]; [eauto|].
  rewrite forEach_visit_document.
  destruct (forEach_visit_field_total (concat (d :: docs)) ∅) as [acc ->]; [|eauto].
  by apply Forall_concat.
Qed.

(** C6.  An empty sample yields the empty mapping.  The sample
    [{a:1}, {a:"x", b:true}] yields exactly the fields [a] and [b]: [a] with
    presence 100 and kinds number and string, [b] with presence 50 and kind
    boolean.  For every sample whose field names can be stored a schema is
    returned, and every field of a returned schema keeps the first three
    values of that field, in the order of the sample. *)
Theorem generateSchema_spec :
  pct_exact →
  generateSchema [] = Some ∅
  ∧ (∃ schema, generateSchema sample_ab = Some schema
       ∧ (∀ f, is_Some (schema !! f) ↔ f = "a" ∨ f = "b")
       ∧ schema !! "a" = Some {| types := ["number"; "string"]; required := 2;
                                 examples := [JNum 1; JStr "x"];
                                 requiredPercentage := 100 |}
       ∧ schema !! "b" = Some {| types := ["boolean"]; required := 1;
                                 examples := [JBool true];
                                 requiredPercentage := 50 |})
  ∧ (∀ docs, inferable docs → is_Some (generateSchema docs))
  ∧ (∀ docs schema f info,
       generateSchema docs = Some schema → schema !! f = Some info →
       examples info = take 3 (field_values f docs)).
Proof.
  intros Hpct. split_and!.
  - done.
  - assert (Ha : Math_round_pct 2 2 = 100%Z) by (apply (Hpct 2 2 100); lia).
    assert (Hb : Math_round_pct 1 2 = 50%Z) by (apply (Hpct 1 2 50); lia).
    set (acc := <["b" := {| acc_types := ["boolean"]; acc_required := 1;
                            acc_examples := [JBool true] |}]>
                (<["a" := {| acc_types := ["number"; "string"]; acc_required := 2;
                             acc_examples := [JNum 1; JStr "x"] |}]>
                 (∅ : gmap string FieldAcc))).
    assert (Hacc : forEach visit_document ∅ sample_ab = Some acc)
      by (vm_compute; reflexivity).
    exists (finish 2 <$> acc). split_and!.
    + unfold generateSchema, sample_ab in *. by rewrite Hacc.
    + intros f. rewrite lookup_fmap, fmap_is_Some. unfold acc.
      destruct (decide (f = "b")) as [->|Hfb].
      { rewrite lookup_insert_eq. naive_solver. }
      rewrite lookup_insert_ne by done.
      destruct (decide (f = "a")) as [->|Hfa].
      { rewrite lookup_insert_eq. naive_solver. }
      rewrite lookup_insert_ne, lookup_empty by done.
      split; [intros [? ?]; done|naive_solver].
    + rewrite lookup_fmap. unfold acc.
      rewrite lookup_insert_ne, lookup_insert_eq by done. cbn.
      unfold finish. cbn. by rewrite Ha.
    + rewrite lookup_fmap. unfold acc. rewrite lookup_insert_eq. cbn.
      unfold finish. cbn. by rewrite Hb.
  - apply generateSchema_total.
  - intros docs schema f info Hs Hf.
    by destruct (generateSchema_lookup _ _ _ _ Hs Hf) as (? & _).
Qed.

End SchemaFacts.

(** The properties of [generateSchema] on a sample with five values of one
    field, under the reference runtime. *)
Lemma generateSchema_spec_witness :
  let docs := replicate 5 [("n", JNum 7)] in
  ∃ schema info,
    @Schema.generateSchema (reference_runtime []) docs = Some schema
    ∧ schema !! "n" = Some info
    ∧ Schema.examples info = [JNum 7; JNum 7; JNum 7].
Proof.
  intros docs.
  destruct (@generateSchema_spec (reference_runtime [])
              (round_half_up_pct_exact [])) as (_ & _ & Htot & Hex).
  destruct (Htot docs) as [schema Hs].
  { unfold docs. repeat constructor; cbn; eauto. }
  assert (Hin : is_Some (schema !! "n")).
  { revert Hs. vm_compute. intros [= <-]. eauto. }
  destruct Hin as [info Hinfo].
  exists schema, info. split_and!; [done|done|].
  by rewrite (Hex docs schema "n" info Hs Hinfo).
Defined.

(** ** Clone engine *)

Section EngineRules.
Import Engine.
Local Open Scope engine_scope.

Lemma wp_ret {A} (a : A) Q E r : Q a r → wp (ret a) Q E r.
Proof. done. Qed.

Lemma wp_throw {A} e (Q : A → Run → Prop) E r : E e r → wp (throw e) Q E r.
Proof. done. Qed.

Lemma wp_bind {A B} (m : M A) (k : A → M B) Q E r :
  wp m (λ a r', wp (k a) Q E r') E r → wp (bind m k) Q E r.
Proof. unfold wp, bind. by destruct (m r) as [r' [e|a]]. Qed.

Lemma wp_try_catch {A} (body : M A) handler Q E r :
  wp body Q (λ e r', wp (handler e) Q E r') r → wp (try_catch body handler) Q E r.
Proof. unfold wp, try_catch. by destruct (body r) as [r' [e|a]]. Qed.

Lemma wp_mono {A} (m : M A) (Q Q' : A → Run → Prop) (E E' : string → Run → Prop) r :
  wp m Q E r → (∀ a r', Q a r' → Q' a r') → (∀ e r', E e r' → E' e r') →
  wp m Q' E' r.
Proof. unfold wp. destruct (m r) as [r' [e|a]]; eauto. Qed.

Lemma wp_update f Q E r : Q tt (with_job f r) → wp (update f) Q E r.
Proof. done. Qed.

Lemma wp_emit ev Q E r : Q tt (with_event ev r) → wp (emit ev) Q E r.
Proof. done. Qed.

Lemma wp_get_job Q E r : Q (job r) r → wp get_job Q E r.
Proof. done. Qed.

Lemma wp_Date_now clock Q E r :
  Q (clock (length (log r))) r → wp (Date_now clock) Q E r.
Proof. done. Qed.

Lemma wp_await oracle op Q E r :
  (∀ e, oracle (length (log r)) op = Some e → E e (performed op (Some e) r)) →
  (oracle (length (log r)) op = None → Q tt (performed op None r)) →
  wp (await oracle op) Q E r.
Proof.
  intros HE HQ. unfold wp, await.
  destruct (oracle (length (log r)) op) as [e|]; eauto.
Qed.

Lemma wp_close side Q E r :
  Q tt (performed (OpClose side) None r) → wp (close side) Q E r.
Proof. done. Qed.

(** A loop with an invariant over the elements already visited. *)
Lemma wp_for_of {A} (I : list A → Run → Prop) (xs : list A) body Q E r :
  I [] r →
  (∀ done x rest r', xs = done ++ x :: rest → I done r' →
     wp (body x) (λ _, I (done ++ [x])) E r') →
  (∀ r', I xs r' → Q tt r') →
  wp (for_of xs body) Q E r.
Proof.
  revert I r. induction xs as [|x xs IH]; intros I r HI Hbody HQ; cbn [for_of].
  - by apply wp_ret, HQ.
  - apply wp_bind. eapply wp_mono; [by apply (Hbody [] x xs)| |done].
    cbn beta. intros _ r' HI'.
    apply (IH (λ done, I (x :: done))); [done| |done].
    intros done y rest r'' -> HI''. by apply (Hbody (x :: done) y rest).
Qed.

End EngineRules.

Section EngineFacts.
Import Engine.
Local Open Scope engine_scope.
Context `{JSRuntime}.
Variable oracle : Oracle.
Variable clock : nat → Z.
Variable source : list SourceCollection.

Ltac wp_step :=
  lazymatch goal with
  | |- wp (bind _ _) _ _ _ => apply wp_bind
  | |- wp (update _) _ _ _ => apply wp_update
  | |- wp (ret _) _ _ _ => apply wp_ret
  | |- wp get_job _ _ _ => apply wp_get_job
  | |- wp (emit _) _ _ _ => apply wp_emit
  | |- wp (Date_now _) _ _ _ => apply wp_Date_now
  | |- wp (try_catch _ _) _ _ _ => apply wp_try_catch
  | |- wp (throw _) _ _ _ => apply wp_throw
  end; cbn beta.

Lemma status_le_refl s : status_le s s.
Proof. by destruct s. Qed.

Lemma status_le_trans s1 s2 s3 : status_le s1 s2 → status_le s2 s3 → status_le s1 s3.
Proof. by destruct s1, s2, s3. Qed.

Lemma status_le_terminal s s' : terminal s = true → status_le s s' → s' = s.
Proof. by destruct s, s'. Qed.

Lemma status_le_Starting s : status_le Starting s.
Proof. by destruct s. Qed.

(** *** The observable past *)

Lemma Hist_update f r :
  Hist r →
  status_le (status (job r)) (status (f (job r))) →
  (totalDocuments (f (job r)) = 0 → totalDocuments (job r) = 0) →
  Hist (with_job f r).
Proof.
  intros [Hc Hs Hb Hp Hd] Hle Htd. split; cbn; [done|done| |done|by auto].
  eapply Forall_impl; [exact Hb|]. intros j Hj. exact (status_le_trans _ _ _ Hj Hle).
Qed.

Lemma Hist_performed op outcome r :
  Hist r → snap_ok (job r) → Hist (performed op outcome r).
Proof.
  intros [Hc Hs Hb Hp Hd] Hsnap. split; cbn.
  - unfold replay. by rewrite foldl_snoc, Hc.
  - rewrite map_app. apply StronglySorted_app_2; [|done|repeat constructor].
    intros s1 s2 Hin1 ->%list_elem_of_singleton.
    apply list_elem_of_fmap in Hin1 as (j & -> & Hj).
    by eapply Forall_forall in Hb.
  - apply Forall_app. split; [done|]. repeat constructor. apply status_le_refl.
  - apply Forall_app. split; [done|]. by repeat constructor.
  - intros Htd. apply Forall_app. split; [by auto|]. by repeat constructor.
Qed.

Lemma Hist_divided a b r :
  Hist r → 0 < totalDocuments (job r) → Hist (with_event (Divided a b) r).
Proof.
  intros [Hc Hs Hb Hp Hd] Htd. split; cbn; [|done..|lia].
  unfold replay. by rewrite foldl_snoc, Hc.
Qed.

Lemma Hist_client side r : Hist r → Hist (with_client side r).
Proof. by intros [Hc Hs Hb Hp Hd]. Qed.

Lemma index_failures_app l ev :
  index_failures (l ++ [ev])
  = index_failures l + (if is_index_failure ev then 1 else 0).
Proof.
  unfold index_failures. rewrite filter_app, length_app. f_equal.
  rewrite filter_cons, filter_nil. by destruct (is_index_failure ev).
Qed.

(** *** What survives a step *)

Lemma Stable_performed op outcome r :
  quiet op outcome = true → Stable r → Stable (performed op outcome r).
Proof.
  intros [Hk Hi%negb_true_iff]%andb_true_iff [Hh Hc Hs He]. split.
  - by apply Hist_performed.
  - unfold conn_ok in *. cbn. rewrite <- Hc. by destruct op.
  - done.
  - change (length (errors (job r)) = index_failures (log r ++ [Called op outcome])).
    rewrite index_failures_app, Hi. lia.
Qed.

Lemma Stable_update f r :
  Stable r →
  status_le (status (job r)) (status (f (job r))) →
  (totalDocuments (f (job r)) = 0 → totalDocuments (job r) = 0) →
  snap_ok (f (job r)) →
  length (errors (f (job r))) = length (errors (job r)) →
  Stable (with_job f r).
Proof.
  intros [Hh Hc Hs He] Hle Htd Hsnap Herr. split; [by apply Hist_update|done|done|].
  cbn. by rewrite Herr.
Qed.

Lemma CloningAt_performed done extra op outcome r :
  quiet op outcome = true →
  CloningAt source done extra r → CloningAt source done extra (performed op outcome r).
Proof. intros Hq [? ? ? ? ?]. split; [by apply Stable_performed|done..]. Qed.

Lemma Aborted_performed done extra op e r :
  quiet op (Some e) = true → fatal op = true →
  oracle (length (log r)) op = Some e →
  CloningAt source done extra r → Aborted oracle (performed op (Some e) r).
Proof.
  intros Hq Hf Ho [Hst Hs ? ? ?]. split.
  - by apply Stable_performed.
  - cbn. rewrite Hs. cbn. lia.
  - intros Hno. by rewrite (Hno _ _ Hf) in Ho.
Qed.

Lemma cosmetic_details x : cosmetic (set_details x).
Proof. by intros j. Qed.
Lemma cosmetic_currentCollection x : cosmetic (set_currentCollection x).
Proof. by intros j. Qed.
Lemma cosmetic_collections x : cosmetic (set_collections x).
Proof. by intros j. Qed.
Lemma cosmetic_totalCollections x : cosmetic (set_totalCollections x).
Proof. by intros j. Qed.
Lemma cosmetic_endTime x : cosmetic (set_endTime x).
Proof. by intros j. Qed.
Lemma cosmetic_details_of g : cosmetic (λ j, set_details (g j) j).
Proof. by intros j. Qed.

Lemma Stable_cosmetic f r : cosmetic f → Stable r → Stable (with_job f r).
Proof.
  intros Hf Hst. destruct (Hf (job r)) as (Hs & Hp & Ht & Hd & Hc & He).
  apply Stable_update; [done|rewrite Hs; apply status_le_refl|by rewrite Ht| |by rewrite He].
  unfold snap_ok. rewrite Hp, Ht, Hd. apply Hst.
Qed.

Lemma CloningAt_cosmetic f done extra r :
  cosmetic f → CloningAt source done extra r → CloningAt source done extra (with_job f r).
Proof.
  intros Hf [Hst Hs Ht Hc Hd]. destruct (Hf (job r)) as (Hs' & Hp' & Ht' & Hd' & Hc' & He').
  split; cbn; [by apply Stable_cosmetic|congruence..].
Qed.

Lemma Preparing_cosmetic f st r :
  cosmetic f → Preparing st r → Preparing st (with_job f r).
Proof.
  intros Hf [Hst Hs Hr Ht Hd Hc Hp].
  destruct (Hf (job r)) as (Hs' & Hp' & Ht' & Hd' & Hc' & He').
  split; cbn; [by apply Stable_cosmetic|congruence..].
Qed.

Lemma Preparing_performed st op outcome r :
  quiet op outcome = true → Preparing st r → Preparing st (performed op outcome r).
Proof. intros Hq [? ? ? ? ? ? ?]. split; [by apply Stable_performed|done..]. Qed.

Lemma Preparing_aborted st op e r :
  fatal op = true → oracle (length (log r)) op = Some e →
  Stable (performed op (Some e) r) → Preparing st r →
  Aborted oracle (performed op (Some e) r).
Proof.
  intros Hf Ho Hst [_ Hs Hr _ _ _ _]. split; [done|cbn; by rewrite Hs|].
  intros Hno. by rewrite (Hno _ _ Hf) in Ho.
Qed.

(** *** Batches *)

Lemma offsets_from_lt j n k : k ∈ offsets_from j n → k < n.
Proof.
  funelim (offsets_from j n).
  - intros [->|Hin]%elem_of_cons; [done|]. eauto.
  - by intros ?%elem_of_nil.
Qed.

Lemma batch_total_all (documents : list Document) j :
  batch_total documents (offsets_from j (length documents)) = length documents - j.
Proof.
  remember (length documents) as n eqn:Hn.
  funelim (offsets_from j n).
  - unfold batch_total in *. cbn [map sum_list]. rewrite H0 by done.
    unfold slice. rewrite length_take, length_drop. unfold batchSize, id. lia.
  - unfold batch_total. cbn. lia.
Qed.

Lemma batch_total_app documents offs1 offs2 :
  batch_total documents (offs1 ++ offs2)
  = batch_total documents offs1 + batch_total documents offs2.
Proof.
  unfold batch_total. induction offs1 as [|j offs1 IH]; cbn; [done|].
  rewrite IH. lia.
Qed.

Lemma documents_in_app cols1 cols2 :
  documents_in source (cols1 ++ cols2)
  = documents_in source cols1 + documents_in source cols2.
Proof.
  unfold documents_in. induction cols1 as [|c cols1 IH]; cbn; [done|].
  rewrite IH. lia.
Qed.

Lemma documents_in_elem c cols :
  c ∈ cols → length (documents_of source (col_name c)) ≤ documents_in source cols.
Proof.
  unfold documents_in. induction cols as [|c' cols IH]; [by intros ?%elem_of_nil|].
  intros [->|Hin]%elem_of_cons; cbn; [lia|]. specialize (IH Hin). lia.
Qed.

(** *** The loops *)

Lemma CloningAt_batch done extra n r :
  0 < source_documents source →
  CloningAt source done extra r →
  CloningAt source done (extra + n)
    (with_job
       (set_progress (Math_round_pct (processedDocuments (job r) + n)
                                     (totalDocuments (job r))))
       (with_event (Divided (processedDocuments (job r) + n) (totalDocuments (job r)))
          (with_job (λ job0, set_processedDocuments (processedDocuments job0 + n) job0)
             r))).
Proof.
  intros Hpos [[Hh Hconn Hsnap Herr] Hs Ht Hcs Hd].
  split; [split|..].
  - apply Hist_update; [|cbn; apply status_le_refl|cbn; lia].
    apply Hist_divided; [|cbn; lia].
    apply Hist_update; [done|cbn; apply status_le_refl|cbn; lia].
  - exact Hconn.
  - by intros _ _.
  - change (length (errors (job r))
            = index_failures (log r ++ [Divided (processedDocuments (job r) + n)
                                                (totalDocuments (job r))])).
    rewrite index_failures_app. cbn. lia.
  - exact Hs.
  - exact Ht.
  - exact Hcs.
  - cbn. lia.
Qed.

Lemma wp_insert_batch c done offs j r :
  c ∈ source →
  j < length (documents_of source (col_name c)) →
  CloningAt source done (batch_total (documents_of source (col_name c)) offs) r →
  wp (insert_batch oracle (col_name c) (documents_of source (col_name c)) j)
     (λ _, CloningAt source done
             (batch_total (documents_of source (col_name c)) (offs ++ [j])))
     (λ _, Aborted oracle) r.
Proof.
  intros Hc Hj Hcl. unfold insert_batch. wp_step. apply wp_await.
  { intros e He. by eapply Aborted_performed. }
  intros _. do 4 wp_step.
  assert (Hpos : 0 < source_documents source).
  { pose proof (documents_in_elem c source Hc). unfold source_documents, documents_in in *. lia. }
  replace (batch_total (documents_of source (col_name c)) (offs ++ [j]))
    with (batch_total (documents_of source (col_name c)) offs
          + length (slice j (j + batchSize) (documents_of source (col_name c)))).
  2:{ rewrite batch_total_app. unfold batch_total. cbn. lia. }
  apply (CloningAt_batch done _ _ (performed _ None r)); [done|].
  by apply CloningAt_performed.
Qed.

Lemma wp_copy_index name index done extra r :
  CloningAt source done extra r →
  wp (copy_index oracle name index) (λ _, CloningAt source done extra)
     (λ _, Aborted oracle) r.
Proof.
  intros Hcl. unfold copy_index. case_bool_decide; [|by wp_step].
  wp_step. apply wp_await.
  - intros e He. wp_step.
    destruct Hcl as [[Hh Hconn Hsnap Herr] Hs Ht Hcs Hd].
    split; [split|..]; try done.
    + apply Hist_update; [by apply Hist_performed|apply status_le_refl|done].
    + cbn -[index_failures]. rewrite index_failures_app, length_app. cbn. lia.
  - intros _. by apply CloningAt_performed.
Qed.

Lemma wp_drop name done extra r :
  CloningAt source done extra r →
  wp (try_catch (await oracle (OpDrop name)) (λ _, ret tt))
     (λ _, CloningAt source done extra) (λ _, Aborted oracle) r.
Proof.
  intros Hcl. wp_step. apply wp_await.
  - intros e _. wp_step. by apply CloningAt_performed.
  - intros _. by apply CloningAt_performed.
Qed.

Lemma wp_insert_batches c done r :
  c ∈ source →
  CloningAt source done 0 r →
  wp (if bool_decide (0 < length (documents_of source (col_name c)))
      then for_of (offsets_from 0 (length (documents_of source (col_name c))))
                  (insert_batch oracle (col_name c) (documents_of source (col_name c)))
      else ret tt)
     (λ _, CloningAt source done (length (documents_of source (col_name c))))
     (λ _, Aborted oracle) r.
Proof.
  intros Hc Hcl. case_bool_decide as Hlen.
  - apply (wp_for_of (λ offs, CloningAt source done
                        (batch_total (documents_of source (col_name c)) offs))).
    + done.
    + intros offs j rest r' Hoffs Hcl'. apply wp_insert_batch; [done| |done].
      apply (offsets_from_lt 0). rewrite Hoffs. set_solver.
    + intros r'. rewrite batch_total_all. by rewrite Nat.sub_0_r.
  - wp_step. by replace (length (documents_of source (col_name c))) with 0 by lia.
Qed.

Lemma wp_clone_collection c done r :
  c ∈ source →
  CloningAt source done 0 r →
  wp (clone_collection oracle source c) (λ _, CloningAt source (done ++ [c]) 0)
     (λ _, Aborted oracle) r.
Proof.
  intros Hc Hcl. unfold clone_collection.
  do 4 wp_step.
  apply wp_bind. eapply wp_mono; [apply (wp_drop _ done 0)| |done].
  { apply CloningAt_cosmetic; [apply cosmetic_details|].
    apply CloningAt_cosmetic; [apply cosmetic_currentCollection|done]. }
  clear r Hcl. cbn beta. intros _ r Hcl.
  wp_step. apply wp_await.
  { intros e He. by eapply Aborted_performed. }
  intros _.
  apply wp_bind. eapply wp_mono; [apply (wp_insert_batches c done)| |done]; [done| |].
  { by apply CloningAt_performed. }
  clear r Hcl. cbn beta. intros _ r Hcl.
  wp_step. apply wp_await.
  { intros e He. by eapply Aborted_performed. }
  intros _. wp_step.
  apply (wp_for_of (λ _, CloningAt source done
                           (length (documents_of source (col_name c))))).
  { by apply CloningAt_performed. }
  { intros ixs ix rest r' _ Hcl'. by apply wp_copy_index. }
  clear r Hcl. intros r [Hst Hs Ht Hcs Hd]. wp_step.
  split; cbn; [|done|done|rewrite length_app; cbn; lia|].
  - apply Stable_update; [done|apply status_le_refl|done| |done].
    apply Hst.
  - rewrite documents_in_app. unfold documents_in at 2. cbn. lia.
Qed.

Lemma wp_count_documents cols : ∀ totalDocs r,
  Preparing Analyzing r →
  wp (count_documents oracle source cols totalDocs)
     (λ n r', n = totalDocs + documents_in source cols ∧ Preparing Analyzing r')
     (λ _, Aborted oracle) r.
Proof.
  induction cols as [|c cols IH]; intros totalDocs r Hpr; cbn [count_documents].
  - wp_step. split; [|done]. unfold documents_in. cbn. lia.
  - wp_step. apply wp_await.
    + intros e He. eapply Preparing_aborted; [done..| |done].
      apply Stable_performed; [done|apply Hpr].
    + intros _. eapply wp_mono; [apply IH| |done].
      * by apply Preparing_performed.
      * cbn beta. intros n r' [-> Hpr']. split; [|done].
        unfold documents_in. cbn. lia.
Qed.

(** *** The phases of a run *)

Lemma Preparing_initial jobId now : Preparing Starting (initial_run (new_job jobId now)).
Proof.
  split; [split; [split|..]|..]; cbn; try done; try lia;
    [apply SSorted_nil|intros _ Hpos; cbn in Hpos; lia].
Qed.

Lemma Preparing_status st st' r :
  status_le st st' → status_rank st' < 4 →
  Preparing st r → Preparing st' (with_job (set_status st') r).
Proof.
  intros Hle Hrank [Hst Hs Hr Ht Hd Hc Hp]. split; try done.
  apply Stable_update; [done|cbn; by rewrite Hs|done| |done].
  intros _ Hpos. cbn in Hpos. lia.
Qed.

Lemma wp_connect side cs st r :
  Preparing st r →
  targetClient r = false →
  (side = Source → sourceClient r = false) →
  (side = Target → sourceClient r = true) →
  wp (connectToMongoDB oracle side cs)
     (λ _ r', Preparing st r'
              ∧ sourceClient r' = true
              ∧ targetClient r' = (if side is Target then true else false))
     (λ _, Aborted oracle) r.
Proof.
  intros [[Hh Hconn Hsnap Herr] Hs Hr Ht Hd Hc Hp] Htc Hsrc Htgt.
  unfold connectToMongoDB. wp_step. wp_step. apply wp_await.
  - intros e He. wp_step. split; [split|..].
    + by apply Hist_performed.
    + exact Hconn.
    + done.
    + cbn -[index_failures]. rewrite index_failures_app. cbn. lia.
    + cbn. by rewrite Hs.
    + intros Hno. by rewrite (Hno _ (OpConnect side cs) eq_refl) in He.
  - intros _. unfold wp. split_and!; [split; [split|..]|..]; try done.
    + by apply Hist_client, Hist_performed.
    + unfold conn_ok in *. cbn. rewrite Hconn, Htc.
      destruct side; [by rewrite Hsrc|by rewrite Htgt].
    + cbn -[index_failures]. rewrite index_failures_app. cbn. lia.
    + cbn. destruct side; [done|by apply Htgt].
    + cbn. by destruct side.
Qed.

Lemma CloningAt_start details r :
  Preparing Analyzing r →
  CloningAt source [] 0
    (with_job (set_details details)
       (with_job (set_status Cloning)
          (with_job (set_totalDocuments (0 + documents_in source source)) r))).
Proof.
  intros [Hst Hs Hr Ht Hd Hc Hp].
  apply CloningAt_cosmetic; [apply cosmetic_details|].
  split; cbn; [|done|done|done|by rewrite Hd].
  apply Stable_update; [|cbn; by rewrite Hs|done| |done].
  - apply Stable_update; [done|apply status_le_refl|cbn; lia| |done].
    intros Hpct Hpos. cbn in *. rewrite Hp, Hd. symmetry. apply (Hpct 0 _ 0); lia.
  - intros Hpct Hpos. cbn in *. rewrite Hp, Hd. symmetry. apply (Hpct 0 _ 0); lia.
Qed.

Lemma Finished_intro details now r :
  CloningAt source source 0 r →
  Finished source
    (with_job (set_endTime now)
       (with_job (λ job, set_details (details job) job)
          (with_job (set_progress 100)
             (with_job (set_status Completed) r)))).
Proof.
  intros [Hst Hs Ht Hc Hd].
  assert (Hall : processedDocuments (job r) = source_documents source).
  { rewrite Hd. unfold source_documents, documents_in. lia. }
  split; cbn; try done.
  apply Stable_cosmetic; [apply cosmetic_endTime|].
  apply Stable_cosmetic; [apply cosmetic_details_of|].
  apply Stable_update; [|apply status_le_refl|done| |done].
  - apply Stable_update; [done|cbn; by rewrite Hs|done|apply Hst|done].
  - intros Hpct Hpos. cbn in *. rewrite Hall, Ht. symmetry.
    apply (Hpct _ _ 100); lia.
Qed.

Lemma wp_clone_body jobId now sourceConnection targetConnection databaseName :
  wp (clone_body oracle clock source sourceConnection targetConnection databaseName)
     (λ _, Finished source) (λ _, Aborted oracle)
     (initial_run (new_job jobId now)).
Proof.
  pose proof (Preparing_initial jobId now) as Hpr.
  assert (Hsc : sourceClient (initial_run (new_job jobId now)) = false) by done.
  assert (Htc : targetClient (initial_run (new_job jobId now)) = false) by done.
  revert Hpr Hsc Htc. generalize (initial_run (new_job jobId now)).
  intros r Hpr Hsc Htc. unfold clone_body.
  do 4 wp_step.
  (* connecting *)
  apply wp_bind. eapply wp_mono; [apply (wp_connect Source _ Connecting)| |done];
    [|done|done|done|].
  { apply Preparing_cosmetic; [apply cosmetic_details|].
    apply (Preparing_status Starting); [done|cbn; lia|done]. }
  clear r Hpr Hsc Htc. cbn beta. intros _ r (Hpr & Hsc & Htc).
  apply wp_bind. eapply wp_mono; [apply (wp_connect Target _ Connecting)| |done];
    [done|done|done|done|].
  clear r Hpr Hsc Htc. cbn beta. intros _ r (Hpr & _ & _).
  (* analyzing *)
  do 4 wp_step. wp_step.
  assert (Hpr' : Preparing Analyzing
            (with_job (set_details "Analyzing source database structure...")
               (with_job (set_status Analyzing) r))).
  { apply Preparing_cosmetic; [apply cosmetic_details|].
    apply (Preparing_status Connecting); [done|cbn; lia|done]. }
  revert Hpr'. generalize (with_job (set_details "Analyzing source database structure...")
               (with_job (set_status Analyzing) r)).
  clear r Hpr. intros r Hpr.
  apply wp_await.
  { intros e He. eapply Preparing_aborted; [done..| |done].
    apply Stable_performed; [done|apply Hpr]. }
  intros _. do 4 wp_step.
  apply wp_bind. eapply wp_mono; [apply wp_count_documents| |done].
  { apply Preparing_cosmetic; [apply cosmetic_collections|].
    apply Preparing_cosmetic; [apply cosmetic_totalCollections|].
    by apply Preparing_performed. }
  clear r Hpr. cbn beta. intros totalDocs r [-> Hpr].
  (* cloning *)
  do 6 wp_step. wp_step.
  apply (wp_for_of (λ done, CloningAt source done 0)).
  { by apply CloningAt_start. }
  { intros done c rest r' Hsrc Hcl. apply wp_clone_collection; [|done].
    rewrite Hsrc. set_solver. }
  clear r Hpr. intros r Hcl.
  do 7 wp_step. wp_step. wp_step.
  by apply (Finished_intro _ _ r).
Qed.

Lemma wp_clone_failed message r :
  Aborted oracle r →
  wp (clone_failed clock message) (λ _, Caught oracle) (λ _ _, False) r.
Proof.
  intros [[Hh Hconn Hsnap Herr] Hs Hcause]. unfold clone_failed.
  do 7 wp_step. wp_step.
  split; cbn; try done.
  - apply Hist_update; [|apply status_le_refl|done].
    apply Hist_update; [|apply status_le_refl|done].
    apply Hist_update; [|apply status_le_refl|done].
    apply Hist_update; [done| |done].
    cbn. revert Hs. by destruct (status (job r)); cbn; try lia.
  - rewrite length_app. cbn. unfold index_failures in Herr. lia.
Qed.

(** The [try]/[catch] of [cloneDatabase]: the job ends completed or
    failed. *)
Lemma wp_clone_try jobId now sourceConnection targetConnection databaseName :
  wp (try_catch
        (clone_body oracle clock source sourceConnection targetConnection databaseName)
        (clone_failed clock))
     (λ _ r, (Finished source r ∨ Caught oracle r)) (λ _ _, False)
     (initial_run (new_job jobId now)).
Proof.
  wp_step. eapply wp_mono; [apply wp_clone_body| |].
  - cbn beta. intros _ r Hf. by left.
  - cbn beta. intros e r Ha.
    eapply wp_mono; [by apply wp_clone_failed| |done].
    cbn beta. intros _ r' Hc. by right.
Qed.

Lemma clone_finally_ends r :
  Hist r → conn_ok r → snap_ok (job r) →
  ∃ r', clone_finally r = (r', inr tt)
        ∧ Hist r' ∧ job r' = job r ∧ open_connections r' = []
        ∧ index_failures (log r') = index_failures (log r).
Proof.
  intros Hh Hconn Hsnap. unfold clone_finally, bind, close, ret, conn_ok in *.
  destruct (sourceClient r) eqn:Hsc, (targetClient r) eqn:Htc; cbn;
    rewrite ?Hsc, ?Htc; cbn; eexists; (split; [reflexivity|]);
    cbn -[index_failures]; rewrite ?index_failures_app, ?Hconn; cbn;
    (split_and!; [|done|done|lia]);
    repeat (apply Hist_performed; [|done]); done.
Qed.

(** How every run ends. *)
Lemma cloneDatabase_ends jobId now sourceConnection targetConnection databaseName :
  Ended oracle source
    (run_clone oracle clock source jobId now sourceConnection targetConnection
       databaseName).
Proof.
  unfold run_clone, cloneDatabase, try_finally.
  pose proof (wp_clone_try jobId now sourceConnection targetConnection databaseName) as Hwp.
  unfold wp in Hwp.
  destruct (try_catch _ _ _) as [r [e|[]]]; [done|].
  assert (Hpre : Hist r ∧ conn_ok r ∧ snap_ok (job r)).
  { destruct Hwp as [[[? ? ? ?] _ _ _ _ _]|[? ? ? _ _ _]]; done. }
  destruct Hpre as (Hh & Hconn & Hsnap).
  destruct (clone_finally_ends r Hh Hconn Hsnap) as (r' & -> & Hh' & Hjob & Hopen & Hidx).
  cbn. split; [done|by rewrite Hjob|done|]. rewrite Hjob, Hidx.
  destruct Hwp as [[[_ _ _ Herr] Hs Ht Hc Hd Hp]|[_ _ _ Hs Herr Hcause]];
    [left|right]; done.
Qed.

Lemma StronglySorted_lookup {A} (R : relation A) (l : list A) i j a b :
  StronglySorted R l → i < j → l !! i = Some a → l !! j = Some b → R a b.
Proof.
  intros Hs. revert i j.
  induction Hs as [|x l Hs IH Hall]; intros [|i] [|j] Hij Ha Hb; try lia;
    cbn in *; try done.
  - injection Ha as <-. eapply Forall_forall in Hall; [done|].
    by eapply list_elem_of_lookup_2.
  - apply (IH i j); [lia|done..].
Qed.

Lemma statuses_sorted jobId now sourceConnection targetConnection databaseName :
  StronglySorted status_le
    (Starting :: map status (observations
       (run_clone oracle clock source jobId now sourceConnection targetConnection
          databaseName))).
Proof.
  destruct (cloneDatabase_ends jobId now sourceConnection targetConnection databaseName)
    as [[_ Hs Hb _ _] _ _ _].
  constructor.
  - unfold observations. rewrite map_app.
    apply StronglySorted_app_2; [|done|repeat constructor].
    intros s1 s2 Hin1 ->%list_elem_of_singleton.
    apply list_elem_of_fmap in Hin1 as (j & -> & Hj).
    by eapply Forall_forall in Hb.
  - apply Forall_forall. intros s _. apply status_le_Starting.
Qed.

(** C1.  A run without a fatal failure reaches [completed], and whenever a
    run over a source with N collections and D documents reaches
    [completed], the job counts N processed collections and D processed
    documents. *)
Theorem completed_counts jobId now sourceConnection targetConnection databaseName :
  let r := run_clone oracle clock source jobId now sourceConnection targetConnection
             databaseName in
  (no_fatal_failure oracle → status (job r) = Completed)
  ∧ (status (job r) = Completed →
       processedCollections (job r) = length source
       ∧ processedDocuments (job r) = source_documents source).
Proof.
  intros r.
  destruct (cloneDatabase_ends jobId now sourceConnection targetConnection databaseName)
    as [_ _ _ [(Hs & Hc & Hd & _)|(Hs & _ & Hcause)]]; fold r in Hs |- *.
  - done.
  - split; [intros Hno; by destruct Hcause|]. rewrite Hs. done.
Qed.


(** C3.  The statuses of a job, from its creation through every observation
    of its run, are in the order starting, connecting, analyzing, cloning,
    then completed or failed: a later status is the same or further on, and
    after a terminal status every later one is that same status. *)
Theorem status_monotone jobId now sourceConnection targetConnection databaseName :
  let r := run_clone oracle clock source jobId now sourceConnection targetConnection
             databaseName in
  let statuses := Starting :: map status (observations r) in
  StronglySorted status_le statuses
  ∧ (∀ i j s s', i < j → statuses !! i = Some s → statuses !! j = Some s' →
       (s = s' ∨ status_rank s < status_rank s')
       ∧ (terminal s = true → s' = s)).
Proof.
  intros r statuses.
  pose proof (statuses_sorted jobId now sourceConnection targetConnection databaseName)
    as Hsorted.
  split; [done|]. intros i j s s' Hij Hi Hj.
  pose proof (StronglySorted_lookup _ _ _ _ _ _ Hsorted Hij Hi Hj) as Hle.
  split; [|intros Ht; by apply status_le_terminal].
  unfold status_le, status_leb in Hle.
  apply orb_true_iff in Hle as [Heq%bool_decide_eq_true|Hlt%Nat.ltb_lt]; auto.
Qed.

(** C5.  When the creation of an index fails, the step for that index ends
    normally, so that the loop goes on with the next index: it appends
    exactly one message to the errors of the job and changes nothing else
    of it, the status included.  A run in which nothing but index creations
    (and drops) fail reaches [completed], with one message for each failed
    creation. *)
Theorem index_failure_not_fatal :
  (∀ name index r e,
     ix_name index ≠ "_id_" →
     oracle (length (log r))
       (OpCreateIndex name (ix_key index) (("key", JObj (ix_key index)) :: ix_options index))
     = Some e →
     ∃ r', copy_index oracle name index r = (r', inr tt)
       ∧ job r' = set_errors (errors (job r) ++
           ["Failed to create index " +:+ ix_name index +:+ " on " +:+ name
            +:+ ": " +:+ e]) (job r)
       ∧ status (job r') = status (job r))
  ∧ (∀ jobId now sourceConnection targetConnection databaseName,
       no_fatal_failure oracle →
       let r := run_clone oracle clock source jobId now sourceConnection
                  targetConnection databaseName in
       status (job r) = Completed
       ∧ length (errors (job r)) = index_failures (log r)).
Proof.
  split.
  - intros name index r e Hname Hfail. eexists. split_and!.
    + unfold copy_index, try_catch, await. rewrite bool_decide_true by done.
      rewrite Hfail. reflexivity.
    + done.
    + done.
  - intros jobId now sourceConnection targetConnection databaseName Hno r.
    destruct (cloneDatabase_ends jobId now sourceConnection targetConnection databaseName)
      as [_ _ _ [(Hs & _ & _ & _ & _ & He)|(_ & _ & Hcause)]]; [done|].
    by destruct Hcause.
Qed.



End EngineFacts.

(** *** The engine on the sample worlds *)

Lemma all_succeed_no_fatal_failure : Engine.no_fatal_failure Engine.all_succeed.
Proof. by intros n op _. Qed.

Lemma index_creation_fails_no_fatal_failure :
  Engine.no_fatal_failure Engine.index_creation_fails.
Proof. intros n op Hf. by destruct op. Qed.

(** The sample source is cloned in full: 2 collections, 2503 documents. *)
Lemma completed_counts_witness :
  let r := @Engine.sample_run (reference_runtime []) Engine.all_succeed Engine.sample_source in
  status (Engine.job r) = Completed
  ∧ processedCollections (Engine.job r) = 2
  ∧ processedDocuments (Engine.job r) = 2503.
Proof.
  cbv beta zeta delta [Engine.sample_run].
  destruct (@completed_counts (reference_runtime []) Engine.all_succeed
              Engine.sample_clock Engine.sample_source "1700000000000"
              1700000000000 "mongodb://source/" "mongodb://target/" "shop")
    as [Hdone Hcounts].
  pose proof (Hdone all_succeed_no_fatal_failure) as Hs.
  destruct (Hcounts Hs) as [Hc Hd].
  split_and!; [exact Hs|exact Hc|].
  etransitivity; [exact Hd|]. vm_compute. reflexivity.
Defined.



(** In the run over the empty sample source, the status seen at the fourth
    observation and the one at the end are in order. *)
Lemma status_monotone_witness :
  let r := @Engine.sample_run (reference_runtime []) Engine.all_succeed Engine.empty_source in
  (Starting :: map status (Engine.observations r)) !! 3%nat = Some Analyzing
  ∧ (Starting :: map status (Engine.observations r)) !! 10%nat = Some Completed
  ∧ (Analyzing = Completed ∨ Engine.status_rank Analyzing < Engine.status_rank Completed)
  ∧ (Engine.terminal Analyzing = true → Completed = Analyzing).
Proof.
  cbv beta zeta delta [Engine.sample_run].
  pose proof (@status_monotone (reference_runtime []) Engine.all_succeed
              Engine.sample_clock Engine.empty_source "1700000000000"
              1700000000000 "mongodb://source/" "mongodb://target/" "shop")
    as Hmono.
  cbv zeta in Hmono. destruct Hmono as [_ Hpairs].
  specialize (Hpairs 3%nat 10%nat Analyzing Completed ltac:(lia)).
  match type of Hpairs with
  | ?A → ?B → _ =>
      assert (H3 : A) by (vm_compute; reflexivity);
      assert (H10 : B) by (vm_compute; reflexivity)
  end.
  destruct (Hpairs H3 H10) as [Hle Hterm].
  split_and!; [exact H3|exact H10|exact Hle|exact Hterm].
Defined.

(** On the sample source, with every index creation failing, the step for
    the index [email_1] records one message, and the run completes with
    exactly that one message. *)
Lemma index_failure_not_fatal_witness :
  let r0 := Engine.initial_run (new_job "1700000000000" 1700000000000) in
  let r := @Engine.sample_run (reference_runtime []) Engine.index_creation_fails
             Engine.sample_source in
  (∃ r', @Engine.copy_index Engine.index_creation_fails "users"
           (Engine.sample_index "email_1" "email") r0 = (r', inr tt)
         ∧ errors (Engine.job r')
           = ["Failed to create index email_1 on users: duplicate key"])
  ∧ status (Engine.job r) = Completed
  ∧ errors (Engine.job r) = ["Failed to create index email_1 on users: duplicate key"]
  ∧ length (errors (Engine.job r)) = Engine.index_failures (Engine.log r).
Proof.
  cbv beta zeta delta [Engine.sample_run].
  destruct (@index_failure_not_fatal (reference_runtime []) Engine.index_creation_fails
              Engine.sample_clock Engine.sample_source) as [Hstep Hrun].
  destruct (Hstep "users" (Engine.sample_index "email_1" "email")
              (Engine.initial_run (new_job "1700000000000" 1700000000000))
              "duplicate key")
    as (r' & Hr' & Hjob & _); [discriminate|reflexivity|].
  pose proof (Hrun "1700000000000" 1700000000000%Z "mongodb://source/"
              "mongodb://target/" "shop" index_creation_fails_no_fatal_failure)
    as Hend.
  cbv zeta in Hend. destruct Hend as [Hs He].
  split_and!; [|exact Hs| |exact He].
  - exists r'. split; [exact Hr'|]. rewrite Hjob. reflexivity.
  - vm_compute. reflexivity.
Defined.


(** ** Job tracker *)

Section TrackerFacts.
Import Tracker.

(** The identifiers under which jobs are held are pairwise distinct. *)
Lemma held_identifiers_distinct (t : Registry) : NoDup (map fst (held t)).
Proof.
  unfold held. pose proof (NoDup_fst_map_to_list (cloningJobs t)) as Hnd.
  induction (map_to_list (cloningJobs t)) as [|[jobId ref] l IH]; cbn; [constructor|].
  cbn in Hnd. apply NoDup_cons in Hnd as [Hnotin Hnd].
  destruct (objects t !! ref) as [j|]; cbn; [|by apply IH].
  constructor; [|by apply IH].
  intros Hin. apply Hnotin.
  apply list_elem_of_fmap in Hin as ([jobId' j'] & -> & Hin).
  apply list_elem_of_omap in Hin as ([jobId'' ref'] & Hin & Heq). cbn in Heq.
  destruct (objects t !! ref'); [|done]. cbn in Heq. injection Heq as -> ->.
  apply list_elem_of_fmap. by exists (jobId', ref').
Qed.

(** Creations at different readings of the clock get different
    identifiers. *)
Lemma distinct_readings_distinct_identifiers now1 now2 s1 s2 a b c a' b' c' t1 t2 id1 id2 r1 r2 t1' t2' :
  post_clone_database now1 s1 a b c t1 = (Started id1 r1, t1') →
  post_clone_database now2 s2 a' b' c' t2 = (Started id2 r2, t2') →
  now1 ≠ now2 → id1 ≠ id2.
Proof.
  unfold post_clone_database. intros H1 H2 Hne.
  destruct (_ || _) in H1; [done|]. destruct (_ || _) in H2; [done|].
  injection H1 as <- _ _. injection H2 as <- _ _.
  intros Heq. by apply Hne, (inj pretty).
Qed.

Lemma well_formed_empty : well_formed empty_registry.
Proof. intros jobId ref. cbn. by rewrite lookup_empty. Qed.

Lemma well_formed_post now started a b c t :
  well_formed t → well_formed (post_clone_database now started a b c t).2.
Proof.
  intros Hwf. unfold post_clone_database. destruct (_ || _); [done|].
  intros jobId ref. cbn [snd objects cloningJobs]. rewrite length_app. cbn [length].
  destruct (decide (pretty now = jobId)) as [<-|Hne].
  - rewrite lookup_insert_eq. intros [= <-]. lia.
  - rewrite lookup_insert_ne by done. intros Href. specialize (Hwf _ _ Href). lia.
Qed.

Lemma well_formed_delete jobId t :
  well_formed t → well_formed (delete_job jobId t).2.
Proof.
  intros Hwf. unfold delete_job. destruct (cloningJobs t !! jobId); [|done].
  intros key ref Href. cbn in Href |- *. apply lookup_delete_Some in Href as [_ Href]. eauto.
Qed.

(** C4, where the code departs from the claim.  Two jobs created at the
    same reading of the clock receive the same identifier: both are
    accepted, the registry then files the second job under that identifier,
    and the first job, which carries the same identifier, is no longer
    held under any. *)
Theorem same_reading_reuses_identifier now s1 s2 a b c a' b' c' t :
  well_formed t →
  truthy a = true → truthy b = true → truthy c = true →
  truthy a' = true → truthy b' = true → truthy c' = true →
  ∃ jobId ref1 ref2 t1 t2 job1 job2,
    post_clone_database now s1 a b c t = (Started jobId ref1, t1)
    ∧ post_clone_database now s2 a' b' c' t1 = (Started jobId ref2, t2)
    ∧ ref1 ≠ ref2
    ∧ objects t2 !! ref1 = Some job1 ∧ job_id job1 = jobId
    ∧ objects t2 !! ref2 = Some job2 ∧ job_id job2 = jobId
    ∧ cloningJobs t2 !! jobId = Some ref2
    ∧ (∀ key, cloningJobs t2 !! key ≠ Some ref1).
Proof.
  intros Hwf Ha Hb Hc Ha' Hb' Hc'. unfold post_clone_database.
  rewrite Ha, Hb, Hc, Ha', Hb', Hc'. cbn [negb orb].
  eexists _, _, _, _, _, _, _.
  split; [reflexivity|]. split; [reflexivity|]. cbn [objects cloningJobs].
  rewrite !length_app. cbn [length].
  split_and!.
  - lia.
  - rewrite lookup_app_l by (rewrite length_app; cbn; lia).
    by rewrite lookup_app_r, Nat.sub_diag.
  - done.
  - rewrite lookup_app_r by (rewrite length_app; cbn; lia).
    rewrite length_app. cbn [length]. by replace (_ + 1 - _) with 0 by lia.
  - done.
  - by rewrite lookup_insert_eq.
  - intros key. rewrite insert_insert_eq.
    destruct (decide (pretty now = key)) as [<-|Hne].
    + rewrite lookup_insert_eq. intros [=]. lia.
    + rewrite lookup_insert_ne by done. intros Href.
      specialize (Hwf _ _ Href). lia.
Qed.

End TrackerFacts.

(** Two requests handled within the millisecond 1700000000000. *)
Lemma same_reading_reuses_identifier_witness :
  ∃ jobId ref1 ref2 t1 t2,
    Tracker.post_clone_database 1700000000000 1700000000000
      (JStr "mongodb://a/") (JStr "mongodb://b/") (JStr "shop") Tracker.empty_registry
    = (Tracker.Started jobId ref1, t1)
    ∧ Tracker.post_clone_database 1700000000000 1700000000000
        (JStr "mongodb://c/") (JStr "mongodb://d/") (JStr "crm") t1
      = (Tracker.Started jobId ref2, t2)
    ∧ ref1 ≠ ref2
    ∧ Tracker.cloningJobs t2 !! jobId = Some ref2
    ∧ (∀ key, Tracker.cloningJobs t2 !! key ≠ Some ref1).
Proof.
  destruct (same_reading_reuses_identifier 1700000000000 1700000000000 1700000000000
              (JStr "mongodb://a/") (JStr "mongodb://b/") (JStr "shop")
              (JStr "mongodb://c/") (JStr "mongodb://d/") (JStr "crm")
              Tracker.empty_registry well_formed_empty
              eq_refl eq_refl eq_refl eq_refl eq_refl eq_refl)
    as (jobId & ref1 & ref2 & t1 & t2 & job1 & job2
        & H1 & H2 & Hne & _ & _ & _ & _ & Hm & Hgone).
  exists jobId, ref1, ref2, t1, t2. split_and!; assumption.
Defined.

(** ** Document routes *)

Lemma String_eqb_eq (a b : string) : String.eqb a b = true → a = b.
Proof. by intros ?%String.eqb_eq. Qed.

Lemma JSValue_eqb_eq : ∀ a b, JSValue_eqb a b = true → a = b.
Proof.
  fix IH 1. intros [| |x|x|x|xs|fs|x|x] [| |y|y|y|ys|gs|y|y]; cbn; try done.
  - intros ?%Bool.eqb_prop. by subst.
  - intros ?%Z.eqb_eq. by subst.
  - intros ?%String_eqb_eq. by subst.
  - intros Hgo. f_equal. revert ys Hgo.
    induction xs as [|x xs IHxs]; intros [|y ys]; try done.
    intros [Hx Hrest]%andb_true_iff. f_equal; [by apply IH|by apply IHxs].
  - intros Hgo. f_equal. revert gs Hgo.
    induction fs as [|[k x] fs IHfs]; intros [|[k' y] gs]; try done.
    intros [[Hk Hx]%andb_true_iff Hrest]%andb_true_iff.
    f_equal; [|by apply IHfs].
    f_equal; [by apply String_eqb_eq|by apply IH].
  - intros ?%Z.eqb_eq. by subst.
  - intros ?%String_eqb_eq. by subst.
Qed.

Section CrudFacts.
Import Crud.
Context `{JSRuntime} `{Driver}.

Lemma get_field_set_field_ne f k v doc :
  f ≠ k → get_field f (set_field k v doc) = get_field f doc.
Proof.
  intros Hne. induction doc as [|[k' w] doc IH]; cbn.
  - destruct (String.eqb_spec k f); [by subst|done].
  - destruct (String.eqb_spec k' k) as [->|Hk]; cbn.
    + destruct (String.eqb_spec k f); [by subst|done].
    + destruct (String.eqb_spec k' f); [done|apply IH].
Qed.

(** [$set] leaves alone every top-level field that no key of the update
    leads to. *)
Lemma apply_set_frame updates : ∀ doc doc' f,
  apply_set updates doc = Some doc' →
  f ∉ map (λ kv, path_head kv.1) updates →
  get_field f doc' = get_field f doc.
Proof.
  induction updates as [|[key v] updates IH]; intros doc doc' f Happ Hf; cbn in Happ.
  - by injection Happ as <-.
  - cbn in Hf. apply not_elem_of_cons in Hf as [Hne Hf].
    unfold path_head in Hne.
    destruct (split_path key) as [|k path]; [done|].
    destruct (set_path path v (get_field k doc)) as [child|]; [|done].
    rewrite (IH _ _ _ Happ Hf). by apply get_field_set_field_ne.
Qed.

Lemma same_id_eq d d' : same_id d d' = true → get_field "_id" d' = get_field "_id" d.
Proof.
  unfold same_id.
  destruct (get_field "_id" d), (get_field "_id" d'); try done.
  by intros ->%JSValue_eqb_eq.
Qed.

(** The update touches the first document with the identifier and no
    other. *)
Lemma update_first_Some oid updates c matched modified c' :
  update_first oid updates c = inr (matched, modified, c') →
  matched ≠ 0 →
  ∃ before d d' after,
    c = before ++ d :: after
    ∧ c' = before ++ d' :: after
    ∧ Forall (λ x, has_id oid x = false) before
    ∧ has_id oid d = true
    ∧ apply_set updates d = Some d'
    ∧ same_id d d' = true.
Proof.
  revert matched modified c'.
  induction c as [|x c IH]; intros matched modified c' Hup Hm; cbn in Hup.
  - by injection Hup as <- _ _.
  - destruct (has_id oid x) eqn:Hid.
    + destruct (apply_set updates x) as [x'|] eqn:Happ; [|done].
      destruct (same_id x x') eqn:Hsame; [|done].
      injection Hup as _ _ <-.
      exists [], x, x', c. by split_and!.
    + destruct (update_first oid updates c) as [e|[[m n] rest]]; [done|].
      injection Hup as <- <- <-.
      destruct (IH _ _ _ eq_refl Hm) as (before & d & d' & after & -> & -> & ? & ? & ? & ?).
      exists (x :: before), d, d', after. split_and!; try done.
      by constructor.
Qed.



(** C10.  When an update is answered 200, the updates were an object, one
    document -- the first with the given identifier -- was rewritten by
    [$set], and the server is otherwise as before: the documents before and
    after it in its collection and all other collections are unchanged, its
    [_id] is unchanged, and so is every top-level field that no key of the
    updates leads to. *)
Theorem update_frame
    connectionString databaseName collectionName documentId updates store :
  let o := update_document connectionString databaseName collectionName documentId
             updates store in
  code o = 200 →
  ∃ ns oid fields before d d' after,
    namespace databaseName collectionName = inr ns
    ∧ ObjectId_new documentId = inr oid
    ∧ parse_payload updates = Some (JObj fields)
    ∧ collection_of ns store = before ++ d :: after
    ∧ Forall (λ x, has_id oid x = false) before
    ∧ has_id oid d = true
    ∧ store_after o = <[ns := before ++ d' :: after]> store
    ∧ get_field "_id" d' = get_field "_id" d
    ∧ (∀ f, f ∉ map (λ kv, path_head kv.1) fields →
            get_field f d' = get_field f d).
Proof.
  intros o. unfold o, update_document.
  destruct (_ || _); [done|].
  destruct (connect_error connectionString); [done|].
  destruct (namespace databaseName collectionName) as [?|ns]; [done|].
  destruct (parse_payload updates) as [parsed|]; [|done].
  destruct (ObjectId_new documentId) as [?|oid]; [done|].
  destruct (updateOne oid parsed (collection_of ns store))
    as [?|[[matched modified] c']] eqn:Hup; [done|].
  destruct (Nat.eqb_spec matched 0) as [|Hm]; [done|]. cbn. intros _.
  unfold updateOne in Hup. destruct parsed as [| | | | | |fields| |]; try done.
  destruct (negb _) in Hup; [done|]. destruct (negb _) in Hup; [done|].
  destruct (update_first_Some _ _ _ _ _ _ Hup Hm)
    as (before & d & d' & after & Hc & -> & Hbefore & Hid & Happ & Hsame).
  exists ns, oid, fields, before, d, d', after. split_and!; try done.
  - by apply same_id_eq.
  - intros f Hf. by eapply apply_set_frame.
Qed.

End CrudFacts.




(** Setting the age of the first sample document. *)
Lemma update_frame_witness :
  let rt := reference_runtime [] in
  let dr := Crud.reference_driver in
  let o := @Crud.update_document rt dr (JStr "mongodb://host/") (JStr "shop")
             (JStr "users") (JStr "0123456789ABCDEF01234567")
             (JObj [("age", JNum 37)]) Crud.sample_store in
  Crud.code o = 200
  ∧ ∃ ns oid fields before d d' after,
      @Crud.namespace dr (JStr "shop") (JStr "users") = inr ns
      ∧ @Crud.ObjectId_new dr (JStr "0123456789ABCDEF01234567") = inr oid
      ∧ @Crud.parse_payload rt (JObj [("age", JNum 37)]) = Some (JObj fields)
      ∧ Crud.collection_of ns Crud.sample_store = before ++ d :: after
      ∧ Forall (λ x, Crud.has_id oid x = false) before
      ∧ Crud.has_id oid d = true
      ∧ Crud.store_after o = <[ns := before ++ d' :: after]> Crud.sample_store
      ∧ get_field "_id" d' = get_field "_id" d
      ∧ (∀ f, f ∉ map (λ kv, Crud.path_head kv.1) fields →
              get_field f d' = get_field f d).
Proof.
  cbv zeta.
  assert (Hcode : Crud.code (@Crud.update_document (reference_runtime [])
             Crud.reference_driver (JStr "mongodb://host/") (JStr "shop")
             (JStr "users") (JStr "0123456789ABCDEF01234567")
             (JObj [("age", JNum 37)]) Crud.sample_store) = 200)
    by (vm_compute; reflexivity).
  split; [exact Hcode|].
  exact (@update_frame (reference_runtime []) Crud.reference_driver
           (JStr "mongodb://host/") (JStr "shop") (JStr "users")
           (JStr "0123456789ABCDEF01234567") (JObj [("age", JNum 37)])
           Crud.sample_store Hcode).
Defined.

(** * Further properties *)

(** ** Clone engine: batches and early failures *)

Section EngineBatches.
Import Engine.

Lemma slices_from (documents : list Document) j :
  concat (map (λ j, slice j (j + batchSize) documents)
            (offsets_from j (length documents)))
  = drop j documents.
Proof.
  remember (length documents) as n eqn:Hn.
  funelim (offsets_from j n).
  - cbn [map concat]. rewrite H by done. unfold slice.
    replace (j + batchSize - j) with batchSize by lia.
    replace (drop (j + batchSize) documents)
      with (drop batchSize (drop j documents))
      by (rewrite drop_drop; f_equal; lia).
    apply take_drop.
  - cbn. symmetry. apply drop_ge. lia.
Qed.

Lemma slices_sized (documents : list Document) j :
  Forall (λ b : list Document, 0 < length b ≤ batchSize)
    (map (λ j, slice j (j + batchSize) documents) (offsets_from j (length documents))).
Proof.
  remember (length documents) as n eqn:Hn.
  funelim (offsets_from j n).
  - cbn [map]. constructor; [|by apply H].
    unfold slice. rewrite length_take, length_drop. unfold batchSize. lia.
  - constructor.
Qed.

(** X1.  The batches inserted for a collection partition its documents:
    put end to end they are the documents fetched from the source, in
    order, and each batch holds between 1 and 1000 documents. *)
Theorem batches_partition (documents : list Document) :
  concat (batches documents) = documents
  ∧ Forall (λ b : list Document, 0 < length b ≤ 1000) (batches documents).
Proof.
  unfold batches. split; [by rewrite slices_from|apply slices_sized].
Qed.

End EngineBatches.

Section EngineFailures.
Import Engine.
Context `{JSRuntime}.
Variable oracle : Oracle.
Variable clock : nat → Z.
Variable source : list SourceCollection.

(** X2.  When the connection to the source fails, the run makes no other
    call: the target is never contacted and nothing is read or written.
    The job ends failed, with the single error
    [Connection failed: <message>], that error in its details, and its end
    time set. *)
Theorem source_connection_failure jobId now sourceConnection targetConnection
    databaseName e :
  oracle 0 (OpConnect Source sourceConnection) = Some e →
  let r := run_clone oracle clock source jobId now sourceConnection
             targetConnection databaseName in
  log r = [Called (OpConnect Source sourceConnection) (Some e)]
  ∧ status (job r) = Failed
  ∧ errors (job r) = ["Connection failed: " +:+ e]
  ∧ details (job r) = "Error: " +:+ ("Connection failed: " +:+ e)
  ∧ endTime (job r) = Some (clock 1)
  ∧ open_connections r = [].
Proof.
  intros He r. unfold r, run_clone, cloneDatabase, try_finally, try_catch,
    clone_body, connectToMongoDB, try_catch, bind, update, await.
  cbn. rewrite He. cbn. done.
Qed.

(** X3.  When the source connects and the connection to the target fails,
    the only further call is the release of the source connection: nothing
    is read from the source.  The job ends failed with the single error
    [Connection failed: <message>], and no connection stays open. *)
Theorem target_connection_failure jobId now sourceConnection targetConnection
    databaseName e :
  oracle 0 (OpConnect Source sourceConnection) = None →
  oracle 1 (OpConnect Target targetConnection) = Some e →
  let r := run_clone oracle clock source jobId now sourceConnection
             targetConnection databaseName in
  log r = [Called (OpConnect Source sourceConnection) None;
           Called (OpConnect Target targetConnection) (Some e);
           Called (OpClose Source) None]
  ∧ status (job r) = Failed
  ∧ errors (job r) = ["Connection failed: " +:+ e]
  ∧ totalCollections (job r) = 0
  ∧ open_connections r = [].
Proof.
  intros Hs He r. unfold r, run_clone, cloneDatabase, try_finally, try_catch,
    clone_body, connectToMongoDB, try_catch, bind, update, await.
  cbn. rewrite Hs. cbn. rewrite He. cbn. done.
Qed.

End EngineFailures.

Lemma source_connection_failure_witness :
  let r := @Engine.run_clone (reference_runtime []) Engine.source_unreachable
             Engine.sample_clock Engine.sample_source "1700000000000"
             1700000000000 "mongodb://source/" "mongodb://target/" "shop" in
  Engine.log r = [Engine.Called (Engine.OpConnect Engine.Source "mongodb://source/")
                    (Some "ECONNREFUSED")]
  ∧ status (Engine.job r) = Failed
  ∧ errors (Engine.job r) = ["Connection failed: ECONNREFUSED"].
Proof.
  cbv zeta.
  destruct (@source_connection_failure (reference_runtime []) Engine.source_unreachable
              Engine.sample_clock Engine.sample_source "1700000000000"
              1700000000000 "mongodb://source/" "mongodb://target/" "shop"
              "ECONNREFUSED" eq_refl) as (Hlog & Hs & He & _).
  split_and!; [exact Hlog|exact Hs|exact He].
Defined.

Lemma target_connection_failure_witness :
  let r := @Engine.run_clone (reference_runtime []) Engine.target_unreachable
             Engine.sample_clock Engine.sample_source "1700000000000"
             1700000000000 "mongodb://source/" "mongodb://target/" "shop" in
  status (Engine.job r) = Failed
  ∧ errors (Engine.job r) = ["Connection failed: ECONNREFUSED"]
  ∧ Engine.open_connections r = [].
Proof.
  cbv zeta.
  destruct (@target_connection_failure (reference_runtime []) Engine.target_unreachable
              Engine.sample_clock Engine.sample_source "1700000000000"
              1700000000000 "mongodb://source/" "mongodb://target/" "shop"
              "ECONNREFUSED" eq_refl eq_refl) as (_ & Hs & He & _ & Hopen).
  split_and!; [exact Hs|exact He|exact Hopen].
Defined.

(** ** Schema inferencer: counts, kinds and failures *)

Section SchemaMore.
Import Schema.
Context `{JSRuntime}.

Lemma elem_of_occurrences f v (d : Document) :
  v ∈ occurrences f d ↔ (f, v) ∈ d.
Proof.
  unfold occurrences. rewrite list_elem_of_omap. split.
  - intros ([k w] & Hin & Heq). cbn in Heq.
    destruct (String.eqb_spec k f) as [->|]; [|done]. by injection Heq as ->.
  - intros Hin. exists (f, v). split; [done|]. cbn. by rewrite String.eqb_refl.
Qed.

Lemma elem_of_field_values f v docs :
  v ∈ field_values f docs ↔ ∃ d, d ∈ docs ∧ (f, v) ∈ d.
Proof.
  unfold field_values. rewrite list_elem_of_bind.
  split; intros (d & H1 & H2); exists d.
  - split; [done|]. by apply elem_of_occurrences.
  - split; [|done]. by apply elem_of_occurrences.
Qed.

Lemma field_values_nonempty f docs :
  field_values f docs ≠ [] ↔ ∃ d v, d ∈ docs ∧ (f, v) ∈ d.
Proof.
  split.
  - destruct (field_values f docs) as [|v vs] eqn:Hvs; [done|]. intros _.
    assert (Hin : v ∈ field_values f docs) by (rewrite Hvs; left).
    apply elem_of_field_values in Hin as (d & ? & ?). by exists d, v.
  - intros (d & v & Hd & Hv) Hnil.
    assert (Hin : v ∈ field_values f docs) by (apply elem_of_field_values; eauto).
    rewrite Hnil in Hin. by apply elem_of_nil in Hin.
Qed.

Lemma generateSchema_Some docs schema :
  generateSchema docs = Some schema →
  ∃ acc, forEach visit_field ∅ (concat docs) = Some acc
         ∧ schema = finish (length docs) <$> acc.
Proof.
  unfold generateSchema. destruct docs as [|d docs].
  - intros [= <-]. exists ∅. split; [done|]. by rewrite fmap_empty.
  - destruct (forEach _ _ _) as [acc|] eqn:Hacc; [|done]. intros [= <-].
    exists acc. by rewrite <- forEach_visit_document.
Qed.

(** X4.  For every field of a returned schema, [required] is the number of
    values the field takes in the sample and is at least 1,
    [requiredPercentage] is the rounded percentage of that count in the
    sample size, and the number of examples is that count capped at 3. *)
Theorem generateSchema_presence docs schema f info :
  generateSchema docs = Some schema → schema !! f = Some info →
  required info = length (field_values f docs)
  ∧ 0 < required info
  ∧ requiredPercentage info = Math_round_pct (required info) (length docs)
  ∧ length (examples info) = required info `min` 3.
Proof.
  intros Hs Hf.
  destruct (generateSchema_lookup _ _ _ _ Hs Hf) as (Hex & Hreq & Hpct).
  destruct (generateSchema_Some _ _ Hs) as (acc & Hacc & ->).
  destruct (forEach_visit_field _ _ _ Hacc f) as (_ & _ & Hdom).
  rewrite occurrences_concat, lookup_empty in Hdom.
  assert (Hne : field_values f docs ≠ []).
  { rewrite lookup_fmap in Hf. destruct (acc !! f) eqn:Ha; [|done].
    destruct Hdom as [Hdom _]. destruct Hdom as [[? ?]|?]; [by eexists|done|done]. }
  split_and!; [done| |done|].
  - rewrite Hreq. destruct (field_values f docs); [done|cbn; lia].
  - rewrite Hex, Hreq, length_take. lia.
Qed.

(** X5.  The fields of a returned schema are exactly the field names that
    occur in some document of the sample. *)
Theorem generateSchema_fields docs schema f :
  generateSchema docs = Some schema →
  (is_Some (schema !! f) ↔ ∃ d v, d ∈ docs ∧ (f, v) ∈ d).
Proof.
  intros Hs. destruct (generateSchema_Some _ _ Hs) as (acc & Hacc & ->).
  destruct (forEach_visit_field _ _ _ Hacc f) as (_ & _ & Hdom).
  rewrite occurrences_concat, lookup_empty in Hdom.
  rewrite lookup_fmap, fmap_is_Some, Hdom, <- field_values_nonempty.
  split; [intros [[? ?]|?]; done|by right].
Qed.

Lemma elem_of_concat {A} (x : A) (ls : list (list A)) :
  x ∈ concat ls ↔ ∃ l, x ∈ l ∧ l ∈ ls.
Proof.
  induction ls as [|l ls IH]; cbn.
  - split; [by intros ?%elem_of_nil|by intros (? & _ & ?%elem_of_nil)].
  - rewrite elem_of_app, IH. split.
    + intros [?|(l' & ? & ?)]; [exists l; split; [done|left]|].
      exists l'. split; [done|by right].
    + intros (l' & Hx & [->|?]%elem_of_cons); [by left|right; eauto].
Qed.

Lemma forEach_visit_field_names pairs : ∀ schema schema',
  (∀ k, is_Some (schema !! k) → inherited k = false) →
  forEach visit_field schema pairs = Some schema' →
  Forall (λ kv, inherited kv.1 = false) pairs.
Proof.
  induction pairs as [|[k v] rest IH]; intros schema schema' Hdom Hrun;
    cbn [forEach] in Hrun; [constructor|].
  destruct (visit_field schema (k, v)) as [s1|] eqn:Hv; [|done].
  destruct (visit_field_Some _ _ _ _ Hv) as (type & _ & Hnew & ->).
  assert (Hk : inherited k = false).
  { destruct (schema !! k) eqn:Hsk; [apply Hdom; by rewrite Hsk|by apply Hnew]. }
  constructor; [done|]. eapply IH; [|done].
  intros k'. destruct (decide (k = k')) as [<-|Hne]; [done|].
  rewrite lookup_insert_ne by done. apply Hdom.
Qed.

(** X6.  A sample in which some document has a field named like a property
    of [Object.prototype] ([constructor], [toString], [__proto__], ...)
    makes [generateSchema] throw: no schema is returned. *)
Theorem generateSchema_inherited_name docs d f v :
  d ∈ docs → (f, v) ∈ d → inherited f = true → generateSchema docs = None.
Proof.
  intros Hd Hf Hinh. destruct (generateSchema docs) as [schema|] eqn:Hs; [|done].
  destruct (generateSchema_Some _ _ Hs) as (acc & Hacc & _).
  apply forEach_visit_field_names in Hacc.
  - eapply Forall_forall in Hacc; [|apply elem_of_concat; by exists d].
    cbn in Hacc. congruence.
  - intros k [? Hk]. by rewrite lookup_empty in Hk.
Qed.

Lemma elem_of_Set_add t x s : t ∈ Set_add x s ↔ t = x ∨ t ∈ s.
Proof.
  unfold Set_add. case_bool_decide as Hin.
  - split; [by right|]. by intros [->|].
  - rewrite elem_of_app, list_elem_of_singleton. tauto.
Qed.

Lemma NoDup_Set_add x s : NoDup s → NoDup (Set_add x s).
Proof.
  intros Hnd. unfold Set_add. case_bool_decide as Hin; [done|].
  apply NoDup_app. split_and!; [done| |apply NoDup_singleton].
  by intros y Hy ->%list_elem_of_singleton.
Qed.

Lemma forEach_visit_field_types pairs : ∀ schema schema',
  forEach visit_field schema pairs = Some schema' →
  ∀ f, (NoDup (types_in schema f) → NoDup (types_in schema' f))
     ∧ ∀ t, t ∈ types_in schema' f
            ↔ t ∈ types_in schema f
              ∨ ∃ v, v ∈ occurrences f pairs ∧ kind_of v = Some t.
Proof.
  induction pairs as [|[k v] rest IH]; intros schema schema' Hrun f;
    cbn [forEach] in Hrun.
  - injection Hrun as <-. split; [done|]. intros t. split; [by left|].
    intros [?|(w & Hw & _)]; [done|]. by apply elem_of_nil in Hw.
  - destruct (visit_field schema (k, v)) as [s1|] eqn:Hv; [|done].
    destruct (visit_field_Some _ _ _ _ Hv) as (type & Hkind & _ & ->).
    destruct (IH _ _ Hrun f) as (IHnd & IHin). clear IH Hrun Hv.
    rewrite occurrences_cons.
    destruct (String.eqb_spec k f) as [->|Hne].
    + assert (Hstep : types_in (<[f:=bump type v (default fresh_entry (schema !! f))]> schema) f
                      = Set_add type (types_in schema f)).
      { unfold types_in. rewrite lookup_insert_eq. by destruct (schema !! f). }
      rewrite Hstep in IHnd, IHin. split.
      * intros Hnd. by apply IHnd, NoDup_Set_add.
      * intros t. rewrite IHin, elem_of_Set_add. split.
        -- intros [[->|Ht]|(w & Hw & Hkw)]; [right|by left|right].
           ++ exists v. split; [left|done].
           ++ exists w. split; [by right|done].
        -- intros [Ht|(w & Hw & Hkw)]; [by left; right|].
           apply elem_of_cons in Hw as [->|Hw].
           ++ left. left. congruence.
           ++ right. by exists w.
    + assert (Hstep : types_in (<[k:=bump type v (default fresh_entry (schema !! k))]> schema) f
                      = types_in schema f).
      { unfold types_in. by rewrite lookup_insert_ne. }
      rewrite Hstep in IHnd, IHin. done.
Qed.

(** X7.  The [types] of a field of a returned schema list each kind once,
    and a kind is listed exactly when some value of the field in the sample
    has that kind. *)
Theorem generateSchema_types docs schema f info :
  generateSchema docs = Some schema → schema !! f = Some info →
  NoDup (types info)
  ∧ ∀ t, t ∈ types info ↔ ∃ v, v ∈ field_values f docs ∧ kind_of v = Some t.
Proof.
  intros Hs Hf. destruct (generateSchema_Some _ _ Hs) as (acc & Hacc & ->).
  destruct (forEach_visit_field_types _ _ _ Hacc f) as (Hnd & Hin).
  rewrite lookup_fmap in Hf. unfold types_in in Hnd, Hin.
  destruct (acc !! f) as [e|] eqn:He; [|done]. injection Hf as <-.
  rewrite lookup_empty in Hnd, Hin. cbn in Hnd, Hin |- *.
  rewrite occurrences_concat in Hin. split; [apply Hnd; constructor|].
  intros t. rewrite Hin. split; [|by right].
  intros [Ht|?]; [|done]. by apply elem_of_nil in Ht.
Qed.

Lemma occurrences_unique f (d : Document) :
  NoDup d.*1 → is_Some (get_field f d) → length (occurrences f d) = 1.
Proof.
  induction d as [|[k v] d IH]; cbn [get_field]; [by intros _ [? ?]|].
  rewrite fmap_cons. intros [Hk Hnd]%NoDup_cons Hsome. rewrite occurrences_cons.
  destruct (String.eqb_spec k f) as [->|Hne].
  - cbn. f_equal. destruct (occurrences f d) as [|w ws] eqn:Hocc; [done|].
    exfalso. apply Hk. apply list_elem_of_fmap. exists (f, w). split; [done|].
    apply elem_of_occurrences. rewrite Hocc. left.
  - cbn. by apply IH.
Qed.

(** X8.  In a sample of documents with distinct keys, a field that every
    document has is counted once per document, and, under a rounding that
    is exact on whole percentages, its presence is 100. *)
Theorem generateSchema_full_presence docs schema f :
  pct_exact →
  docs ≠ [] →
  Forall (λ d : Document, NoDup d.*1 ∧ is_Some (get_field f d)) docs →
  generateSchema docs = Some schema →
  ∃ info, schema !! f = Some info
          ∧ required info = length docs
          ∧ requiredPercentage info = 100%Z.
Proof.
  intros Hpct Hne Hall Hs.
  assert (Hlen : length (field_values f docs) = length docs).
  { clear Hs Hne. unfold field_values.
    induction Hall as [|d docs [Hnd Hsome] _ IH]; [done|].
    cbn. rewrite length_app, IH, occurrences_unique by done. done. }
  assert (Hin : is_Some (schema !! f)).
  { apply (generateSchema_fields _ _ _ Hs), field_values_nonempty.
    destruct docs; [done|]. by destruct (field_values f (l :: docs)). }
  destruct Hin as [info Hinfo]. exists info.
  destruct (generateSchema_presence _ _ _ _ Hs Hinfo) as (Hreq & _ & Hp & _).
  split_and!; [done|congruence|].
  rewrite Hp, Hreq, Hlen. apply (Hpct _ _ 100); [|lia..].
  destruct docs; [done|cbn; lia].
Qed.

End SchemaMore.

Lemma sample_ab_schema :
  ∃ schema info,
    @Schema.generateSchema (reference_runtime []) Schema.sample_ab = Some schema
    ∧ schema !! "a" = Some info.
Proof. eexists _, _. split; vm_compute; reflexivity. Qed.

Lemma generateSchema_presence_witness :
  ∃ schema info,
    @Schema.generateSchema (reference_runtime []) Schema.sample_ab = Some schema
    ∧ schema !! "a" = Some info
    ∧ Schema.required info = length (Schema.field_values "a" Schema.sample_ab)
    ∧ 0 < Schema.required info.
Proof.
  destruct sample_ab_schema as (schema & info & Hs & Hf).
  destruct (@generateSchema_presence (reference_runtime []) _ _ _ _ Hs Hf)
    as (Hreq & Hpos & _).
  by exists schema, info.
Defined.

Lemma generateSchema_fields_witness :
  ∃ schema,
    @Schema.generateSchema (reference_runtime []) Schema.sample_ab = Some schema
    ∧ (is_Some (schema !! "b") ↔ ∃ d v, d ∈ Schema.sample_ab ∧ ("b", v) ∈ d).
Proof.
  destruct sample_ab_schema as (schema & _ & Hs & _).
  exists schema. split; [exact Hs|].
  exact (@generateSchema_fields (reference_runtime []) _ _ "b" Hs).
Defined.

Lemma generateSchema_inherited_name_witness :
  @Schema.generateSchema (reference_runtime []) Schema.sample_inherited = None.
Proof.
  apply (@generateSchema_inherited_name (reference_runtime [])
           Schema.sample_inherited [("toString", JStr "x")] "toString" (JStr "x")).
  - unfold Schema.sample_inherited. set_solver.
  - set_solver.
  - reflexivity.
Defined.

Lemma generateSchema_types_witness :
  ∃ schema info,
    @Schema.generateSchema (reference_runtime []) Schema.sample_ab = Some schema
    ∧ schema !! "a" = Some info
    ∧ NoDup (Schema.types info).
Proof.
  destruct sample_ab_schema as (schema & info & Hs & Hf).
  destruct (@generateSchema_types (reference_runtime []) _ _ _ _ Hs Hf) as (Hnd & _).
  by exists schema, info.
Defined.

Lemma generateSchema_full_presence_witness :
  ∃ schema info,
    @Schema.generateSchema (reference_runtime []) Schema.sample_ab = Some schema
    ∧ schema !! "a" = Some info
    ∧ Schema.required info = 2
    ∧ Schema.requiredPercentage info = 100%Z.
Proof.
  destruct sample_ab_schema as (schema & _ & Hs & _).
  destruct (@generateSchema_full_presence (reference_runtime []) Schema.sample_ab
              schema "a" (round_half_up_pct_exact []))
    as (info & Hf & Hreq & Hp); [done| |exact Hs|].
  - unfold Schema.sample_ab. repeat constructor; cbn; eauto; set_solver.
  - by exists schema, info.
Defined.

(** ** Job tracker: creation, lookup, listing and deletion *)

Section TrackerMore.
Import Tracker.

Lemma get_clone_status_get jobId t t' :
  get jobId t' = get jobId t → get_clone_status jobId t' = get_clone_status jobId t.
Proof. unfold get_clone_status. by intros ->. Qed.


(** X10.  Deleting an identifier that is not held is answered 404 and
    changes nothing.  Deleting a held identifier is answered with success;
    afterwards its status is answered 404, the status of every other
    identifier is as before, and the job object itself is kept, so that an
    engine still running on it goes on undisturbed. *)
Theorem delete_job_spec jobId t :
  (cloningJobs t !! jobId = None →
     delete_job jobId t = (Rejected 404 "Job not found", t))
  ∧ (is_Some (cloningJobs t !! jobId) →
       let t' := (delete_job jobId t).2 in
       (delete_job jobId t).1 = JobDeleted
       ∧ get_clone_status jobId t' = Rejected 404 "Job not found"
       ∧ (∀ other, other ≠ jobId →
            get_clone_status other t' = get_clone_status other t)
       ∧ objects t' = objects t).
Proof.
  unfold delete_job. split.
  - by intros ->.
  - intros [ref ->]. cbn. split_and!; [done| |..|done].
    + unfold get_clone_status, get. cbn. by rewrite lookup_delete_eq.
    + intros other Hne. apply get_clone_status_get. unfold get. cbn.
      by rewrite lookup_delete_ne.
Qed.

(** X11.  The listing of a well-formed registry has one job for each
    identifier held, and a job is listed exactly when it is found under
    some identifier. *)
Theorem get_jobs_spec t :
  well_formed t →
  ∃ js, get_jobs t = JobList js
        ∧ length js = size (cloningJobs t)
        ∧ ∀ j, j ∈ js ↔ ∃ jobId, get jobId t = Some j.
Proof.
  intros Hwf. unfold get_jobs. eexists. split; [reflexivity|]. split.
  - rewrite <- (length_map_to_list (cloningJobs t)).
    assert (Hall : Forall (λ kv : string * nat, kv.2 < length (objects t))
                     (map_to_list (cloningJobs t))).
    { apply Forall_forall. intros [k ref] Hin%elem_of_map_to_list. by eapply Hwf. }
    induction Hall as [|[k ref] l Href _ IH]; [done|]. cbn in *.
    destruct (lookup_lt_is_Some_2 (objects t) ref Href) as [j ->]. cbn. by rewrite IH.
  - intros j. rewrite list_elem_of_omap. unfold get. split.
    + intros ([k ref] & Hin%elem_of_map_to_list & Hj). exists k. by rewrite Hin.
    + intros (k & Hk). destruct (cloningJobs t !! k) as [ref|] eqn:Href; [|done].
      exists (k, ref). split; [by apply elem_of_map_to_list|done].
Qed.

End TrackerMore.


Lemma delete_job_spec_witness :
  (Tracker.delete_job "1700000000000" Tracker.one_job_registry).1 = Tracker.JobDeleted
  ∧ Tracker.get_clone_status "1700000000000"
      (Tracker.delete_job "1700000000000" Tracker.one_job_registry).2
    = Tracker.Rejected 404 "Job not found"
  ∧ Tracker.delete_job "1" Tracker.empty_registry
    = (Tracker.Rejected 404 "Job not found", Tracker.empty_registry).
Proof.
  destruct (delete_job_spec "1700000000000" Tracker.one_job_registry) as [_ Hheld].
  destruct Hheld as (Hreply & Hgone & _).
  { vm_compute. eauto. }
  destruct (delete_job_spec "1" Tracker.empty_registry) as [Hnone _].
  split_and!; [exact Hreply|exact Hgone|].
  apply Hnone. reflexivity.
Defined.

Lemma get_jobs_spec_witness :
  ∃ js, Tracker.get_jobs Tracker.one_job_registry = Tracker.JobList js
        ∧ length js = size (Tracker.cloningJobs Tracker.one_job_registry).
Proof.
  destruct (get_jobs_spec Tracker.one_job_registry) as (js & Hjs & Hlen & _).
  - apply well_formed_post, well_formed_empty.
  - exists js. split; [exact Hjs|exact Hlen].
Defined.

(** ** Document routes: what they read, write and leave open *)

Section CrudMore.
Import Crud.
Context `{JSRuntime} `{Driver}.

Ltac route_cases :=
  repeat match goal with
         | |- context [if ?b then _ else _] => destruct b eqn:?
         | |- context [match ?x with _ => _ end] => destruct x eqn:?
         end.

(** X12.  Listing documents and getting a document never change the
    server, whatever the request and whatever the answer. *)
Theorem reads_never_write
    connectionString databaseName collectionName page limit filter documentId store :
  store_after (list_documents connectionString databaseName collectionName page
                 limit filter store) = store
  ∧ store_after (get_document connectionString databaseName collectionName
                   documentId store) = store.
Proof.
  split; unfold list_documents, get_document; route_cases; done.
Qed.


(** X14.  A create, update or delete request changes no collection other
    than the one its database and collection names resolve to. *)
Theorem other_collections_untouched
    connectionString databaseName collectionName document documentId updates store ns' :
  namespace databaseName collectionName ≠ inr ns' →
  store_after (create_document connectionString databaseName collectionName
                 document store) !! ns' = store !! ns'
  ∧ store_after (update_document connectionString databaseName collectionName
                   documentId updates store) !! ns' = store !! ns'
  ∧ store_after (delete_document connectionString databaseName collectionName
                   documentId store) !! ns' = store !! ns'.
Proof.
  intros Hns.
  split_and!; unfold create_document, update_document, delete_document;
    destruct (namespace databaseName collectionName) as [?|ns] eqn:Hn;
    route_cases; cbn; try done;
    apply lookup_insert_ne; congruence.
Qed.

(** X15.  Whenever a document route answers 200 or 404, the client it
    opened has been closed. *)
Theorem answered_requests_close_the_client
    connectionString databaseName collectionName page limit filter document
    documentId updates store :
  let closed o := code o = 200 ∨ code o = 404 → client_closed o = true in
  closed (list_documents connectionString databaseName collectionName page limit
            filter store)
  ∧ closed (create_document connectionString databaseName collectionName document
              store)
  ∧ closed (update_document connectionString databaseName collectionName documentId
              updates store)
  ∧ closed (delete_document connectionString databaseName collectionName documentId
              store)
  ∧ closed (get_document connectionString databaseName collectionName documentId
              store).
Proof.
  cbv zeta.
  split_and!; unfold list_documents, create_document, update_document,
    delete_document, get_document; route_cases; cbn; intros [?|?]; done.
Qed.

(** X16.  When the request is complete, the server is reached, the names
    resolve and the driver rejects the document identifier, the update,
    delete and get routes answer 400 without closing the client they
    opened. *)
Theorem rejected_identifier_leaves_client_open
    connectionString databaseName collectionName documentId updates store ns parsed e :
  truthy connectionString = true → truthy databaseName = true →
  truthy collectionName = true → truthy documentId = true → truthy updates = true →
  connect_error connectionString = None →
  namespace databaseName collectionName = inr ns →
  parse_payload updates = Some parsed →
  ObjectId_new documentId = inl e →
  client_closed (update_document connectionString databaseName collectionName
                   documentId updates store) = false
  ∧ client_closed (delete_document connectionString databaseName collectionName
                     documentId store) = false
  ∧ client_closed (get_document connectionString databaseName collectionName
                     documentId store) = false.
Proof.
  intros Hcs Hdb Hcoll Hid Hup Hconn Hns Hparse Hoid.
  unfold update_document, delete_document, get_document.
  by rewrite Hcs, Hdb, Hcoll, Hid, Hup, Hconn, Hns, Hparse, Hoid.
Qed.

Lemma deleteOne_spec oid c n c' :
  deleteOne oid c = (n, c') →
  (n = 0 ∧ c' = c ∧ Forall (λ d, has_id oid d = false) c)
  ∨ (n = 1 ∧ ∃ before d after,
       c = before ++ d :: after ∧ c' = before ++ after
       ∧ Forall (λ x, has_id oid x = false) before ∧ has_id oid d = true).
Proof.
  revert n c'. induction c as [|x c IH]; intros n c' Hdel; cbn in Hdel.
  - injection Hdel as <- <-. left. by split_and!.
  - destruct (has_id oid x) eqn:Hx.
    + injection Hdel as <- <-. right. split; [done|]. by exists [], x, c.
    + destruct (deleteOne oid c) as [m rest]. injection Hdel as <- <-.
      destruct (IH _ _ eq_refl) as [(-> & -> & Hall)|(-> & before & d & after & -> & -> & ? & ?)].
      * left. split_and!; [done|done|by constructor].
      * right. split; [done|]. exists (x :: before), d, after.
        split_and!; [done|done|by constructor|done].
Qed.

(** X17.  A delete answered 200 removed exactly one document, the first of
    the collection with the given identifier; the documents before and
    after it are kept, in order. *)
Theorem delete_removes_first_match
    connectionString databaseName collectionName documentId store :
  let o := delete_document connectionString databaseName collectionName documentId
             store in
  code o = 200 →
  ∃ ns oid before d after,
    namespace databaseName collectionName = inr ns
    ∧ ObjectId_new documentId = inr oid
    ∧ collection_of ns store = before ++ d :: after
    ∧ Forall (λ x, has_id oid x = false) before
    ∧ has_id oid d = true
    ∧ body o = Deleted 1
    ∧ store_after o = <[ns := before ++ after]> store.
Proof.
  intros o. unfold o, delete_document.
  destruct (_ || _); [done|].
  destruct (connect_error connectionString); [done|].
  destruct (namespace databaseName collectionName) as [?|ns]; [done|].
  destruct (ObjectId_new documentId) as [?|oid]; [done|].
  destruct (deleteOne oid (collection_of ns store)) as [n c'] eqn:Hdel.
  destruct (deleteOne_spec _ _ _ _ Hdel)
    as [(-> & _)|(-> & before & d & after & Hc & -> & Hb & Hd)]; [done|].
  cbn. intros _. by exists ns, oid, before, d, after.
Qed.

Lemma update_first_unmatched oid updates c modified c' :
  update_first oid updates c = inr (0, modified, c') →
  Forall (λ d, has_id oid d = false) c.
Proof.
  revert modified c'. induction c as [|x c IH]; intros modified c' Hup; cbn in Hup;
    [constructor|].
  destruct (has_id oid x) eqn:Hx.
  - destruct (apply_set updates x) as [x'|]; [|done]. by destruct (same_id x x').
  - destruct (update_first oid updates c) as [?|[[m n] rest]]; [done|].
    injection Hup as -> <- <-. constructor; [done|]. by eapply IH.
Qed.

Lemma findOne_None oid c :
  findOne oid c = None → Forall (λ d, has_id oid d = false) c.
Proof.
  unfold findOne. intros Hnone%fmap_None. apply Forall_forall. intros d Hd.
  eapply list_find_None in Hnone. eapply Forall_forall in Hnone; [|done].
  by destruct (has_id oid d).
Qed.

Lemma findOne_first oid before d after :
  Forall (λ x, has_id oid x = false) before → has_id oid d = true →
  findOne oid (before ++ d :: after) = Some d.
Proof.
  intros Hb Hd. unfold findOne.
  induction Hb as [|x before Hx _ IH]; cbn.
  - by rewrite decide_True.
  - rewrite decide_False by congruence.
    destruct (list_find _ (before ++ d :: after)) as [[i y]|]; [|done].
    cbn in *. by injection IH as ->.
Qed.

(** X18.  An update, delete or get answered 404 means that no document of
    the addressed collection has the given identifier; a get answered 200
    returns a document of that collection with the identifier. *)
Theorem not_found_means_absent
    connectionString databaseName collectionName documentId updates store :
  let absent o :=
    code o = 404 →
    ∃ ns oid, namespace databaseName collectionName = inr ns
              ∧ ObjectId_new documentId = inr oid
              ∧ Forall (λ d, has_id oid d = false) (collection_of ns store) in
  absent (update_document connectionString databaseName collectionName documentId
            updates store)
  ∧ absent (delete_document connectionString databaseName collectionName
              documentId store)
  ∧ absent (get_document connectionString databaseName collectionName documentId
              store)
  ∧ (code (get_document connectionString databaseName collectionName documentId
             store) = 200 →
     ∃ ns oid d, namespace databaseName collectionName = inr ns
                 ∧ ObjectId_new documentId = inr oid
                 ∧ body (get_document connectionString databaseName collectionName
                           documentId store) = Found d
                 ∧ d ∈ collection_of ns store ∧ has_id oid d = true).
Proof.
  cbv zeta. split_and!.
  - unfold update_document.
    destruct (_ || _); [done|].
    destruct (connect_error connectionString); [done|].
    destruct (namespace databaseName collectionName) as [?|ns]; [done|].
    destruct (parse_payload updates) as [parsed|]; [|done].
    destruct (ObjectId_new documentId) as [?|oid]; [done|].
    destruct (updateOne oid parsed (collection_of ns store))
      as [?|[[matched modified] c']] eqn:Hup; [done|].
    destruct (Nat.eqb_spec matched 0) as [->|Hm]; [|done]. intros _.
    exists ns, oid. split_and!; [done..|].
    unfold updateOne in Hup. destruct parsed; try done.
    destruct (negb _) in Hup; [done|]. destruct (negb _) in Hup; [done|].
    by eapply update_first_unmatched.
  - unfold delete_document.
    destruct (_ || _); [done|].
    destruct (connect_error connectionString); [done|].
    destruct (namespace databaseName collectionName) as [?|ns]; [done|].
    destruct (ObjectId_new documentId) as [?|oid]; [done|].
    destruct (deleteOne oid (collection_of ns store)) as [n c'] eqn:Hdel.
    destruct (deleteOne_spec _ _ _ _ Hdel) as [(-> & _ & Hall)|(-> & _)]; [|done].
    intros _. by exists ns, oid.
  - unfold get_document.
    destruct (_ || _); [done|].
    destruct (connect_error connectionString); [done|].
    destruct (namespace databaseName collectionName) as [?|ns]; [done|].
    destruct (ObjectId_new documentId) as [?|oid]; [done|].
    destruct (findOne oid (collection_of ns store)) eqn:Hfind; [done|].
    intros _. exists ns, oid. split_and!; [done..|]. by apply findOne_None.
  - unfold get_document.
    destruct (_ || _); [done|].
    destruct (connect_error connectionString); [done|].
    destruct (namespace databaseName collectionName) as [?|ns]; [done|].
    destruct (ObjectId_new documentId) as [?|oid]; [done|].
    destruct (findOne oid (collection_of ns store)) as [d|] eqn:Hfind; [|done].
    intros _. exists ns, oid, d. split_and!; [done..| |].
    + unfold findOne in Hfind. apply fmap_Some in Hfind as ([i y] & Hfind & ->).
      apply list_find_Some in Hfind as (Hi & _ & _). by eapply list_elem_of_lookup_2.
    + unfold findOne in Hfind. apply fmap_Some in Hfind as ([i y] & Hfind & ->).
      by apply list_find_Some in Hfind as (_ & Hy & _).
Qed.

End CrudMore.

Section CrudRoundTrips.
Import Crud.
Context `{JSRuntime} `{Driver}.

Lemma get_field_set_field_eq k v doc : get_field k (set_field k v doc) = Some v.
Proof.
  induction doc as [|[k' w] doc IH]; cbn.
  - by rewrite String.eqb_refl.
  - destruct (String.eqb_spec k' k) as [->|Hne]; cbn.
    + by rewrite String.eqb_refl.
    + destruct (String.eqb_spec k' k); [done|apply IH].
Qed.

(** A key without dots that passes the conflict check is written as a
    top-level field and not overwritten by the keys after it. *)
Lemma apply_set_plain_key fields : ∀ doc doc' key v,
  apply_set fields doc = Some doc' →
  no_conflicts (map (λ kv, split_path kv.1) fields) = true →
  (key, v) ∈ fields → split_path key = [key] →
  get_field key doc' = Some v.
Proof.
  induction fields as [|[k0 v0] fields IH]; intros doc doc' key v Happ Hnc Hin Hplain;
    [by apply elem_of_nil in Hin|].
  cbn in Happ, Hnc. apply andb_true_iff in Hnc as [Hhead Hnc].
  destruct (split_path k0) as [|h path] eqn:Hk0; [done|].
  destruct (set_path path v0 (get_field h doc)) as [child|] eqn:Hchild; [|done].
  apply elem_of_cons in Hin as [[= <- <-]|Hin].
  - rewrite Hplain in Hk0. injection Hk0 as <- <-. cbn in Hchild.
    injection Hchild as <-.
    rewrite (apply_set_frame _ _ _ key Happ); [apply get_field_set_field_eq|].
    intros Hmem. apply list_elem_of_fmap in Hmem as ([k' v'] & Hhd & Hk').
    rewrite forallb_forall in Hhead.
    specialize (Hhead (split_path k')).
    rewrite <- list_elem_of_In in Hhead.
    assert (Hc : negb (conflict [key] (split_path k')) = true).
    { apply Hhead. apply list_elem_of_fmap. by exists (k', v'). }
    cbn in Hhd. unfold path_head in Hhd.
    destruct (split_path k') as [|h' p'] eqn:Hsp; subst.
    + unfold conflict in Hc. rewrite (bool_decide_true ([] `prefix_of` [k'])) in Hc;
        [by rewrite orb_true_r in Hc|apply prefix_nil].
    + unfold conflict in Hc.
      rewrite (bool_decide_true ([h'] `prefix_of` h' :: p')) in Hc; [done|].
      by exists p'.
  - by eapply IH.
Qed.

(** X19.  After an update answered 200, getting the same identifier from
    the same collection is answered 200 with a document in which every
    dot-free key of the updates has the value it was given. *)
Theorem update_then_get
    connectionString databaseName collectionName documentId updates store :
  let o := update_document connectionString databaseName collectionName documentId
             updates store in
  code o = 200 →
  ∃ d', get_document connectionString databaseName collectionName documentId
          (store_after o)
        = respond 200 (Found d') (store_after o) true
        ∧ ∀ fields key v,
            parse_payload updates = Some (JObj fields) →
            (key, v) ∈ fields → split_path key = [key] →
            get_field key d' = Some v.
Proof.
  intros o. unfold o, update_document, get_document.
  destruct (truthy connectionString), (truthy databaseName),
    (truthy collectionName), (truthy documentId); cbn [negb orb]; try done.
  destruct (truthy updates); cbn [negb orb]; [|done].
  destruct (connect_error connectionString); [done|].
  destruct (namespace databaseName collectionName) as [?|ns]; [done|].
  destruct (parse_payload updates) as [parsed|]; [|done].
  destruct (ObjectId_new documentId) as [?|oid]; [done|].
  destruct (updateOne oid parsed (collection_of ns store))
    as [?|[[matched modified] c']] eqn:Hup; [done|].
  destruct (Nat.eqb_spec matched 0) as [|Hm]; [done|]. cbn [code store_after respond].
  intros _.
  unfold updateOne in Hup. destruct parsed as [| | | | | |fields| |]; try done.
  destruct (negb _) in Hup; [done|].
  destruct (negb (no_conflicts _)) eqn:Hnc in Hup; [done|].
  apply negb_false_iff in Hnc.
  destruct (update_first_Some _ _ _ _ _ _ Hup Hm)
    as (before & d & d' & after & Hc & -> & Hbefore & Hid & Happ & Hsame).
  exists d'. split.
  - unfold collection_of at 1. rewrite lookup_insert_eq. cbn [default id].
    rewrite findOne_first; [done|done|].
    unfold has_id in *. by rewrite (same_id_eq _ _ Hsame).
  - intros fields' key v [= <-] Hin Hplain. by eapply apply_set_plain_key.
Qed.

(** X20.  After a delete answered 200, in a collection where at most one
    document has the identifier, getting that identifier is answered 404. *)
Theorem delete_then_get
    connectionString databaseName collectionName documentId store :
  let o := delete_document connectionString databaseName collectionName documentId
             store in
  (∀ ns oid, namespace databaseName collectionName = inr ns →
             ObjectId_new documentId = inr oid →
             unique_id oid (collection_of ns store)) →
  code o = 200 →
  code (get_document connectionString databaseName collectionName documentId
          (store_after o)) = 404.
Proof.
  intros o Huniq. unfold o, delete_document, get_document.
  destruct (_ || _); [done|].
  destruct (connect_error connectionString); [done|].
  destruct (namespace databaseName collectionName) as [?|ns]; [done|].
  destruct (ObjectId_new documentId) as [?|oid]; [done|].
  specialize (Huniq ns oid eq_refl eq_refl).
  destruct (deleteOne oid (collection_of ns store)) as [n c'] eqn:Hdel.
  destruct (deleteOne_spec _ _ _ _ Hdel)
    as [(-> & _)|(-> & before & d & after & Hc & -> & Hb & Hd)]; [done|].
  cbn [Nat.eqb code store_after respond]. intros _.
  unfold collection_of at 1. rewrite lookup_insert_eq. cbn [default id].
  destruct (findOne oid (before ++ after)) as [x|] eqn:Hfind; [exfalso|done].
  unfold findOne in Hfind. apply fmap_Some in Hfind as ([i y] & Hfind & ->).
  apply list_find_Some in Hfind as (Hi & Hy & _). cbn in Hy.
  rewrite Hc in Huniq.
  apply lookup_app_Some in Hi as [Hi|[Hlen Hi]].
  - eapply Forall_forall in Hb; [|by eapply list_elem_of_lookup_2]. congruence.
  - assert (length before = S (i - length before + length before)); [|lia].
    apply (Huniq _ _ d y); [| |done|done].
    + by rewrite lookup_app_r, Nat.sub_diag.
    + rewrite lookup_app_r by lia.
      by replace (S (i - length before + length before) - length before)
        with (S (i - length before)) by lia.
Qed.

(** X21.  A request in which a required field is missing or falsy is
    answered 400 with an [error] body before any client is opened, and
    changes nothing. *)
Theorem missing_field_is_rejected
    connectionString databaseName collectionName page limit filter document
    documentId updates store :
  let rejected o :=
    code o = 400 ∧ (∃ message, body o = Error message)
    ∧ store_after o = store ∧ client_closed o = true in
  (truthy connectionString = false ∨ truthy databaseName = false
   ∨ truthy collectionName = false →
     rejected (list_documents connectionString databaseName collectionName page
                 limit filter store))
  ∧ (truthy connectionString = false ∨ truthy databaseName = false
     ∨ truthy collectionName = false ∨ truthy document = false →
       rejected (create_document connectionString databaseName collectionName
                   document store))
  ∧ (truthy connectionString = false ∨ truthy databaseName = false
     ∨ truthy collectionName = false ∨ truthy documentId = false
     ∨ truthy updates = false →
       rejected (update_document connectionString databaseName collectionName
                   documentId updates store))
  ∧ (truthy connectionString = false ∨ truthy databaseName = false
     ∨ truthy collectionName = false ∨ truthy documentId = false →
       rejected (delete_document connectionString databaseName collectionName
                   documentId store)
       ∧ rejected (get_document connectionString databaseName collectionName
                     documentId store)).
Proof.
  cbv zeta.
  split_and!; intros Hmissing;
    unfold list_documents, create_document, update_document, delete_document,
      get_document;
    repeat match goal with
           | H : _ ∨ _ |- _ => destruct H as [H|H]
           end;
    rewrite Hmissing; cbn [negb]; rewrite ?orb_true_r; cbn [orb];
    repeat split; eauto.
Qed.

End CrudRoundTrips.

(** *** The document routes on the sample server *)


Lemma other_collections_untouched_witness :
  Crud.store_after
    (@Crud.update_document (reference_runtime []) Crud.reference_driver
       (JStr "mongodb://host/") (JStr "shop") (JStr "users")
       (JStr "0123456789abcdef01234567") (JObj [("age", JNum 37)])
       Crud.sample_store) !! ("shop", "orders")
  = Crud.sample_store !! ("shop", "orders").
Proof.
  destruct (@other_collections_untouched (reference_runtime []) Crud.reference_driver
              (JStr "mongodb://host/") (JStr "shop") (JStr "users") JNull
              (JStr "0123456789abcdef01234567") (JObj [("age", JNum 37)])
              Crud.sample_store ("shop", "orders")) as (_ & Hup & _).
  - cbn. discriminate.
  - exact Hup.
Defined.

Lemma answered_requests_close_the_client_witness :
  let o := @Crud.get_document Crud.reference_driver (JStr "mongodb://host/")
             (JStr "shop") (JStr "users") (JStr "0123456789abcdef01234569")
             Crud.sample_store in
  Crud.code o = 404 ∧ Crud.client_closed o = true.
Proof.
  cbv zeta.
  assert (Hcode : Crud.code (@Crud.get_document Crud.reference_driver
             (JStr "mongodb://host/") (JStr "shop") (JStr "users")
             (JStr "0123456789abcdef01234569") Crud.sample_store) = 404)
    by (vm_compute; reflexivity).
  split; [exact Hcode|].
  pose proof (@answered_requests_close_the_client (reference_runtime [])
                Crud.reference_driver (JStr "mongodb://host/") (JStr "shop")
                (JStr "users") JNull JNull JNull JNull
                (JStr "0123456789abcdef01234569") JNull Crud.sample_store) as Hall.
  cbv zeta in Hall. destruct Hall as (_ & _ & _ & _ & Hget).
  apply Hget. by right.
Defined.

Lemma rejected_identifier_leaves_client_open_witness :
  Crud.client_closed
    (@Crud.get_document Crud.reference_driver (JStr "mongodb://host/")
       (JStr "shop") (JStr "users") (JStr "not-an-object-id") Crud.sample_store)
  = false.
Proof.
  destruct (@rejected_identifier_leaves_client_open (reference_runtime [])
              Crud.reference_driver (JStr "mongodb://host/") (JStr "shop")
              (JStr "users") (JStr "not-an-object-id") (JObj [("age", JNum 37)])
              Crud.sample_store ("shop", "users") (JObj [("age", JNum 37)])
              "input must be a 24 character hex string, 12 byte Uint8Array, or an integer"
              eq_refl eq_refl eq_refl eq_refl eq_refl eq_refl eq_refl eq_refl eq_refl)
    as (_ & _ & Hget).
  exact Hget.
Defined.

Lemma delete_removes_first_match_witness :
  let o := @Crud.delete_document Crud.reference_driver (JStr "mongodb://host/")
             (JStr "shop") (JStr "users") (JStr "0123456789abcdef01234567")
             Crud.sample_store in
  Crud.code o = 200 ∧ Crud.body o = Crud.Deleted 1.
Proof.
  cbv zeta.
  assert (Hcode : Crud.code (@Crud.delete_document Crud.reference_driver
             (JStr "mongodb://host/") (JStr "shop") (JStr "users")
             (JStr "0123456789abcdef01234567") Crud.sample_store) = 200)
    by (vm_compute; reflexivity).
  split; [exact Hcode|].
  pose proof (@delete_removes_first_match Crud.reference_driver
                (JStr "mongodb://host/") (JStr "shop") (JStr "users")
                (JStr "0123456789abcdef01234567") Crud.sample_store) as Hdel.
  cbv zeta in Hdel.
  destruct (Hdel Hcode) as (ns & oid & before & d & after & _ & _ & _ & _ & _ & Hbody & _).
  exact Hbody.
Defined.

Lemma not_found_means_absent_witness :
  let o := @Crud.get_document Crud.reference_driver (JStr "mongodb://host/")
             (JStr "shop") (JStr "users") (JStr "0123456789abcdef01234569")
             Crud.sample_store in
  Crud.code o = 404
  ∧ ∃ ns oid, @Crud.namespace Crud.reference_driver (JStr "shop") (JStr "users") = inr ns
              ∧ @Crud.ObjectId_new Crud.reference_driver
                  (JStr "0123456789abcdef01234569") = inr oid
              ∧ Forall (λ d, Crud.has_id oid d = false)
                  (Crud.collection_of ns Crud.sample_store).
Proof.
  cbv zeta.
  assert (Hcode : Crud.code (@Crud.get_document Crud.reference_driver
             (JStr "mongodb://host/") (JStr "shop") (JStr "users")
             (JStr "0123456789abcdef01234569") Crud.sample_store) = 404)
    by (vm_compute; reflexivity).
  split; [exact Hcode|].
  pose proof (@not_found_means_absent (reference_runtime []) Crud.reference_driver
                (JStr "mongodb://host/") (JStr "shop") (JStr "users")
                (JStr "0123456789abcdef01234569") JNull Crud.sample_store) as Hall.
  cbv zeta in Hall. destruct Hall as (_ & _ & Hget & _).
  exact (Hget Hcode).
Defined.

Lemma update_then_get_witness :
  let o := @Crud.update_document (reference_runtime []) Crud.reference_driver
             (JStr "mongodb://host/") (JStr "shop") (JStr "users")
             (JStr "0123456789abcdef01234567") (JObj [("age", JNum 37)])
             Crud.sample_store in
  ∃ d', @Crud.get_document Crud.reference_driver (JStr "mongodb://host/")
          (JStr "shop") (JStr "users") (JStr "0123456789abcdef01234567")
          (Crud.store_after o)
        = Crud.respond 200 (Crud.Found d') (Crud.store_after o) true
        ∧ get_field "age" d' = Some (JNum 37).
Proof.
  cbv zeta.
  pose proof (@update_then_get (reference_runtime []) Crud.reference_driver
                (JStr "mongodb://host/") (JStr "shop") (JStr "users")
                (JStr "0123456789abcdef01234567") (JObj [("age", JNum 37)])
                Crud.sample_store) as Hup.
  cbv zeta in Hup.
  destruct Hup as (d' & Hget & Hfields); [vm_compute; reflexivity|].
  exists d'. split; [exact Hget|].
  apply (Hfields [("age", JNum 37)] "age" (JNum 37)); [reflexivity|left|reflexivity].
Defined.

Lemma sample_users_unique_id ns oid :
  @Crud.namespace Crud.reference_driver (JStr "shop") (JStr "users") = inr ns →
  @Crud.ObjectId_new Crud.reference_driver (JStr "0123456789abcdef01234567") = inr oid →
  Crud.unique_id oid (Crud.collection_of ns Crud.sample_store).
Proof.
  intros [= <-] [= <-].
  assert (Hc : Crud.collection_of ("shop", "users") Crud.sample_store
               = [ [("_id", JObjectId "0123456789abcdef01234567"); ("name", JStr "Ada");
                    ("age", JNum 36)];
                   [("_id", JObjectId "0123456789abcdef01234568"); ("name", JStr "Bob")] ])
    by (vm_compute; reflexivity).
  rewrite Hc. intros [|[|i]] [|[|j]] d1 d2 H1 H2 Hd1 Hd2; cbn in H1, H2; try done;
    injection H1 as <-; injection H2 as <-; vm_compute in Hd1, Hd2; done.
Qed.

Lemma delete_then_get_witness :
  let o := @Crud.delete_document Crud.reference_driver (JStr "mongodb://host/")
             (JStr "shop") (JStr "users") (JStr "0123456789abcdef01234567")
             Crud.sample_store in
  Crud.code (@Crud.get_document Crud.reference_driver (JStr "mongodb://host/")
               (JStr "shop") (JStr "users") (JStr "0123456789abcdef01234567")
               (Crud.store_after o)) = 404.
Proof.
  cbv zeta.
  pose proof (@delete_then_get Crud.reference_driver
                (JStr "mongodb://host/") (JStr "shop") (JStr "users")
                (JStr "0123456789abcdef01234567") Crud.sample_store) as Hdel.
  cbv zeta in Hdel. apply Hdel; [exact sample_users_unique_id|].
  vm_compute. reflexivity.
Defined.

Lemma missing_field_is_rejected_witness :
  let o := @Crud.create_document (reference_runtime []) Crud.reference_driver
             (JStr "") (JStr "shop") (JStr "users") (JObj []) Crud.sample_store in
  Crud.code o = 400 ∧ Crud.store_after o = Crud.sample_store
  ∧ Crud.client_closed o = true.
Proof.
  cbv zeta.
  pose proof (@missing_field_is_rejected (reference_runtime []) Crud.reference_driver
                (JStr "") (JStr "shop") (JStr "users") JNull JNull JNull (JObj [])
                JNull JNull Crud.sample_store) as Hall.
  cbv zeta in Hall. destruct Hall as (_ & Hcreate & _).
  destruct Hcreate as (Hcode & _ & Hstore & Hclosed); [by left|].
  split_and!; [exact Hcode|exact Hstore|exact Hclosed].
Defined.

(** ** Clone engine: what every step keeps *)

Section EnginePreserves.
Import Engine.
Local Open Scope engine_scope.

Lemma preserves_ret {A} I (a : A) : preserves I (ret a).
Proof. by intros r. Qed.

Lemma preserves_throw {A} I e : preserves I (@throw A e).
Proof. by intros r. Qed.

Lemma preserves_bind {A B} I (m : M A) (k : A → M B) :
  preserves I m → (∀ a, preserves I (k a)) → preserves I (bind m k).
Proof.
  intros Hm Hk r Hr. specialize (Hm r Hr). unfold bind.
  destruct (m r) as [r' [e|a]]; [done|]. by apply Hk.
Qed.

Lemma preserves_try_catch {A} I (body : M A) handler :
  preserves I body → (∀ e, preserves I (handler e)) →
  preserves I (try_catch body handler).
Proof.
  intros Hm Hk r Hr. specialize (Hm r Hr). unfold try_catch.
  destruct (body r) as [r' [e|a]]; [|done]. by apply Hk.
Qed.

Lemma preserves_try_finally {A} I (body : M A) finalizer :
  preserves I body → preserves I finalizer →
  preserves I (try_finally body finalizer).
Proof.
  intros Hm Hf r Hr. specialize (Hm r Hr). unfold try_finally.
  destruct (body r) as [r' res]. specialize (Hf r' Hm).
  by destruct (finalizer r') as [r'' [e|a]].
Qed.

Lemma preserves_for_of {A} I (xs : list A) body :
  (∀ x, preserves I (body x)) → preserves I (for_of xs body).
Proof.
  intros Hbody. induction xs as [|x xs IH]; cbn [for_of].
  - apply preserves_ret.
  - apply preserves_bind; [apply Hbody|done].
Qed.

Lemma preserves_update I f :
  (∀ r, I r → I (with_job f r)) → preserves I (update f).
Proof. intros Hf r Hr. by apply Hf. Qed.

Lemma preserves_emit I ev :
  (∀ r, I r → I (with_event ev r)) → preserves I (emit ev).
Proof. intros Hf r Hr. by apply Hf. Qed.

Lemma preserves_await I oracle op :
  (∀ outcome r, I r → I (performed op outcome r)) → preserves I (await oracle op).
Proof.
  intros Hp r Hr. unfold await.
  destruct (oracle (length (log r)) op); by apply Hp.
Qed.

Lemma preserves_close I side :
  (∀ outcome r, I r → I (performed (OpClose side) outcome r)) →
  preserves I (close side).
Proof. intros Hp r Hr. by apply Hp. Qed.

Lemma grows_refl j : grows j j.
Proof. by repeat split. Qed.

Lemma grows_trans j1 j2 j3 : grows j1 j2 → grows j2 j3 → grows j1 j3.
Proof.
  intros (? & ? & ? & ? & ?) (? & ? & ? & ? & ?).
  repeat split; try congruence; try lia. by etrans.
Qed.

Lemma Steady_update j0 f r :
  grows (job r) (f (job r)) → Steady j0 r → Steady j0 (with_job f r).
Proof.
  intros Hf [Hs Hb]. split; [done|]. cbn [job with_job history].
  eapply Forall_impl; [exact Hb|]. intros j Hj. exact (grows_trans _ _ _ Hj Hf).
Qed.

Lemma Steady_performed j0 op outcome r : Steady j0 r → Steady j0 (performed op outcome r).
Proof.
  intros [Hs Hb]. split; cbn [job performed history].
  - rewrite app_comm_cons. apply StronglySorted_app_2; [|done|repeat constructor].
    intros j1 j2 Hj1 ->%list_elem_of_singleton.
    rewrite Forall_forall in Hb. by apply Hb.
  - rewrite app_comm_cons. apply Forall_app. split; [done|].
    repeat constructor; apply grows_refl.
Qed.

Lemma Steady_event j0 ev r : Steady j0 r → Steady j0 (with_event ev r).
Proof. by intros [Hs Hb]. Qed.

Lemma Steady_client j0 side r : Steady j0 r → Steady j0 (with_client side r).
Proof. by intros [Hs Hb]. Qed.

Ltac steady_update :=
  apply preserves_update; intros ? ?; apply Steady_update; [|assumption];
  repeat split; cbn; try reflexivity; try lia; try apply prefix_app_r; done.

Ltac steady_with tac :=
  repeat first
    [ tac
    | apply preserves_bind; [|intros ?]
    | apply preserves_try_catch; [|intros ?]
    | apply preserves_ret
    | apply preserves_throw
    | steady_update
    | apply preserves_await; intros ? ? ?; apply Steady_performed; assumption
    | apply preserves_emit; intros ? ?; apply Steady_event; assumption ].

Ltac steady := steady_with fail.

Section WithWorld.
Context `{JSRuntime}.
Variable oracle : Oracle.
Variable clock : nat → Z.
Variable source : list SourceCollection.
Variable j0 : Job.

Lemma connectToMongoDB_steady side cs :
  preserves (Steady j0) (connectToMongoDB oracle side cs).
Proof.
  unfold connectToMongoDB. steady.
  intros r Hr. by apply Steady_client.
Qed.

Lemma count_documents_steady cols : ∀ n,
  preserves (Steady j0) (count_documents oracle source cols n).
Proof. induction cols as [|c cols IH]; intros n; cbn [count_documents]; steady. apply IH. Qed.

Lemma clone_collection_steady c :
  preserves (Steady j0) (clone_collection oracle source c).
Proof.
  unfold clone_collection. cbv zeta. steady.
  - case_bool_decide; [|steady]. apply preserves_for_of. intros j.
    unfold insert_batch. cbv zeta. steady. intros r Hr. exact Hr.
  - apply preserves_for_of. intros ix. unfold copy_index.
    case_bool_decide; steady.
Qed.

Lemma clone_finally_steady : preserves (Steady j0) clone_finally.
Proof.
  unfold clone_finally. apply preserves_bind; [|intros _].
  - intros r Hr. destruct (sourceClient r); [|done]. by apply Steady_performed.
  - intros r Hr. destruct (targetClient r); [|done]. by apply Steady_performed.
Qed.

Lemma cloneDatabase_steady sourceConnection targetConnection databaseName :
  preserves (Steady j0)
    (cloneDatabase oracle clock source sourceConnection targetConnection databaseName).
Proof.
  unfold cloneDatabase. apply preserves_try_finally; [|apply clone_finally_steady].
  apply preserves_try_catch.
  - unfold clone_body. cbv zeta.
    steady_with ltac:(first [ apply connectToMongoDB_steady
                            | apply count_documents_steady ]).
    + apply preserves_for_of. intros c. apply clone_collection_steady.
    + intros r Hr. exact Hr.
  - intros e. unfold clone_failed. steady. intros r Hr. exact Hr.
Qed.

End WithWorld.

Section WithRun.
Context `{JSRuntime}.
Variable oracle : Oracle.
Variable clock : nat → Z.
Variable source : list SourceCollection.

Lemma observations_grow jobId now sourceConnection targetConnection databaseName :
  StronglySorted grows
    (new_job jobId now
       :: observations (run_clone oracle clock source jobId now sourceConnection
                          targetConnection databaseName)).
Proof.
  destruct (cloneDatabase_steady oracle clock source (new_job jobId now)
              sourceConnection targetConnection databaseName
              (initial_run (new_job jobId now))) as [Hs Hb].
  { split; cbn; repeat constructor; apply grows_refl. }
  unfold run_clone, observations. rewrite app_comm_cons.
  apply StronglySorted_app_2; [|done|repeat constructor].
  intros j1 j2 Hj1 ->%list_elem_of_singleton.
  rewrite Forall_forall in Hb. by apply Hb.
Qed.

(** X22.  The identifier and the start time of a job are those it was
    created with, at every observation of its run. *)
Theorem job_identity_is_fixed jobId now sourceConnection targetConnection databaseName j :
  j ∈ observations (run_clone oracle clock source jobId now sourceConnection
                      targetConnection databaseName) →
  job_id j = jobId ∧ startTime j = now.
Proof.
  intros Hj.
  pose proof (observations_grow jobId now sourceConnection targetConnection databaseName)
    as Hs.
  apply StronglySorted_inv in Hs as [_ Hall].
  rewrite Forall_forall in Hall. by destruct (Hall j Hj) as (-> & -> & _).
Qed.

(** X23.  Over the observations of a run the counters of processed
    documents and processed collections never decrease, and messages are
    only ever appended to the errors of the job: an earlier list of errors
    is a prefix of a later one. *)
Theorem counters_never_decrease jobId now sourceConnection targetConnection databaseName
    i k a b :
  let obs := observations (run_clone oracle clock source jobId now sourceConnection
                             targetConnection databaseName) in
  i < k → obs !! i = Some a → obs !! k = Some b →
  processedDocuments a ≤ processedDocuments b
  ∧ processedCollections a ≤ processedCollections b
  ∧ errors a `prefix_of` errors b.
Proof.
  intros obs Hik Ha Hb.
  pose proof (observations_grow jobId now sourceConnection targetConnection databaseName)
    as Hs.
  apply StronglySorted_inv in Hs as [Hs _].
  by destruct (StronglySorted_lookup _ _ _ _ _ _ Hs Hik Ha Hb) as (_ & _ & ? & ? & ?).
Qed.

End WithRun.
End EnginePreserves.

(** ** Clone engine: what a run writes to the target *)

Section EngineWrites.
Import Engine.
Local Open Scope engine_scope.

Lemma writes_app l1 l2 : writes (l1 ++ l2) = writes l1 ++ writes l2.
Proof. apply omap_app. Qed.

Lemma writes_exactly_ret {A} (a : A) : writes_exactly (ret a) [].
Proof. intros r. unfold wp, ret. by rewrite app_nil_r. Qed.

Lemma writes_exactly_throw {A} e ops : writes_exactly (@throw A e) ops.
Proof.
  intros r. unfold wp, throw. exists []. split; [apply prefix_nil|by rewrite app_nil_r].
Qed.

Lemma writes_exactly_bind {A B} (m : M A) (k : A → M B) ops1 ops2 :
  writes_exactly m ops1 → (∀ a, writes_exactly (k a) ops2) →
  writes_exactly (bind m k) (ops1 ++ ops2).
Proof.
  intros Hm Hk r. specialize (Hm r). unfold wp, bind in *.
  destruct (m r) as [r' [e|a]].
  - destruct Hm as (ops' & Hp & Hw). exists ops'.
    split; [by apply prefix_app_r|done].
  - destruct Hm as [Hw Hn]. specialize (Hk a r'). unfold wp in Hk.
    destruct (k a r') as [r'' [e|b]].
    + destruct Hk as (ops' & Hp & Hw'). exists (ops1 ++ ops').
      split; [by apply prefix_app|]. by rewrite Hw', Hw, (assoc_L (++)).
    + destruct Hk as [Hw' Hn']. split; [|auto].
      by rewrite Hw', Hw, (assoc_L (++)).
Qed.

Lemma writes_exactly_silent {A B} (m : M A) (k : A → M B) ops :
  writes_exactly m [] → (∀ a, writes_exactly (k a) ops) →
  writes_exactly (bind m k) ops.
Proof. intros Hm Hk. by apply (writes_exactly_bind m k [] ops). Qed.

Lemma writes_exactly_update f : writes_exactly (update f) [].
Proof. intros r. unfold wp, update. cbn. by rewrite app_nil_r. Qed.

Lemma writes_exactly_get_job : writes_exactly get_job [].
Proof. intros r. unfold wp, get_job. by rewrite app_nil_r. Qed.

Lemma writes_exactly_Date_now clock : writes_exactly (Date_now clock) [].
Proof. intros r. unfold wp, Date_now. by rewrite app_nil_r. Qed.

Lemma writes_exactly_emit processed total :
  writes_exactly (emit (Divided processed total)) [].
Proof.
  intros r. unfold wp, emit. cbn. rewrite writes_app. split; [done|].
  intros Hn. apply Forall_app. split; [done|by repeat constructor].
Qed.

Lemma writes_exactly_await oracle op :
  writes_exactly (await oracle op) (if is_write op then [op] else []).
Proof.
  intros r. unfold wp, await.
  destruct (oracle (length (log r)) op) as [e|]; cbn; rewrite writes_app; cbn.
  - exists (if is_write op then [op] else []). split; [done|].
    by destruct (is_write op).
  - split; [by destruct (is_write op)|].
    intros Hn. apply Forall_app. split; [done|].
    repeat constructor. by destruct op.
Qed.

Lemma writes_exactly_caught oracle op handler :
  (∀ e, is_failed_insert (Called op (Some e)) = false) →
  (∀ e, writes_exactly (handler e) []) →
  writes_exactly (try_catch (await oracle op) handler)
    (if is_write op then [op] else []).
Proof.
  intros Hop Hh r. unfold wp, try_catch, await.
  destruct (oracle (length (log r)) op) as [e|]; cbn.
  - specialize (Hh e (performed op (Some e) r)). unfold wp in Hh.
    destruct (handler e _) as [r' [e'|[]]].
    + destruct Hh as (ops' & ->%prefix_nil_inv & Hw). rewrite app_nil_r in Hw.
      exists (if is_write op then [op] else []). split; [done|].
      rewrite Hw. cbn. rewrite writes_app. cbn. by destruct (is_write op).
    + destruct Hh as [Hw Hn]. rewrite app_nil_r in Hw. rewrite Hw. cbn.
      rewrite writes_app. cbn. split; [by destruct (is_write op)|].
      intros Hr. apply Hn. cbn. apply Forall_app. split; [done|].
      repeat constructor. apply Hop.
  - rewrite writes_app. cbn. split; [by destruct (is_write op)|].
    intros Hn. apply Forall_app. split; [done|].
    repeat constructor. by destruct op.
Qed.

Lemma writes_exactly_for_of {A} (xs : list A) body (f : A → list Op) :
  (∀ x, writes_exactly (body x) (f x)) →
  writes_exactly (for_of xs body) (concat (map f xs)).
Proof.
  intros Hbody. induction xs as [|x xs IH]; cbn [for_of map concat].
  - apply writes_exactly_ret.
  - apply writes_exactly_bind; [apply Hbody|done].
Qed.

Lemma concat_map_singleton {A B} (f : A → B) (xs : list A) :
  concat (map (λ x, [f x]) xs) = map f xs.
Proof. induction xs as [|x xs IH]; cbn; by rewrite ?IH. Qed.

Lemma concat_map_if {A B} (P : A → Prop) `{!∀ x, Decision (P x)} (f : A → B) xs :
  concat (map (λ x, if bool_decide (P x) then [f x] else []) xs) = map f (filter P xs).
Proof.
  induction xs as [|x xs IH]; [done|]. cbn [map concat]. rewrite IH, filter_cons.
  case_bool_decide; by destruct (decide (P x)).
Qed.

Ltac silent_step :=
  first
    [ apply writes_exactly_update
    | apply writes_exactly_get_job
    | apply writes_exactly_emit
    | apply writes_exactly_Date_now
    | apply writes_exactly_ret ].

Ltac silent :=
  repeat first
    [ silent_step
    | apply writes_exactly_silent; [solve [silent_step]|intros ?] ].

Section WithWorld.
Context `{JSRuntime}.
Variable oracle : Oracle.
Variable clock : nat → Z.
Variable source : list SourceCollection.

Lemma connectToMongoDB_writes side cs :
  writes_exactly (connectToMongoDB oracle side cs) [].
Proof.
  intros r. unfold wp, connectToMongoDB, try_catch, bind, await, throw.
  destruct (oracle (length (log r)) _) as [e|]; cbn; rewrite writes_app; cbn.
  - exists []. by rewrite !app_nil_r.
  - rewrite !app_nil_r. split; [done|]. intros Hn.
    apply Forall_app. split; [done|by repeat constructor].
Qed.

Lemma count_documents_writes cols : ∀ n,
  writes_exactly (count_documents oracle source cols n) [].
Proof.
  induction cols as [|c cols IH]; intros n; cbn [count_documents].
  - apply writes_exactly_ret.
  - apply writes_exactly_silent; [apply (writes_exactly_await oracle (OpCountDocuments _))|].
    intros _. apply IH.
Qed.

Lemma insert_batch_writes name documents j :
  writes_exactly (insert_batch oracle name documents j)
    [OpInsertMany name (slice j (j + batchSize) documents)].
Proof.
  unfold insert_batch. cbv zeta.
  rewrite <- (app_nil_r [OpInsertMany _ _]).
  apply writes_exactly_bind; [apply (writes_exactly_await oracle (OpInsertMany _ _))|].
  intros _. silent.
Qed.

Lemma copy_index_writes name ix :
  writes_exactly (copy_index oracle name ix)
    (if bool_decide (ix_name ix ≠ "_id_")
     then [OpCreateIndex name (ix_key ix) (("key", JObj (ix_key ix)) :: ix_options ix)]
     else []).
Proof.
  unfold copy_index. case_bool_decide; [|apply writes_exactly_ret]. cbv zeta.
  apply (writes_exactly_caught oracle (OpCreateIndex _ _ _)); [done|].
  intros e. apply writes_exactly_update.
Qed.

Lemma offsets_from_0_0 : offsets_from 0 0 = [].
Proof. by simp offsets_from. Qed.

Lemma clone_collection_writes c :
  writes_exactly (clone_collection oracle source c) (collection_plan source c).
Proof.
  unfold clone_collection, collection_plan. cbv zeta. silent.
  change (OpDrop (col_name c) :: ?l) with ([OpDrop (col_name c)] ++ l).
  apply writes_exactly_bind.
  { apply (writes_exactly_caught oracle (OpDrop _)); [done|].
    intros _. apply writes_exactly_ret. }
  intros _.
  apply writes_exactly_silent; [apply (writes_exactly_await oracle (OpFind _))|].
  intros _. apply writes_exactly_bind.
  { unfold batches. rewrite <- concat_map_singleton, map_map.
    case_bool_decide as Hlen.
    - apply writes_exactly_for_of. intros j. apply insert_batch_writes.
    - replace (length _) with 0 by lia. rewrite offsets_from_0_0.
      apply writes_exactly_ret. }
  intros _.
  apply writes_exactly_silent; [apply (writes_exactly_await oracle (OpListIndexes _))|].
  intros _. rewrite <- (app_nil_r (index_plan _ _)).
  apply writes_exactly_bind; [|intros _; apply writes_exactly_update].
  unfold index_plan. rewrite <- concat_map_if.
  apply writes_exactly_for_of. intros ix. apply copy_index_writes.
Qed.

Lemma clone_body_writes sourceConnection targetConnection databaseName :
  writes_exactly (clone_body oracle clock source sourceConnection targetConnection
                    databaseName)
    (clone_plan source).
Proof.
  unfold clone_body, clone_plan. cbv zeta.
  do 2 (apply writes_exactly_silent; [apply writes_exactly_update|intros _]).
  do 2 (apply writes_exactly_silent; [apply connectToMongoDB_writes|intros _]).
  do 2 (apply writes_exactly_silent; [apply writes_exactly_update|intros _]).
  apply writes_exactly_silent; [apply (writes_exactly_await oracle OpListCollections)|].
  intros _.
  do 2 (apply writes_exactly_silent; [apply writes_exactly_update|intros _]).
  apply writes_exactly_silent; [apply count_documents_writes|intros totalDocs].
  do 3 (apply writes_exactly_silent; [apply writes_exactly_update|intros _]).
  rewrite <- (app_nil_r (concat _)).
  apply writes_exactly_bind; [|intros _; silent].
  apply writes_exactly_for_of. intros c. apply clone_collection_writes.
Qed.

Lemma clone_finally_writes r :
  let r' := (clone_finally r).1 in
  job r' = job r
  ∧ writes (log r') = writes (log r)
  ∧ (no_failed_insert (log r) → no_failed_insert (log r')).
Proof.
  unfold clone_finally, bind, close, ret. cbv zeta.
  destruct (sourceClient r) eqn:Hsc; cbn; rewrite ?Hsc; cbn;
    destruct (targetClient r); cbn;
    rewrite ?writes_app; cbn; rewrite ?app_nil_r;
    (split_and!; [done..|]); unfold no_failed_insert; intros Hn;
    rewrite ?Forall_app; split_and?; by repeat constructor.
Qed.

Lemma clone_failed_writes e r :
  let r' := (clone_failed clock e r).1 in
  status (job r') = Failed ∧ log r' = log r.
Proof. done. Qed.

Lemma cloneDatabase_writes jobId now sourceConnection targetConnection databaseName :
  let r := run_clone oracle clock source jobId now sourceConnection targetConnection
             databaseName in
  writes (log r) `prefix_of` clone_plan source
  ∧ (status (job r) = Completed →
     writes (log r) = clone_plan source ∧ no_failed_insert (log r)).
Proof.
  unfold run_clone, cloneDatabase.
  pose proof (clone_body_writes sourceConnection targetConnection databaseName
                (initial_run (new_job jobId now))) as Hbody.
  unfold wp in Hbody. unfold try_finally, try_catch.
  destruct (clone_body _ _ _ _ _ _ _) as [r1 [e|[]]].
  - destruct Hbody as (ops' & Hp & Hw). cbn in Hw.
    destruct (clone_failed_writes e r1) as [Hs Hl].
    destruct (clone_failed clock e r1) as [r2 res]. cbn in Hs, Hl.
    destruct (clone_finally_writes r2) as (Hj & Hw2 & _).
    destruct (clone_finally r2) as [r3 [e3|[]]]; cbn in *;
      rewrite Hw2, Hl, Hw, Hj, Hs; by split.
  - destruct Hbody as [Hw Hn]. cbn in Hw, Hn.
    destruct (clone_finally_writes r1) as (Hj & Hw2 & Hn2).
    destruct (clone_finally r1) as [r3 [e3|[]]]; cbn in *;
      rewrite Hw2, Hw; (split; [done|]); intros _; split; [done| |done|];
      apply Hn2, Hn; constructor.
Qed.

End WithWorld.

Section WithRun.
Context `{JSRuntime}.
Variable oracle : Oracle.
Variable clock : nat → Z.
Variable source : list SourceCollection.

Lemma inserted_into_writes name l :
  no_failed_insert l →
  inserted_into name l = concat (omap (batch_into name) (writes l)).
Proof.
  unfold inserted_into, writes. intros Hn. f_equal.
  induction Hn as [|ev l Hev Hn IH]; [done|]. cbn [omap list_omap].
  rewrite IH. destruct ev as [op [e|]|p t]; [|by destruct op..|done].
  destruct op; try done.
Qed.

Lemma batches_into name n bs :
  omap (batch_into name) (map (OpInsertMany n) bs)
  = if decide (n = name) then bs else [].
Proof.
  induction bs as [|b bs IH]; cbn; [by destruct (decide _)|].
  fold (omap (batch_into name) (map (OpInsertMany n) bs)). rewrite IH.
  by destruct (decide (n = name)).
Qed.

Lemma index_plan_into name n ixs : omap (batch_into name) (index_plan n ixs) = [].
Proof.
  unfold index_plan. induction (filter _ ixs) as [|ix l IH]; [done|]. cbn. exact IH.
Qed.

Lemma collection_plan_into name c :
  concat (omap (batch_into name) (collection_plan source c))
  = if decide (col_name c = name) then documents_of source (col_name c) else [].
Proof.
  unfold collection_plan. cbn [omap list_omap batch_into].
  fold (omap (batch_into name)
         (map (OpInsertMany (col_name c)) (batches (documents_of source (col_name c)))
          ++ index_plan (col_name c) (indexes_of source (col_name c)))).
  rewrite omap_app, batches_into, index_plan_into, app_nil_r.
  destruct (decide (col_name c = name)); [|done].
  unfold batches. by rewrite slices_from.
Qed.

Lemma clone_plan_into name cols :
  name ∉ map col_name cols →
  concat (omap (batch_into name) (concat (map (collection_plan source) cols))) = [].
Proof.
  induction cols as [|c cols IH]; [done|]. cbn [map concat].
  rewrite not_elem_of_cons. intros [Hne Hnotin].
  rewrite omap_app, concat_app, collection_plan_into, IH by done.
  by destruct (decide (col_name c = name)).
Qed.

Lemma documents_of_listed c :
  NoDup (map col_name source) → c ∈ source →
  documents_of source (col_name c) = col_docs c.
Proof.
  unfold documents_of, source_collection. generalize source as cols.
  induction cols as [|c' cols IH]; intros Hnd Hin; [by apply elem_of_nil in Hin|].
  cbn in Hnd. apply NoDup_cons in Hnd as [Hnotin Hnd]. cbn [list_find].
  destruct (decide (col_name c' = col_name c)) as [Heq|Hne]; cbn.
  - apply elem_of_cons in Hin as [->|Hin]; [done|].
    destruct Hnotin. rewrite Heq. by apply list_elem_of_fmap_2.
  - apply elem_of_cons in Hin as [->|Hin]; [done|].
    specialize (IH Hnd Hin).
    destruct (list_find _ cols) as [[i x]|]; cbn in *; done.
Qed.

Lemma clone_plan_into_listed c cols :
  NoDup (map col_name cols) → c ∈ cols →
  concat (omap (batch_into (col_name c)) (concat (map (collection_plan source) cols)))
  = documents_of source (col_name c).
Proof.
  induction cols as [|c' cols IH]; intros Hnd Hin; [by apply elem_of_nil in Hin|].
  cbn in Hnd. apply NoDup_cons in Hnd as [Hnotin Hnd]. cbn [map concat].
  rewrite omap_app, concat_app, collection_plan_into.
  apply elem_of_cons in Hin as [->|Hin].
  - rewrite decide_True by done. rewrite clone_plan_into by done. apply app_nil_r.
  - rewrite decide_False, IH; [done..|].
    intros Heq. destruct Hnotin. rewrite Heq. by apply list_elem_of_fmap_2.
Qed.

(** X24.  Whatever happens, the writes a run attempts on the target are
    an initial part of the plan of the clone: per listed collection, in
    order, one [drop], one [insertMany] per batch of its documents, and one
    [createIndex] per index other than [_id_]. *)
Theorem writes_follow_plan jobId now sourceConnection targetConnection databaseName :
  writes (log (run_clone oracle clock source jobId now sourceConnection
                 targetConnection databaseName))
  `prefix_of` clone_plan source.
Proof.
  by destruct (cloneDatabase_writes oracle clock source jobId now sourceConnection
                 targetConnection databaseName) as [Hp _].
Qed.

(** X25.  A run that reaches [completed] has attempted the whole plan,
    nothing else, and none of its [insertMany] calls was rejected. *)
Theorem completed_clone_writes_plan jobId now sourceConnection targetConnection
    databaseName :
  let r := run_clone oracle clock source jobId now sourceConnection targetConnection
             databaseName in
  status (job r) = Completed →
  writes (log r) = clone_plan source ∧ no_failed_insert (log r).
Proof.
  intros r Hs.
  by destruct (cloneDatabase_writes oracle clock source jobId now sourceConnection
                 targetConnection databaseName) as [_ Hc]; apply Hc.
Qed.

(** X26.  When the listed collections have distinct names and the run
    reaches [completed], the documents the target accepted into a
    collection are the documents of that collection in the source, each
    once and in the same order. *)
Theorem completed_clone_copies_documents jobId now sourceConnection targetConnection
    databaseName c :
  let r := run_clone oracle clock source jobId now sourceConnection targetConnection
             databaseName in
  NoDup (map col_name source) → c ∈ source →
  status (job r) = Completed →
  inserted_into (col_name c) (log r) = col_docs c.
Proof.
  intros r Hnd Hin Hs.
  destruct (cloneDatabase_writes oracle clock source jobId now sourceConnection
              targetConnection databaseName) as [_ Hc].
  destruct (Hc Hs) as [Hw Hn]. fold r in Hw, Hn.
  rewrite (inserted_into_writes _ _ Hn), Hw.
  unfold clone_plan. rewrite clone_plan_into_listed by done.
  by apply documents_of_listed.
Qed.

End WithRun.
End EngineWrites.

(** ** Clone engine: the end time *)

Section EngineEndTime.
Import Engine.
Local Open Scope engine_scope.

Lemma wp_of_preserves {A} (I : Run → Prop) (m : M A) Q E r :
  preserves I m → I r →
  (∀ a r', I r' → Q a r') → (∀ e r', I r' → E e r') →
  wp m Q E r.
Proof.
  intros Hm Hr HQ HE. specialize (Hm r Hr). unfold wp.
  destruct (m r) as [r' [e|a]]; auto.
Qed.

Lemma Unfinished_update f r :
  endTime (f (job r)) = endTime (job r) → Unfinished r → Unfinished (with_job f r).
Proof. intros Hf [Hj Hh]. split; [by rewrite <- Hj|done]. Qed.

Lemma Unfinished_performed op outcome r : Unfinished r → Unfinished (performed op outcome r).
Proof.
  intros [Hj Hh]. split; [done|]. cbn. apply Forall_app. split; [done|].
  by repeat constructor.
Qed.

Lemma Unfinished_event ev r : Unfinished r → Unfinished (with_event ev r).
Proof. by intros [Hj Hh]. Qed.

Lemma Unfinished_client side r : Unfinished r → Unfinished (with_client side r).
Proof. by intros [Hj Hh]. Qed.

Ltac unfinished_with tac :=
  repeat first
    [ tac
    | apply preserves_bind; [|intros ?]
    | apply preserves_try_catch; [|intros ?]
    | apply preserves_ret
    | apply preserves_throw
    | apply preserves_update; intros ? ?; apply Unfinished_update;
        [reflexivity|assumption]
    | apply preserves_await; intros ? ? ?; apply Unfinished_performed; assumption
    | apply preserves_emit; intros ? ?; apply Unfinished_event; assumption
    | (intros ? ?; assumption) ].

Ltac unfinished := unfinished_with fail.

Section WithWorld.
Context `{JSRuntime}.
Variable oracle : Oracle.
Variable clock : nat → Z.
Variable source : list SourceCollection.

Lemma connectToMongoDB_unfinished side cs :
  preserves Unfinished (connectToMongoDB oracle side cs).
Proof.
  unfold connectToMongoDB. unfinished.
Qed.

Lemma count_documents_unfinished cols : ∀ n,
  preserves Unfinished (count_documents oracle source cols n).
Proof.
  induction cols as [|c cols IH]; intros n; cbn [count_documents]; unfinished.
  apply IH.
Qed.

Lemma clone_collection_unfinished c :
  preserves Unfinished (clone_collection oracle source c).
Proof.
  unfold clone_collection. cbv zeta. unfinished.
  - case_bool_decide; [|unfinished]. apply preserves_for_of. intros j.
    unfold insert_batch. cbv zeta. unfinished.
  - apply preserves_for_of. intros ix. unfold copy_index.
    case_bool_decide; unfinished.
Qed.

Ltac unfinished_step :=
  apply wp_bind;
  apply (wp_of_preserves Unfinished);
    [ unfinished_with ltac:(first [ apply connectToMongoDB_unfinished
                                  | apply count_documents_unfinished
                                  | apply preserves_for_of; intros ?;
                                    apply clone_collection_unfinished ])
    | assumption
    | intros ? ? ?
    | intros; assumption ].

Lemma clone_body_closing sourceConnection targetConnection databaseName r :
  Unfinished r →
  wp (clone_body oracle clock source sourceConnection targetConnection databaseName)
    (λ _, Closing) (λ _, Unfinished) r.
Proof.
  intros Hr. unfold clone_body. cbv zeta. repeat unfinished_step.
  apply wp_update. match goal with Hu : Unfinished _ |- _ => destruct Hu as [_ Hh] end.
  split; [by eexists|done].
Qed.

Lemma clone_failed_closing message r :
  Unfinished r → Closing (clone_failed clock message r).1.
Proof. intros [_ Hh]. split; [by eexists|done]. Qed.

Lemma clone_finally_history r :
  ∃ k, history (clone_finally r).1 = history r ++ replicate k (job r)
       ∧ job (clone_finally r).1 = job r.
Proof.
  unfold clone_finally, bind, close, ret.
  destruct (sourceClient r) eqn:Hsc; cbn; rewrite ?Hsc; cbn;
    destruct (targetClient r); cbn.
  - exists 2. by rewrite <- (assoc_L (++)).
  - by exists 1.
  - by exists 1.
  - exists 0. by rewrite app_nil_r.
Qed.

Lemma cloneDatabase_closing jobId now sourceConnection targetConnection databaseName :
  let r := run_clone oracle clock source jobId now sourceConnection targetConnection
             databaseName in
  ∃ past k, Forall (λ j, endTime j = None) past
            ∧ is_Some (endTime (job r))
            ∧ observations r = past ++ replicate k (job r).
Proof.
  unfold run_clone, cloneDatabase.
  assert (Hu : Unfinished (initial_run (new_job jobId now))) by (split; [done|constructor]).
  pose proof (clone_body_closing sourceConnection targetConnection databaseName _ Hu)
    as Hbody.
  unfold wp in Hbody. unfold try_finally, try_catch.
  assert (Hend : ∀ r1, Closing r1 →
            ∃ past k, Forall (λ j, endTime j = None) past
                      ∧ is_Some (endTime (job (clone_finally r1).1))
                      ∧ observations (clone_finally r1).1
                        = past ++ replicate k (job (clone_finally r1).1)).
  { intros r1 [Hdated Hh]. destruct (clone_finally_history r1) as (k & Hk & Hj).
    exists (history r1), (S k). unfold observations. rewrite Hk, Hj.
    split_and!; [done..|]. rewrite <- (assoc_L (++)). f_equal.
    change [job r1] with (replicate 1 (job r1)). rewrite <- replicate_add.
    f_equal. lia. }
  destruct (clone_body _ _ _ _ _ _ _) as [r1 [e|[]]].
  - pose proof (clone_failed_closing e r1 Hbody) as Hc.
    destruct (clone_failed clock e r1) as [r2 res]. cbn in Hc.
    specialize (Hend r2 Hc). by destruct (clone_finally r2) as [r3 [e3|[]]].
  - specialize (Hend r1 Hbody). by destruct (clone_finally r1) as [r3 [e3|[]]].
Qed.

(** X27.  The end time of a job is recorded once, when its run ends: the
    job ends in a terminal status with an end time, and an observation
    that shows an end time shows the job exactly as it ends, so that no
    observation in another status carries one. *)
Theorem end_time_marks_the_end jobId now sourceConnection targetConnection databaseName :
  let r := run_clone oracle clock source jobId now sourceConnection targetConnection
             databaseName in
  is_Some (endTime (job r))
  ∧ terminal (status (job r)) = true
  ∧ (∀ j, j ∈ observations r → is_Some (endTime j) → j = job r).
Proof.
  intros r.
  destruct (cloneDatabase_closing jobId now sourceConnection targetConnection
              databaseName) as (past & k & Hpast & Hdated & Hobs).
  fold r in Hdated, Hobs. split_and!; [done| |].
  - destruct (cloneDatabase_ends oracle clock source jobId now sourceConnection
                targetConnection databaseName) as [_ _ _ Hout].
    fold r in Hout. by destruct Hout as [(-> & _)|(-> & _)].
  - intros j Hj [t Ht]. rewrite Hobs in Hj.
    apply elem_of_app in Hj as [Hj|Hj].
    + rewrite Forall_forall in Hpast. by rewrite (Hpast j Hj) in Ht.
    + by apply elem_of_replicate in Hj as [-> _].
Qed.

End WithWorld.
End EngineEndTime.

(** In the run over the sample source in which every index creation fails,
    the job ends under the identifier and the start time it was created
    with. *)
Lemma job_identity_is_fixed_witness :
  let r := @Engine.sample_run (reference_runtime []) Engine.index_creation_fails
             Engine.sample_source in
  job_id (Engine.job r) = "1700000000000" ∧ startTime (Engine.job r) = 1700000000000%Z.
Proof.
  cbv beta zeta delta [Engine.sample_run].
  apply (@job_identity_is_fixed (reference_runtime []) Engine.index_creation_fails
           Engine.sample_clock Engine.sample_source "1700000000000"
           1700000000000 "mongodb://source/" "mongodb://target/" "shop").
  unfold Engine.observations. apply elem_of_app. right. apply list_elem_of_here.
Defined.

(** In that run the ninth observation shows 1000 documents and no error,
    the thirteenth 2500 documents, one collection and one error. *)
Lemma counters_never_decrease_witness :
  let r := @Engine.sample_run (reference_runtime []) Engine.index_creation_fails
             Engine.sample_source in
  ∃ a b,
    Engine.observations r !! 8%nat = Some a
    ∧ Engine.observations r !! 12%nat = Some b
    ∧ processedDocuments a = 1000 ∧ processedDocuments b = 2500
    ∧ processedDocuments a ≤ processedDocuments b
    ∧ processedCollections a ≤ processedCollections b
    ∧ errors a `prefix_of` errors b.
Proof.
  cbv beta zeta delta [Engine.sample_run].
  pose proof (@counters_never_decrease (reference_runtime [])
                Engine.index_creation_fails Engine.sample_clock Engine.sample_source
                "1700000000000" 1700000000000 "mongodb://source/" "mongodb://target/"
                "shop" 8%nat 12%nat) as Hmono.
  cbv zeta in Hmono.
  set (obs := Engine.observations _) in *.
  set (a := default (new_job "" 0) (obs !! 8%nat)).
  set (b := default (new_job "" 0) (obs !! 12%nat)).
  assert (Ha : obs !! 8%nat = Some a) by (vm_compute; reflexivity).
  assert (Hb : obs !! 12%nat = Some b) by (vm_compute; reflexivity).
  exists a, b.
  split; [exact Ha|]. split; [exact Hb|].
  split; [vm_compute; reflexivity|]. split; [vm_compute; reflexivity|].
  exact (Hmono a b ltac:(lia) Ha Hb).
Defined.

(** The run over the sample source in which nothing fails is completed,
    and its writes are the plan. *)
Lemma completed_clone_writes_plan_witness :
  let r := @Engine.sample_run (reference_runtime []) Engine.all_succeed
             Engine.sample_source in
  Engine.writes (Engine.log r) = Engine.clone_plan Engine.sample_source
  ∧ Engine.no_failed_insert (Engine.log r).
Proof.
  cbv beta zeta delta [Engine.sample_run].
  pose proof (@completed_clone_writes_plan (reference_runtime []) Engine.all_succeed
                Engine.sample_clock Engine.sample_source "1700000000000"
                1700000000000 "mongodb://source/" "mongodb://target/" "shop") as Hplan.
  cbv zeta in Hplan.
  match type of Hplan with
  | ?A → _ => assert (Hs : A) by (vm_compute; reflexivity)
  end.
  exact (Hplan Hs).
Defined.

(** In that run the target accepts the 2500 documents of [users]. *)
Lemma completed_clone_copies_documents_witness :
  let r := @Engine.sample_run (reference_runtime []) Engine.all_succeed
             Engine.sample_source in
  Engine.inserted_into "users" (Engine.log r)
  = map (λ n, [("_id", JNum (Z.of_nat n))]) (seq 0 2500).
Proof.
  cbv beta zeta delta [Engine.sample_run].
  pose proof (@completed_clone_copies_documents (reference_runtime [])
                Engine.all_succeed Engine.sample_clock Engine.sample_source
                "1700000000000" 1700000000000 "mongodb://source/" "mongodb://target/"
                "shop"
                {| Engine.col_name := "users";
                   Engine.col_docs := map (λ n, [("_id", JNum (Z.of_nat n))]) (seq 0 2500);
                   Engine.col_indexes := [Engine.sample_index "_id_" "_id";
                                          Engine.sample_index "email_1" "email"] |})
    as Hcopy.
  cbv zeta in Hcopy.
  match type of Hcopy with
  | ?A → ?B → ?C → _ =>
      assert (Hnd : A) by (apply (bool_decide_unpack _); vm_compute; reflexivity);
      assert (Hin : B) by apply list_elem_of_here;
      assert (Hs : C) by (vm_compute; reflexivity)
  end.
  exact (Hcopy Hnd Hin Hs).
Defined.

(** When the target cannot be reached the job ends as failed, with an end
    time that no earlier observation shows. *)
Lemma end_time_marks_the_end_witness :
  let r := @Engine.sample_run (reference_runtime []) Engine.target_unreachable
             Engine.sample_source in
  status (Engine.job r) = Failed
  ∧ is_Some (endTime (Engine.job r))
  ∧ (∀ j, j ∈ Engine.observations r → is_Some (endTime j) → j = Engine.job r).
Proof.
  cbv beta zeta delta [Engine.sample_run].
  destruct (@end_time_marks_the_end (reference_runtime []) Engine.target_unreachable
              Engine.sample_clock Engine.sample_source "1700000000000"
              1700000000000 "mongodb://source/" "mongodb://target/" "shop")
    as (Hend & _ & Hobs).
  split; [vm_compute; reflexivity|]. split; [exact Hend|exact Hobs].
Defined.

(** ** Listing routes *)

Section BrowseFacts.
Import Browse.

Lemma collect_stats_map w collections :
  collect_stats w collections = map (stats_of w) collections.
Proof.
  unfold collect_stats.
  assert (Hgen : ∀ acc, foldl (λ collectionStats collection,
                                 collectionStats ++ [stats_of w collection])
                              acc collections
                        = acc ++ map (stats_of w) collections).
  { induction collections as [|c cs IH]; intros acc; cbn.
    - by rewrite app_nil_r.
    - by rewrite IH, <- (assoc_L (++)). }
  apply Hgen.
Qed.

Lemma stats_of_spec w c :
  let s := stats_of w c in
  cs_name s = listed_name c
  ∧ (cs_error s = None →
       countDocuments w (listed_name c) = inr (documentCount s)
       ∧ ∃ sampleDoc, findOne w (listed_name c) = inr sampleDoc
                      ∧ sampleSchema s = from_option (map fst) [] sampleDoc)
  ∧ (∀ message, cs_error s = Some message →
       documentCount s = 0 ∧ sampleSchema s = []
       ∧ (countDocuments w (listed_name c) = inl message
          ∨ findOne w (listed_name c) = inl message)).
Proof.
  unfold stats_of.
  destruct (countDocuments w (listed_name c)) as [e|n]; cbn.
  { split_and!; [done..|]. intros ? [= <-]. auto. }
  destruct (findOne w (listed_name c)) as [e|d]; cbn.
  { split_and!; [done..|]. intros ? [= <-]. auto. }
  split_and!; [done| |done]. intros _. split; [done|]. exists d. by destruct d.
Qed.

(** X28.  [POST /api/database/collections] answers 200 whenever both
    connections, the database handle and the listing succeed, whatever
    happens for the single collections: the answer has one entry per listed
    collection, in the order of the listing and under its name; an entry
    without an error carries the count and the field names of the sample
    document, and an entry with an error carries the message of the call
    that failed, the count 0 and no field names.  Both clients are closed. *)
Theorem collection_failures_are_reported w connectionString databaseName collections :
  truthy connectionString = true → truthy databaseName = true →
  connect_error w 0 = None → db_error w databaseName = None →
  listCollections w = inr collections → connect_error w 1 = None →
  ∃ stats,
    post_database_collections w connectionString databaseName
    = respond 200 (Collections stats) 0
    ∧ length stats = length collections
    ∧ ∀ i c, collections !! i = Some c →
        ∃ s, stats !! i = Some s
          ∧ cs_name s = listed_name c
          ∧ (cs_error s = None →
               countDocuments w (listed_name c) = inr (documentCount s)
               ∧ ∃ sampleDoc, findOne w (listed_name c) = inr sampleDoc
                              ∧ sampleSchema s = from_option (map fst) [] sampleDoc)
          ∧ (∀ message, cs_error s = Some message →
               documentCount s = 0 ∧ sampleSchema s = []
               ∧ (countDocuments w (listed_name c) = inl message
                  ∨ findOne w (listed_name c) = inl message)).
Proof.
  intros Hcs Hdb Hc0 Hd Hl Hc1. exists (map (stats_of w) collections).
  unfold post_database_collections. rewrite Hcs, Hdb, Hc0, Hd, Hl, Hc1. cbn.
  rewrite collect_stats_map. split_and!; [done|by rewrite length_map|].
  intros i c Hi. exists (stats_of w c). split; [by rewrite list_lookup_fmap, Hi|].
  apply stats_of_spec.
Qed.

(** X29.  [POST /api/database/collections] answers 200 or 400 and leaves at
    most one client open; it leaves one open exactly when, after the first
    connection, the database handle or the listing fails: the [catch]
    answers 400 without closing the client. *)
Theorem collections_route_leak w connectionString databaseName :
  let o := post_database_collections w connectionString databaseName in
  (code o = 200 ∨ code o = 400)
  ∧ (code o = 200 → open_clients o = 0)
  ∧ (open_clients o = 0 ∨ open_clients o = 1)
  ∧ (open_clients o = 1 ↔
       truthy connectionString = true ∧ truthy databaseName = true
       ∧ connect_error w 0 = None
       ∧ (is_Some (db_error w databaseName)
          ∨ ∃ message, listCollections w = inl message)).
Proof.
  unfold post_database_collections.
  destruct (truthy connectionString), (truthy databaseName); cbn;
    try (split_and!; [auto..|]; split; [done|by intros (? & ? & _)]).
  destruct (connect_error w 0) as [e0|]; cbn.
  { split_and!; [auto..|]. split; [done|by intros (_ & _ & ? & _)]. }
  destruct (db_error w databaseName) as [ed|]; cbn.
  { split_and!; [auto|done|auto|]. split; [|done]. intros _. split_and!; eauto. }
  destruct (listCollections w) as [el|cols]; cbn.
  { split_and!; [auto|done|auto|]. split; [|done]. intros _. split_and!; eauto. }
  destruct (connect_error w 1) as [e1|]; cbn;
    (split_and!; [auto..|]; split; [done|]);
    intros (_ & _ & _ & [[? [=]]|[? [=]]]).
Qed.

(** X30.  [POST /api/test-connection] answers 200 only when the connection
    and the listing of the databases succeed, with one entry per database
    in which a missing or falsy size is 0 and a missing or falsy [empty] is
    [false], and the client closed; when the listing fails it answers 400
    with the message and leaves the client open. *)
Theorem test_connection_spec w connectionString :
  let o := post_test_connection w connectionString in
  (code o = 200 →
     open_clients o = 0
     ∧ truthy connectionString = true ∧ connect_error w 0 = None
     ∧ ∃ databases, listDatabases w = inr databases
         ∧ body o = Databases (map database_entry databases)
         ∧ ∀ e, e ∈ map database_entry databases →
             (truthy (sizeOnDisk e) = true ∨ sizeOnDisk e = JNum 0)
             ∧ (truthy (empty e) = true ∨ empty e = JBool false))
  ∧ (∀ message, truthy connectionString = true → connect_error w 0 = None →
       listDatabases w = inl message →
       o = respond 400 (Failure message) 1).
Proof.
  unfold post_test_connection. split.
  - destruct (truthy connectionString); [|done]. cbn.
    destruct (connect_error w 0); [done|].
    destruct (listDatabases w) as [e|dbs]; [done|]. cbn. intros _.
    split_and!; [done..|]. exists dbs. split_and!; [done..|].
    intros e (d & -> & _)%list_elem_of_fmap. cbn. unfold js_or.
    split.
    + destruct (truthy (property "sizeOnDisk" d)) eqn:Ht; auto.
    + destruct (truthy (property "empty" d)) eqn:Ht; auto.
  - intros message -> -> ->. done.
Qed.

End BrowseFacts.

(** On the sample server the second collection cannot be counted: the
    route answers 200 with two entries, the second one carrying the
    message. *)
Lemma collection_failures_are_reported_witness :
  ∃ stats,
    Browse.post_database_collections Browse.sample_world
      (JStr "mongodb://source/") (JStr "shop")
    = Browse.respond 200 (Browse.Collections stats) 0
    ∧ length stats = 2
    ∧ Browse.cs_error <$> stats !! 1 = Some (Some "not authorized").
Proof.
  destruct (collection_failures_are_reported Browse.sample_world
              (JStr "mongodb://source/") (JStr "shop")
              [ {| Browse.listed_name := "users"; Browse.listed_type := JStr "collection" |};
                {| Browse.listed_name := "audit"; Browse.listed_type := JUndefined |} ]
              eq_refl eq_refl eq_refl eq_refl eq_refl eq_refl)
    as (stats & Hroute & Hlen & Hentries).
  exists stats. split_and!; [exact Hroute|exact Hlen|].
  revert Hroute. vm_compute. intros [= <-]. reflexivity.
Defined.

(** When the listing is refused the route answers 400 and the client stays
    open. *)
Lemma collections_route_leak_witness :
  Browse.open_clients
    (Browse.post_database_collections Browse.listing_refused
       (JStr "mongodb://source/") (JStr "shop")) = 1.
Proof.
  apply (collections_route_leak Browse.listing_refused
           (JStr "mongodb://source/") (JStr "shop")).
  split_and!; [reflexivity..|]. right. by exists "not authorized".
Defined.

(** The sample server lists two databases; the second one has no size and
    no [empty] flag. *)
Lemma test_connection_spec_witness :
  Browse.body (Browse.post_test_connection Browse.sample_world (JStr "mongodb://source/"))
  = Browse.Databases
      [ {| Browse.db_name := JStr "shop"; Browse.sizeOnDisk := JNum 8192;
           Browse.empty := JBool false |};
        {| Browse.db_name := JStr "scratch"; Browse.sizeOnDisk := JNum 0;
           Browse.empty := JBool false |} ]
  ∧ Browse.post_test_connection Browse.listing_refused (JStr "mongodb://source/")
    = Browse.respond 400 (Browse.Failure "not authorized") 1.
Proof.
  split.
  - destruct (test_connection_spec Browse.sample_world (JStr "mongodb://source/"))
      as [Hok _].
    destruct (Hok eq_refl) as (_ & _ & _ & dbs & Hdbs & Hbody & _).
    rewrite Hbody. injection Hdbs as <-. reflexivity.
  - by apply (test_connection_spec Browse.listing_refused (JStr "mongodb://source/")).
Defined.
